(** * Verification of the supercell granular processor

    This development embeds the orchestration layer of
    [supercell/dsp/granular_processor.cc] (the per-block pipeline
    [Process] / [ProcessGranular], the workspace manager [Prepare] and the
    persistence protocol [PreparePersistentData] / [GetPersistentData] /
    [LoadPersistentData]) and proves the properties its specification
    states about it.

    Conventions of the embedding:
    - [float] is IEEE-754 binary32, computed bit-exactly with the
      Standard Library's [SpecFloat] (round to nearest even);
    - integers are [Z]; the two arrays of two elements the class owns are
      pairs;
    - the synthesis engines, filters and helpers of stmlib are external:
      every call the class makes to one of them is appended, with its
      arguments, to the [calls] log of the state, and what a call returns
      is given by an oracle over the log so far. *)

From Stdlib Require Import ZArith List Bool Lia QArith.
From Stdlib Require Import Floats.SpecFloat.
From Stdlib Require Strings.String.
From Stdlib Require Import Strings.Ascii.
Import ListNotations.
Import String.StringSyntax.

Local Open Scope string_scope.
Local Open Scope Z_scope.

(** ** Single-precision arithmetic *)

Module Float32.

Definition float : Type := spec_float.

Definition prec : Z := 24.
Definition emax : Z := 128.

Definition fadd : float -> float -> float := SFadd prec emax.
Definition fsub : float -> float -> float := SFsub prec emax.
Definition fmul : float -> float -> float := SFmul prec emax.
Definition fdiv : float -> float -> float := SFdiv prec emax.
Definition fneg : float -> float := SFopp.

Definition flt : float -> float -> bool := SFltb.
Definition fle : float -> float -> bool := SFleb.
Definition fgt (x y : float) : bool := SFltb y x.
Definition fge (x y : float) : bool := SFleb y x.

(** [static_cast<float>(n)] for an integer [n]. *)
Definition float_of_Z (n : Z) : float := binary_normalize prec emax n 0 false.

(** The literal [n / 10^k] written in decimal, rounded to nearest: both
    operands are exact for the literals of this file, and the division
    is correctly rounded. *)
Definition dec (n : Z) (k : Z) : float :=
  fdiv (float_of_Z n) (float_of_Z (10 ^ k)).

Definition fzero : float := S754_zero false.
Definition fone : float := Eval vm_compute in float_of_Z 1.

Definition is_finite (x : float) : bool :=
  match x with
  | S754_zero _ | S754_finite _ _ _ => true
  | _ => false
  end.

Definition is_zero (x : float) : bool :=
  match x with
  | S754_zero _ => true
  | _ => false
  end.

(** A value of the binary32 format (canonical mantissa, exponent in
    range). *)
Definition valid (x : float) : bool := valid_binary prec emax x.

(** Exact value of a finite binary32 number, as the rational
    [m * 2^e], written over the common denominator [2^149] (the
    smallest exponent of the format is [-149]). *)
Definition scaled (x : float) : Z :=
  match x with
  | S754_finite s m e => cond_Zopp s (Zpos m) * 2 ^ (e + 149)
  | _ => 0
  end.

Definition F2Q (x : float) : Q := Qmake (scaled x) (2 ^ 149)%positive.

(** *** Double precision, for the comparisons the source makes after
    promoting a [float] to [double]. *)

(** Promotion of a binary32 value to binary64: the mantissa is shifted
    to 53 digits, the value is unchanged. *)
Definition to_double (x : float) : spec_float :=
  match x with
  | S754_finite s m e =>
      let k := 53 - Zpos (digits2_pos m) in
      S754_finite s (Pos.iter xO m (Z.to_pos k)) (e - k)
  | _ => x
  end.

Definition double_of_Z (n : Z) : spec_float := binary_normalize 53 1024 n 0 false.

Definition ddec (n : Z) (k : Z) : spec_float :=
  SFdiv 53 1024 (double_of_Z n) (double_of_Z (10 ^ k)).

(** [std::min] and [std::max] on floats, as the C++ library defines
    them: [min(a, b) = (b < a) ? b : a], [max(a, b) = (a < b) ? b : a]. *)
Definition std_min (a b : float) : float := if flt b a then b else a.
Definition std_max (a b : float) : float := if flt a b then b else a.

End Float32.

Import Float32.

Declare Scope f32_scope.
Delimit Scope f32_scope with f32.
Bind Scope f32_scope with float.
Infix "+" := fadd : f32_scope.
Infix "-" := fsub : f32_scope.
Infix "*" := fmul : f32_scope.
Infix "/" := fdiv : f32_scope.
Notation "- x" := (fneg x) : f32_scope.
Infix "<?" := flt : f32_scope.
Infix "<=?" := fle : f32_scope.
Infix ">?" := fgt : f32_scope.
Infix ">=?" := fge : f32_scope.

(** ** Data model *)

(** [struct ShortFrame { short l; short r; }]: one stereo frame in wire
    format. *)
Module ShortFrame.
Record t : Type := mk { l : Z; r : Z }.
End ShortFrame.

(** [struct FloatFrame { float l; float r; }]: one stereo frame in the
    internal format. *)
Module FloatFrame.
Record t : Type := mk { l : float; r : float }.
End FloatFrame.

(** Modelled from the spec: [struct Parameters] is declared in a header
    that is not among the sources; the fields are those the spec lists
    (section 3) and the code reads or writes, the nested [granular],
    [spectral] and [kammerl] structures being flattened. *)
Module Parameters.
Record t : Type := mk {
  position : float;
  size : float;
  pitch : float;
  density : float;
  texture : float;
  dry_wet : float;
  stereo_spread : float;
  feedback : float;
  reverb : float;
  freeze : bool;
  trigger : bool;
  gate : bool;
  granular_overlap : float;
  granular_window_shape : float;
  granular_use_deterministic_seed : bool;
  spectral_quantization : float;
  spectral_refresh_rate : float;
  spectral_phase_randomization : float;
  spectral_warp : float;
  kammerl_pitch_mode : float
}.

Definition set_freeze (v : bool) (p : t) : t :=
  mk (position p) (size p) (pitch p) (density p) (texture p) (dry_wet p)
     (stereo_spread p) (feedback p) (reverb p) v (trigger p) (gate p)
     (granular_overlap p) (granular_window_shape p)
     (granular_use_deterministic_seed p) (spectral_quantization p)
     (spectral_refresh_rate p) (spectral_phase_randomization p)
     (spectral_warp p) (kammerl_pitch_mode p).

Definition set_granular (seed : bool) (overlap window_shape : float) (p : t) : t :=
  mk (position p) (size p) (pitch p) (density p) (texture p) (dry_wet p)
     (stereo_spread p) (feedback p) (reverb p) (freeze p) (trigger p) (gate p)
     overlap window_shape seed (spectral_quantization p)
     (spectral_refresh_rate p) (spectral_phase_randomization p)
     (spectral_warp p) (kammerl_pitch_mode p).

Definition set_spectral (quantization refresh_rate warp phase_randomization : float)
    (p : t) : t :=
  mk (position p) (size p) (pitch p) (density p) (texture p) (dry_wet p)
     (stereo_spread p) (feedback p) (reverb p) (freeze p) (trigger p) (gate p)
     (granular_overlap p) (granular_window_shape p)
     (granular_use_deterministic_seed p) quantization refresh_rate
     phase_randomization warp (kammerl_pitch_mode p).
End Parameters.

(** Modelled from the spec: [struct PersistentState] is declared in the
    header; it is the fixed-size record of section 6 (per-channel
    write-head offsets, quality code, spectral-mode flag), with the field
    types the code uses: two [int32_t] write heads, then [quality] and
    [spectral] as [uint8_t].  On the 32-bit little-endian target this is
    12 bytes, the last two being padding that nothing reads. *)
Module PersistentState.
Record t : Type := mk {
  write_head : Z * Z;
  quality : Z;
  spectral : Z
}.
Definition sizeof : Z := 12.
End PersistentState.

(** An address inside one of the two raw regions handed to [Init]
    (region 0 is the large buffer, region 1 the small one). *)
Inductive Ptr : Type :=
| NULL
| At (region : Z) (offset : Z).

(** What a [PersistentBlock] points at: the state record, or the start of
    raw region [i]. *)
Inductive BlockData : Type :=
| StateData
| BufferData (i : Z).

Module PersistentBlock.
Record t : Type := mk { tag : Z; data : BlockData; size : Z }.
End PersistentBlock.

(** *** External collaborators *)

(** The objects the processor owns and calls into. *)
Inductive Collaborator : Type :=
| fb_filter_ (i : Z) | lp_filter_ (i : Z) | hp_filter_ (i : Z)
| src_down_ | src_up_
| player_ | ws_player_ | looper_ | phase_vocoder_
| oliverb_ | reverb_ | resonestor_ | kammerl_
| diffuser_ | pitch_shifter_ | correlator_
| ring_buffer (resolution : Z) (i : Z)
| libc.

Inductive Arg : Type :=
| AF (x : float)
| AZ (n : Z)
| AB (b : bool)
| APtr (p : Ptr)
| ASamples (xs : list float)
| AFrames (fs : list FloatFrame.t)
| AParameters (p : Parameters.t)
| ABuffers (resolution : Z)
| AData (d : BlockData)
| AName (name : String.string).

(** One call to a collaborator: the object, the method and the argument
    values. *)
Record Call : Type := mkCall {
  target : Collaborator;
  method : String.string;
  args : list Arg
}.

(** Modelled from the spec: the ring buffer class lives in a header that
    is not among the sources.  Section 3 gives its interface: a write
    head, fade-blended writes, a head-position query and the explicit
    resynchronization of the head to a stored position.  The head is an
    [int32_t].  A ring buffer keeps its samples in the memory it was
    initialized over, which is a part of one of the processor's two raw
    regions: [Init_bytes] and [WriteFade_bytes] give the bytes of that
    region after the call, from the arguments of the call, the ring buffer
    before it and the bytes of the region before it. *)
Class AudioBufferOps (AudioBuffer : Type) : Type := {
  head : AudioBuffer -> Z;
  Resync : Z -> AudioBuffer -> AudioBuffer;
  AudioBuffer_Init : Ptr -> Z -> Z -> AudioBuffer -> AudioBuffer;
  WriteFade : list float -> Z -> Z -> bool -> AudioBuffer -> AudioBuffer;
  Init_bytes : Ptr -> Z -> Z -> AudioBuffer -> list Z -> list Z;
  WriteFade_bytes : list float -> Z -> Z -> bool -> AudioBuffer -> list Z -> list Z;
  head_int32 : forall b, - 2 ^ 31 <= head b < 2 ^ 31;
  head_Resync : forall h b, - 2 ^ 31 <= h < 2 ^ 31 -> head (Resync h b) = h
}.

(** The declarations of [granular_processor.h] that the code uses and
    that are not among the sources, taken as parameters: the values of the
    [PlaybackMode] enumerators (a mode is held as its integer value, which
    is what [static_cast<PlaybackMode>] of a stored byte yields), three
    constants, the encoding of the channel count and of the low-fidelity
    flag into the quality code read by [quality()] and decoded by
    [set_quality()], and the sample rate as a function of the low-fidelity
    flag. *)
Class Header : Type := {
  PLAYBACK_MODE_GRANULAR : Z;
  PLAYBACK_MODE_STRETCH : Z;
  PLAYBACK_MODE_LOOPING_DELAY : Z;
  PLAYBACK_MODE_SPECTRAL : Z;
  PLAYBACK_MODE_SPECTRAL_CLOUD : Z;
  PLAYBACK_MODE_OLIVERB : Z;
  PLAYBACK_MODE_RESONESTOR : Z;
  PLAYBACK_MODE_KAMMERL : Z;
  PLAYBACK_MODE_LAST : Z;
  kDownsamplingFactor : Z;
  kMaxWSOLASize : Z;
  LUT_INV_TANH_SIZE : Z;
  quality_of : Z -> bool -> Z;
  quality_num_channels : Z -> Z;
  quality_low_fidelity : Z -> bool;
  sample_rate_of : bool -> float
}.

(** The pure helpers of stmlib and of the C++ library that the code calls,
    taken as parameters: [FourCC] on four character codes,
    [SemitonesToRatio], [SoftLimit], [SoftConvert], [Interpolate] on a
    lookup table given by its name, [abs], and the [k]-th value that
    [ParameterInterpolator::Next] returns for a given start value, target
    and block size. *)
Class Stmlib : Type := {
  FourCC : ascii -> ascii -> ascii -> ascii -> Z;
  SemitonesToRatio : float -> float;
  SoftLimit : float -> float;
  SoftConvert : float -> Z;
  Interpolate : String.string -> float -> float -> float;
  std_abs : float -> float;
  ParameterInterpolator_Next : float -> float -> Z -> nat -> float
}.

(** What the collaborators return: the audio a processing call produces
    (frame [k] of it, or sample [k] for a filter that runs on one
    channel), and the answer of a query, each a function of the log of
    calls made so far (the processing call included). *)
Class Collaborators : Type := {
  frames_reply : list Call -> nat -> FloatFrame.t;
  samples_reply : list Call -> nat -> float;
  query : list Call -> Collaborator -> String.string -> bool
}.

(** *** Macros of stmlib *)

(** Modelled from the spec: the one-pole smoother
    [ONE_POLE(out, in, coefficient)], which moves [out] towards [in]. *)
Definition ONE_POLE (out in_value coefficient : float) : float :=
  (out + coefficient * (in_value - out))%f32.

(** Modelled from the spec: the range clamp [CONSTRAIN(var, min, max)]. *)
Definition CONSTRAIN (var lo hi : float) : float :=
  if (var <? lo)%f32 then lo else if (var >? hi)%f32 then hi else var.

(** *** Small helpers for arrays *)

(** Element [i] of an array of two; the class keeps its indices in
    [{0, 1}]. *)
Definition at2 {A : Type} (i : Z) (p : A * A) : A :=
  if i =? 0 then fst p else snd p.

Definition set2 {A : Type} (i : Z) (v : A) (p : A * A) : A * A :=
  if i =? 0 then (v, snd p) else (fst p, v).

(** [std::copy(&src[0], &src[n], &dst[0])]. *)
Definition copy {A : Type} (src : list A) (n : Z) (dst : list A) : list A :=
  firstn (Z.to_nat n) src ++ skipn (Z.to_nat n) dst.

(** The first [n] elements of [dst] replaced by [f 0 .. f (n-1)]. *)
Definition fill {A : Type} (f : nat -> A) (n : Z) (dst : list A) : list A :=
  map f (seq 0 (Z.to_nat n)) ++ skipn (Z.to_nat n) dst.

(** A loop body applied to the first [n] elements of an array, in
    order. *)
Definition on_block {A : Type} (f : list A -> list A) (n : Z) (xs : list A) : list A :=
  f (firstn (Z.to_nat n) xs) ++ skipn (Z.to_nat n) xs.

Definition zero_frame : FloatFrame.t := FloatFrame.mk fzero fzero.

(** The samples of channel [i] of a block: [&frames[0].l + i] read with
    stride 2. *)
Definition channel (i : Z) (frames : list FloatFrame.t) : list float :=
  map (fun f => if i =? 0 then FloatFrame.l f else FloatFrame.r f) frames.

Definition set_channel (i : Z) (samples : nat -> float) (frames : list FloatFrame.t)
    : list FloatFrame.t :=
  map (fun kf : nat * FloatFrame.t =>
         let (k, f) := kf in
         if i =? 0 then FloatFrame.mk (samples k) (FloatFrame.r f)
         else FloatFrame.mk (FloatFrame.l f) (samples k))
      (combine (seq 0 (length frames)) frames).

Definition uint8 (n : Z) : Z := n mod 256.
Definition uint32 (n : Z) : Z := n mod 2 ^ 32.
Definition int32 (n : Z) : Z := (n + 2 ^ 31) mod 2 ^ 32 - 2 ^ 31.

(** Pointer arithmetic in bytes. *)
Definition ptr_add (p : Ptr) (n : Z) : Ptr :=
  match p with
  | NULL => NULL
  | At region offset => At region (offset + n)
  end.

(** Modelled from the spec: stmlib's [BufferAllocator] is not among the
    sources.  Section 3 describes it: allocation is append-only within one
    partitioning pass and never exceeds the region it was given. *)
Record BufferAllocator : Type := mkBufferAllocator {
  next_ : Ptr;
  free_ : Z
}.

Definition Allocate (sizeof_T n : Z) (a : BufferAllocator) : Ptr * BufferAllocator :=
  let size_bytes := sizeof_T * n in
  if size_bytes <=? free_ a
  then (next_ a, mkBufferAllocator (ptr_add (next_ a) size_bytes) (free_ a - size_bytes))
  else (NULL, a).

(** ** The processor

    Everything from here to the end of the section is stated for an
    arbitrary implementation of the ring buffer. *)

Section Processor.

Context {AudioBuffer : Type} {audio_buffer_ops : AudioBufferOps AudioBuffer}.

(** The members of [class GranularProcessor] that the modelled functions
    read or write.  [buffer_] holds the bytes of the two raw regions as
    the [memcpy] of [LoadPersistentData] and the ring buffers, whose
    samples live at the start of the regions, write them; the scratch
    memory that the effects and the spectral engines keep in the regions
    is theirs and is not followed.  The calls to the collaborators are
    recorded in [calls], oldest first. *)
Record GranularProcessor : Type := mkGranularProcessor {
  playback_mode_ : Z;
  previous_playback_mode_ : Z;
  num_channels_ : Z;
  low_fidelity_ : bool;
  bypass_ : bool;
  silence_ : bool;
  reset_buffers_ : bool;
  mute_in_ : bool;
  mute_out_ : bool;
  reverb_dry_signal_ : bool;
  mute_in_fade_ : float;
  mute_out_fade_ : float;
  freeze_lp_ : float;
  dry_wet_ : float;
  in_ : list FloatFrame.t;
  in_downsampled_ : list FloatFrame.t;
  out_ : list FloatFrame.t;
  out_downsampled_ : list FloatFrame.t;
  fb_ : list FloatFrame.t;
  parameters_ : Parameters.t;
  persistent_state_ : PersistentState.t;
  buffer_ : list Z * list Z;
  buffer_size_ : Z * Z;
  buffer_8_ : AudioBuffer * AudioBuffer;
  buffer_16_ : AudioBuffer * AudioBuffer;
  calls : list Call
}.

(** Assignments to one member. *)
Definition set_playback_mode_ (v : Z) (s : GranularProcessor) : GranularProcessor :=
    mkGranularProcessor v (previous_playback_mode_ s) (num_channels_ s)
      (low_fidelity_ s) (bypass_ s) (silence_ s) (reset_buffers_ s)
      (mute_in_ s) (mute_out_ s) (reverb_dry_signal_ s) (mute_in_fade_ s)
      (mute_out_fade_ s) (freeze_lp_ s) (dry_wet_ s) (in_ s)
      (in_downsampled_ s) (out_ s) (out_downsampled_ s) (fb_ s)
      (parameters_ s) (persistent_state_ s) (buffer_ s) (buffer_size_ s)
      (buffer_8_ s) (buffer_16_ s) (calls s).
Definition set_previous_playback_mode_ (v : Z) (s : GranularProcessor) : GranularProcessor :=
    mkGranularProcessor (playback_mode_ s) v (num_channels_ s)
      (low_fidelity_ s) (bypass_ s) (silence_ s) (reset_buffers_ s)
      (mute_in_ s) (mute_out_ s) (reverb_dry_signal_ s) (mute_in_fade_ s)
      (mute_out_fade_ s) (freeze_lp_ s) (dry_wet_ s) (in_ s)
      (in_downsampled_ s) (out_ s) (out_downsampled_ s) (fb_ s)
      (parameters_ s) (persistent_state_ s) (buffer_ s) (buffer_size_ s)
      (buffer_8_ s) (buffer_16_ s) (calls s).
Definition set_num_channels_ (v : Z) (s : GranularProcessor) : GranularProcessor :=
    mkGranularProcessor (playback_mode_ s) (previous_playback_mode_ s) v
      (low_fidelity_ s) (bypass_ s) (silence_ s) (reset_buffers_ s)
      (mute_in_ s) (mute_out_ s) (reverb_dry_signal_ s) (mute_in_fade_ s)
      (mute_out_fade_ s) (freeze_lp_ s) (dry_wet_ s) (in_ s)
      (in_downsampled_ s) (out_ s) (out_downsampled_ s) (fb_ s)
      (parameters_ s) (persistent_state_ s) (buffer_ s) (buffer_size_ s)
      (buffer_8_ s) (buffer_16_ s) (calls s).
Definition set_low_fidelity_ (v : bool) (s : GranularProcessor) : GranularProcessor :=
    mkGranularProcessor (playback_mode_ s) (previous_playback_mode_ s)
      (num_channels_ s) v (bypass_ s) (silence_ s) (reset_buffers_ s)
      (mute_in_ s) (mute_out_ s) (reverb_dry_signal_ s) (mute_in_fade_ s)
      (mute_out_fade_ s) (freeze_lp_ s) (dry_wet_ s) (in_ s)
      (in_downsampled_ s) (out_ s) (out_downsampled_ s) (fb_ s)
      (parameters_ s) (persistent_state_ s) (buffer_ s) (buffer_size_ s)
      (buffer_8_ s) (buffer_16_ s) (calls s).
Definition set_bypass_ (v : bool) (s : GranularProcessor) : GranularProcessor :=
    mkGranularProcessor (playback_mode_ s) (previous_playback_mode_ s)
      (num_channels_ s) (low_fidelity_ s) v (silence_ s) (reset_buffers_ s)
      (mute_in_ s) (mute_out_ s) (reverb_dry_signal_ s) (mute_in_fade_ s)
      (mute_out_fade_ s) (freeze_lp_ s) (dry_wet_ s) (in_ s)
      (in_downsampled_ s) (out_ s) (out_downsampled_ s) (fb_ s)
      (parameters_ s) (persistent_state_ s) (buffer_ s) (buffer_size_ s)
      (buffer_8_ s) (buffer_16_ s) (calls s).
Definition set_silence_ (v : bool) (s : GranularProcessor) : GranularProcessor :=
    mkGranularProcessor (playback_mode_ s) (previous_playback_mode_ s)
      (num_channels_ s) (low_fidelity_ s) (bypass_ s) v (reset_buffers_ s)
      (mute_in_ s) (mute_out_ s) (reverb_dry_signal_ s) (mute_in_fade_ s)
      (mute_out_fade_ s) (freeze_lp_ s) (dry_wet_ s) (in_ s)
      (in_downsampled_ s) (out_ s) (out_downsampled_ s) (fb_ s)
      (parameters_ s) (persistent_state_ s) (buffer_ s) (buffer_size_ s)
      (buffer_8_ s) (buffer_16_ s) (calls s).
Definition set_reset_buffers_ (v : bool) (s : GranularProcessor) : GranularProcessor :=
    mkGranularProcessor (playback_mode_ s) (previous_playback_mode_ s)
      (num_channels_ s) (low_fidelity_ s) (bypass_ s) (silence_ s) v
      (mute_in_ s) (mute_out_ s) (reverb_dry_signal_ s) (mute_in_fade_ s)
      (mute_out_fade_ s) (freeze_lp_ s) (dry_wet_ s) (in_ s)
      (in_downsampled_ s) (out_ s) (out_downsampled_ s) (fb_ s)
      (parameters_ s) (persistent_state_ s) (buffer_ s) (buffer_size_ s)
      (buffer_8_ s) (buffer_16_ s) (calls s).
Definition set_mute_in_fade_ (v : float) (s : GranularProcessor) : GranularProcessor :=
    mkGranularProcessor (playback_mode_ s) (previous_playback_mode_ s)
      (num_channels_ s) (low_fidelity_ s) (bypass_ s) (silence_ s)
      (reset_buffers_ s) (mute_in_ s) (mute_out_ s) (reverb_dry_signal_ s) v
      (mute_out_fade_ s) (freeze_lp_ s) (dry_wet_ s) (in_ s)
      (in_downsampled_ s) (out_ s) (out_downsampled_ s) (fb_ s)
      (parameters_ s) (persistent_state_ s) (buffer_ s) (buffer_size_ s)
      (buffer_8_ s) (buffer_16_ s) (calls s).
Definition set_mute_out_fade_ (v : float) (s : GranularProcessor) : GranularProcessor :=
    mkGranularProcessor (playback_mode_ s) (previous_playback_mode_ s)
      (num_channels_ s) (low_fidelity_ s) (bypass_ s) (silence_ s)
      (reset_buffers_ s) (mute_in_ s) (mute_out_ s) (reverb_dry_signal_ s)
      (mute_in_fade_ s) v (freeze_lp_ s) (dry_wet_ s) (in_ s)
      (in_downsampled_ s) (out_ s) (out_downsampled_ s) (fb_ s)
      (parameters_ s) (persistent_state_ s) (buffer_ s) (buffer_size_ s)
      (buffer_8_ s) (buffer_16_ s) (calls s).
Definition set_freeze_lp_ (v : float) (s : GranularProcessor) : GranularProcessor :=
    mkGranularProcessor (playback_mode_ s) (previous_playback_mode_ s)
      (num_channels_ s) (low_fidelity_ s) (bypass_ s) (silence_ s)
      (reset_buffers_ s) (mute_in_ s) (mute_out_ s) (reverb_dry_signal_ s)
      (mute_in_fade_ s) (mute_out_fade_ s) v (dry_wet_ s) (in_ s)
      (in_downsampled_ s) (out_ s) (out_downsampled_ s) (fb_ s)
      (parameters_ s) (persistent_state_ s) (buffer_ s) (buffer_size_ s)
      (buffer_8_ s) (buffer_16_ s) (calls s).
Definition set_dry_wet_ (v : float) (s : GranularProcessor) : GranularProcessor :=
    mkGranularProcessor (playback_mode_ s) (previous_playback_mode_ s)
      (num_channels_ s) (low_fidelity_ s) (bypass_ s) (silence_ s)
      (reset_buffers_ s) (mute_in_ s) (mute_out_ s) (reverb_dry_signal_ s)
      (mute_in_fade_ s) (mute_out_fade_ s) (freeze_lp_ s) v (in_ s)
      (in_downsampled_ s) (out_ s) (out_downsampled_ s) (fb_ s)
      (parameters_ s) (persistent_state_ s) (buffer_ s) (buffer_size_ s)
      (buffer_8_ s) (buffer_16_ s) (calls s).
Definition set_in_ (v : list FloatFrame.t) (s : GranularProcessor) : GranularProcessor :=
    mkGranularProcessor (playback_mode_ s) (previous_playback_mode_ s)
      (num_channels_ s) (low_fidelity_ s) (bypass_ s) (silence_ s)
      (reset_buffers_ s) (mute_in_ s) (mute_out_ s) (reverb_dry_signal_ s)
      (mute_in_fade_ s) (mute_out_fade_ s) (freeze_lp_ s) (dry_wet_ s) v
      (in_downsampled_ s) (out_ s) (out_downsampled_ s) (fb_ s)
      (parameters_ s) (persistent_state_ s) (buffer_ s) (buffer_size_ s)
      (buffer_8_ s) (buffer_16_ s) (calls s).
Definition set_in_downsampled_ (v : list FloatFrame.t) (s : GranularProcessor) : GranularProcessor :=
    mkGranularProcessor (playback_mode_ s) (previous_playback_mode_ s)
      (num_channels_ s) (low_fidelity_ s) (bypass_ s) (silence_ s)
      (reset_buffers_ s) (mute_in_ s) (mute_out_ s) (reverb_dry_signal_ s)
      (mute_in_fade_ s) (mute_out_fade_ s) (freeze_lp_ s) (dry_wet_ s) (in_ s)
      v (out_ s) (out_downsampled_ s) (fb_ s) (parameters_ s)
      (persistent_state_ s) (buffer_ s) (buffer_size_ s) (buffer_8_ s)
      (buffer_16_ s) (calls s).
Definition set_out_ (v : list FloatFrame.t) (s : GranularProcessor) : GranularProcessor :=
    mkGranularProcessor (playback_mode_ s) (previous_playback_mode_ s)
      (num_channels_ s) (low_fidelity_ s) (bypass_ s) (silence_ s)
      (reset_buffers_ s) (mute_in_ s) (mute_out_ s) (reverb_dry_signal_ s)
      (mute_in_fade_ s) (mute_out_fade_ s) (freeze_lp_ s) (dry_wet_ s) (in_ s)
      (in_downsampled_ s) v (out_downsampled_ s) (fb_ s) (parameters_ s)
      (persistent_state_ s) (buffer_ s) (buffer_size_ s) (buffer_8_ s)
      (buffer_16_ s) (calls s).
Definition set_out_downsampled_ (v : list FloatFrame.t) (s : GranularProcessor) : GranularProcessor :=
    mkGranularProcessor (playback_mode_ s) (previous_playback_mode_ s)
      (num_channels_ s) (low_fidelity_ s) (bypass_ s) (silence_ s)
      (reset_buffers_ s) (mute_in_ s) (mute_out_ s) (reverb_dry_signal_ s)
      (mute_in_fade_ s) (mute_out_fade_ s) (freeze_lp_ s) (dry_wet_ s) (in_ s)
      (in_downsampled_ s) (out_ s) v (fb_ s) (parameters_ s)
      (persistent_state_ s) (buffer_ s) (buffer_size_ s) (buffer_8_ s)
      (buffer_16_ s) (calls s).
Definition set_fb_ (v : list FloatFrame.t) (s : GranularProcessor) : GranularProcessor :=
    mkGranularProcessor (playback_mode_ s) (previous_playback_mode_ s)
      (num_channels_ s) (low_fidelity_ s) (bypass_ s) (silence_ s)
      (reset_buffers_ s) (mute_in_ s) (mute_out_ s) (reverb_dry_signal_ s)
      (mute_in_fade_ s) (mute_out_fade_ s) (freeze_lp_ s) (dry_wet_ s) (in_ s)
      (in_downsampled_ s) (out_ s) (out_downsampled_ s) v (parameters_ s)
      (persistent_state_ s) (buffer_ s) (buffer_size_ s) (buffer_8_ s)
      (buffer_16_ s) (calls s).
Definition set_parameters_ (v : Parameters.t) (s : GranularProcessor) : GranularProcessor :=
    mkGranularProcessor (playback_mode_ s) (previous_playback_mode_ s)
      (num_channels_ s) (low_fidelity_ s) (bypass_ s) (silence_ s)
      (reset_buffers_ s) (mute_in_ s) (mute_out_ s) (reverb_dry_signal_ s)
      (mute_in_fade_ s) (mute_out_fade_ s) (freeze_lp_ s) (dry_wet_ s) (in_ s)
      (in_downsampled_ s) (out_ s) (out_downsampled_ s) (fb_ s) v
      (persistent_state_ s) (buffer_ s) (buffer_size_ s) (buffer_8_ s)
      (buffer_16_ s) (calls s).
Definition set_persistent_state_ (v : PersistentState.t) (s : GranularProcessor) : GranularProcessor :=
    mkGranularProcessor (playback_mode_ s) (previous_playback_mode_ s)
      (num_channels_ s) (low_fidelity_ s) (bypass_ s) (silence_ s)
      (reset_buffers_ s) (mute_in_ s) (mute_out_ s) (reverb_dry_signal_ s)
      (mute_in_fade_ s) (mute_out_fade_ s) (freeze_lp_ s) (dry_wet_ s) (in_ s)
      (in_downsampled_ s) (out_ s) (out_downsampled_ s) (fb_ s)
      (parameters_ s) v (buffer_ s) (buffer_size_ s) (buffer_8_ s)
      (buffer_16_ s) (calls s).
Definition set_buffer_ (v : list Z * list Z) (s : GranularProcessor) : GranularProcessor :=
    mkGranularProcessor (playback_mode_ s) (previous_playback_mode_ s)
      (num_channels_ s) (low_fidelity_ s) (bypass_ s) (silence_ s)
      (reset_buffers_ s) (mute_in_ s) (mute_out_ s) (reverb_dry_signal_ s)
      (mute_in_fade_ s) (mute_out_fade_ s) (freeze_lp_ s) (dry_wet_ s) (in_ s)
      (in_downsampled_ s) (out_ s) (out_downsampled_ s) (fb_ s)
      (parameters_ s) (persistent_state_ s) v (buffer_size_ s) (buffer_8_ s)
      (buffer_16_ s) (calls s).
Definition set_buffer_8_ (v : AudioBuffer * AudioBuffer) (s : GranularProcessor) : GranularProcessor :=
    mkGranularProcessor (playback_mode_ s) (previous_playback_mode_ s)
      (num_channels_ s) (low_fidelity_ s) (bypass_ s) (silence_ s)
      (reset_buffers_ s) (mute_in_ s) (mute_out_ s) (reverb_dry_signal_ s)
      (mute_in_fade_ s) (mute_out_fade_ s) (freeze_lp_ s) (dry_wet_ s) (in_ s)
      (in_downsampled_ s) (out_ s) (out_downsampled_ s) (fb_ s)
      (parameters_ s) (persistent_state_ s) (buffer_ s) (buffer_size_ s) v
      (buffer_16_ s) (calls s).
Definition set_buffer_16_ (v : AudioBuffer * AudioBuffer) (s : GranularProcessor) : GranularProcessor :=
    mkGranularProcessor (playback_mode_ s) (previous_playback_mode_ s)
      (num_channels_ s) (low_fidelity_ s) (bypass_ s) (silence_ s)
      (reset_buffers_ s) (mute_in_ s) (mute_out_ s) (reverb_dry_signal_ s)
      (mute_in_fade_ s) (mute_out_fade_ s) (freeze_lp_ s) (dry_wet_ s) (in_ s)
      (in_downsampled_ s) (out_ s) (out_downsampled_ s) (fb_ s)
      (parameters_ s) (persistent_state_ s) (buffer_ s) (buffer_size_ s)
      (buffer_8_ s) v (calls s).
Definition set_calls (v : list Call) (s : GranularProcessor) : GranularProcessor :=
    mkGranularProcessor (playback_mode_ s) (previous_playback_mode_ s)
      (num_channels_ s) (low_fidelity_ s) (bypass_ s) (silence_ s)
      (reset_buffers_ s) (mute_in_ s) (mute_out_ s) (reverb_dry_signal_ s)
      (mute_in_fade_ s) (mute_out_fade_ s) (freeze_lp_ s) (dry_wet_ s) (in_ s)
      (in_downsampled_ s) (out_ s) (out_downsampled_ s) (fb_ s)
      (parameters_ s) (persistent_state_ s) (buffer_ s) (buffer_size_ s)
      (buffer_8_ s) (buffer_16_ s) v.

Context {header : Header} {stmlib : Stmlib} {collaborators : Collaborators}.

(** *** State passing *)

Definition M (A : Type) : Type := GranularProcessor -> A * GranularProcessor.

Definition ret {A : Type} (x : A) : M A := fun s => (x, s).

Definition bind {A B : Type} (c : M A) (k : A -> M B) : M B :=
  fun s => let (x, s') := c s in k x s'.

Definition get : M GranularProcessor := fun s => (s, s).

Definition modify (f : GranularProcessor -> GranularProcessor) : M unit :=
  fun s => (tt, f s).

Definition exec {A : Type} (c : M A) (s : GranularProcessor) : GranularProcessor :=
  snd (c s).

Notation "x <- c1 ;; c2" := (bind c1 (fun x => c2))
  (at level 61, c1 at next level, right associativity).
Notation "c1 ;; c2" := (bind c1 (fun _ => c2))
  (at level 61, right associativity).

Definition when (b : bool) (c : M unit) : M unit := if b then c else ret tt.

Fixpoint for_each {A : Type} (xs : list A) (body : A -> M unit) : M unit :=
  match xs with
  | [] => ret tt
  | x :: rest => body x ;; for_each rest body
  end.

(** A call that returns nothing, one that produces frames, one that
    produces the samples of one channel, and a query. *)
Definition call (c : Collaborator) (m : String.string) (a : list Arg) : M unit :=
  modify (fun s => set_calls (calls s ++ [mkCall c m a]) s).

Definition call_frames (c : Collaborator) (m : String.string) (a : list Arg)
    : M (nat -> FloatFrame.t) :=
  fun s => let log := calls s ++ [mkCall c m a] in (frames_reply log, set_calls log s).

Definition call_samples (c : Collaborator) (m : String.string) (a : list Arg)
    : M (nat -> float) :=
  fun s => let log := calls s ++ [mkCall c m a] in (samples_reply log, set_calls log s).

Definition ask (c : Collaborator) (m : String.string) : M bool :=
  fun s => (query (calls s) c m, s).

(** The channels [0 .. num_channels_ - 1], as the loops
    [for (i = 0; i < num_channels_; ++i)] visit them. *)
Definition channels (s : GranularProcessor) : list Z :=
  map Z.of_nat (seq 0 (Z.to_nat (num_channels_ s))).

(** *** Inline members of the header *)

(** Modelled from the spec: the inline accessors of the class are in the
    header.  The resolution is 8 bits exactly when the low-fidelity flag
    is set (the persistence code below selects [buffer_8_] on that flag);
    the quality code packs the channel count and that flag; changing
    either raises the reset-buffers flag, which is what makes [Prepare]
    re-partition the workspace (section 4.2). *)
Definition resolution (s : GranularProcessor) : Z :=
  if low_fidelity_ s then 8 else 16.

Definition sample_rate (s : GranularProcessor) : float :=
  sample_rate_of (low_fidelity_ s).

Definition quality (s : GranularProcessor) : Z :=
  quality_of (num_channels_ s) (low_fidelity_ s).

Definition set_playback_mode (playback_mode : Z) (s : GranularProcessor)
    : GranularProcessor :=
  set_playback_mode_ playback_mode s.

Definition set_num_channels (num_channels : Z) (s : GranularProcessor)
    : GranularProcessor :=
  set_num_channels_ num_channels
    (set_reset_buffers_
       (reset_buffers_ s || negb (num_channels_ s =? num_channels)) s).

Definition set_low_fidelity (low_fidelity : bool) (s : GranularProcessor)
    : GranularProcessor :=
  set_low_fidelity_ low_fidelity
    (set_reset_buffers_
       (reset_buffers_ s || negb (Bool.eqb low_fidelity (low_fidelity_ s))) s).

Definition set_bypass (bypass : bool) (s : GranularProcessor) : GranularProcessor :=
  set_bypass_ bypass s.

Definition set_quality (q : Z) (s : GranularProcessor) : GranularProcessor :=
  set_low_fidelity (quality_low_fidelity q)
    (set_num_channels (quality_num_channels q) s).

(** *** [ResetFilters] *)

Definition ResetFilters : M unit :=
  for_each [0; 1]
    (fun i =>
       call (fb_filter_ i) "Init" [] ;;
       call (lp_filter_ i) "Init" [] ;;
       call (hp_filter_ i) "Init" []).

(** *** [Init] *)

(** [Init(large_buffer, large_buffer_size, small_buffer,
    small_buffer_size)]: the two regions are given by their bytes and
    their sizes.  The members the function does not assign (the playback
    mode and the silence flag among them) keep the value they have. *)
Definition Init (large_buffer : list Z) (large_buffer_size : Z)
    (small_buffer : list Z) (small_buffer_size : Z) : M unit :=
  modify (fun s =>
            mkGranularProcessor (playback_mode_ s) (previous_playback_mode_ s)
              2 false false (silence_ s) (reset_buffers_ s)
              (mute_in_ s) (mute_out_ s) (reverb_dry_signal_ s) (mute_in_fade_ s)
              (mute_out_fade_ s) (freeze_lp_ s) (dry_wet_ s) (in_ s)
              (in_downsampled_ s) (out_ s) (out_downsampled_ s) (fb_ s)
              (parameters_ s) (persistent_state_ s)
              (large_buffer, small_buffer) (large_buffer_size, small_buffer_size)
              (buffer_8_ s) (buffer_16_ s) (calls s)) ;;
  call src_down_ "Init" [] ;;
  call src_up_ "Init" [] ;;
  call phase_vocoder_ "Init" [] ;;
  ResetFilters ;;
  modify (fun s =>
            mkGranularProcessor (playback_mode_ s) PLAYBACK_MODE_LAST
              (num_channels_ s) (low_fidelity_ s) (bypass_ s) (silence_ s) true
              false false true fzero
              fzero (freeze_lp_ s) fzero (in_ s)
              (in_downsampled_ s) (out_ s) (out_downsampled_ s) (fb_ s)
              (parameters_ s) (persistent_state_ s) (buffer_ s) (buffer_size_ s)
              (buffer_8_ s) (buffer_16_ s) (calls s)).

(** *** [Prepare] *)

Definition benign_change (s : GranularProcessor) : bool :=
  negb (playback_mode_ s =? PLAYBACK_MODE_SPECTRAL)
  && negb (previous_playback_mode_ s =? PLAYBACK_MODE_SPECTRAL)
  && negb (playback_mode_ s =? PLAYBACK_MODE_SPECTRAL_CLOUD)
  && negb (previous_playback_mode_ s =? PLAYBACK_MODE_SPECTRAL_CLOUD)
  && negb (playback_mode_ s =? PLAYBACK_MODE_RESONESTOR)
  && negb (previous_playback_mode_ s =? PLAYBACK_MODE_RESONESTOR)
  && negb (playback_mode_ s =? PLAYBACK_MODE_OLIVERB)
  && negb (previous_playback_mode_ s =? PLAYBACK_MODE_OLIVERB)
  && negb (previous_playback_mode_ s =? PLAYBACK_MODE_LAST).

Definition playback_mode_changed (s : GranularProcessor) : bool :=
  negb (previous_playback_mode_ s =? playback_mode_ s).

(** The locals [buffer], [buffer_size], [workspace] and [workspace_size]
    of the partitioning block. *)
Record Partition : Type := mkPartition {
  buffer : Ptr * Ptr;
  buffer_size : Z * Z;
  workspace : Ptr;
  workspace_size : Z
}.

Definition partition (s : GranularProcessor) : Partition :=
  if num_channels_ s =? 1 then
    mkPartition (At 0 0, NULL) (fst (buffer_size_ s), 0)
                (At 1 0) (snd (buffer_size_ s))
  else
    mkPartition (At 0 0, At 1 0) (snd (buffer_size_ s), snd (buffer_size_ s))
                (At 0 (snd (buffer_size_ s)))
                (uint32 (fst (buffer_size_ s) - snd (buffer_size_ s))).

(** The bytes of the region that [p] points into, rewritten by [f]. *)
Definition on_region (p : Ptr) (f : list Z -> list Z) (regions : list Z * list Z)
    : list Z * list Z :=
  match p with
  | NULL => regions
  | At region _ => set2 region (f (at2 region regions)) regions
  end.

(** [buffer_8_[i].Init(...)] or [buffer_16_[i].Init(...)] for channel
    [i], on the resolution of [s]: the ring buffer takes over the memory
    at [buffer[i]]. *)
Definition init_ring_buffer (pt : Partition) (i : Z) : M unit :=
  s <- get ;;
  if resolution s =? 8 then
    modify (fun s =>
              set_buffer_
                (on_region (at2 i (buffer pt))
                   (Init_bytes (at2 i (buffer pt)) (at2 i (buffer_size pt)) i
                      (at2 i (buffer_8_ s)))
                   (buffer_ s))
                (set_buffer_8_
                   (set2 i (AudioBuffer_Init (at2 i (buffer pt)) (at2 i (buffer_size pt)) i
                              (at2 i (buffer_8_ s)))
                         (buffer_8_ s)) s)) ;;
    call (ring_buffer 8 i) "Init"
         [APtr (at2 i (buffer pt)); AZ (at2 i (buffer_size pt)); AName "tail_buffer_"; AZ i]
  else
    modify (fun s =>
              set_buffer_
                (on_region (at2 i (buffer pt))
                   (Init_bytes (at2 i (buffer pt)) (Z.shiftr (at2 i (buffer_size pt)) 1) i
                      (at2 i (buffer_16_ s)))
                   (buffer_ s))
                (set_buffer_16_
                   (set2 i (AudioBuffer_Init (at2 i (buffer pt))
                              (Z.shiftr (at2 i (buffer_size pt)) 1) i
                              (at2 i (buffer_16_ s)))
                         (buffer_16_ s)) s)) ;;
    call (ring_buffer 16 i) "Init"
         [APtr (at2 i (buffer pt)); AZ (Z.shiftr (at2 i (buffer_size pt)) 1);
          AName "tail_buffer_"; AZ i].

(** The first half of the partitioning block: the workspace is handed
    out, from its start, to the diffuser, the reverb, the correlator and
    the pitch shifter (which shares the correlator's memory). *)
Definition allocate_workspace (pt : Partition) : M unit :=
  s <- get ;;
  let allocator := mkBufferAllocator (workspace pt) (workspace_size pt) in
  let (diffuser_buffer, allocator) := Allocate 4 2048 allocator in
  call diffuser_ "Init" [APtr diffuser_buffer] ;;
  let (reverb_buffer, allocator) := Allocate 2 16384 allocator in
  (if playback_mode_ s =? PLAYBACK_MODE_OLIVERB
   then call oliverb_ "Init" [APtr reverb_buffer]
   else call reverb_ "Init" [APtr reverb_buffer]) ;;
  let correlator_block_size := Z.quot kMaxWSOLASize 32 + 2 in
  let (correlator_data, allocator) := Allocate 4 (correlator_block_size * 3) allocator in
  call correlator_ "Init"
       [APtr correlator_data; APtr (ptr_add correlator_data (4 * correlator_block_size))] ;;
  call pitch_shifter_ "Init" [APtr correlator_data].

(** The second half: the engines of the mode are initialized over the
    sample memory. *)
Definition init_engines (pt : Partition) : M unit :=
  s <- get ;;
  let sr := sample_rate s in
  if playback_mode_ s =? PLAYBACK_MODE_SPECTRAL then
    call phase_vocoder_ "Init"
         [AName "TRANSFORMATION_TYPE_FRAME";
          APtr (fst (buffer pt)); APtr (snd (buffer pt));
          AZ (fst (buffer_size pt)); AZ (snd (buffer_size pt));
          AName "lut_sine_window_4096"; AZ 4096;
          AZ (num_channels_ s); AZ (resolution s); AF sr]
  else if playback_mode_ s =? PLAYBACK_MODE_SPECTRAL_CLOUD then
    call phase_vocoder_ "Init"
         [AName "TRANSFORMATION_TYPE_SPECTRAL_CLOUD";
          APtr (fst (buffer pt)); APtr (snd (buffer pt));
          AZ (fst (buffer_size pt)); AZ (snd (buffer_size pt));
          AName "lut_sine_window_4096"; AZ 4096;
          AZ (num_channels_ s); AZ (resolution s); AF sr]
  else if playback_mode_ s =? PLAYBACK_MODE_RESONESTOR then
    call resonestor_ "Init" [APtr (fst (buffer pt))]
  else
    for_each (channels s) (init_ring_buffer pt) ;;
    let num_grains :=
      Z.shiftr ((if num_channels_ s =? 1 then 40 else 32)
                * (if low_fidelity_ s then 23 else 16)) 4 in
    call player_ "Init" [AZ (num_channels_ s); AZ num_grains] ;;
    call ws_player_ "Init" [AName "correlator_"; AZ (num_channels_ s)] ;;
    call looper_ "Init" [AZ (num_channels_ s)] ;;
    call kammerl_ "Init" [AZ (num_channels_ s)].

(** The body of [if (reset_buffers_ || (playback_mode_changed &&
    !benign_change))]. *)
Definition repartition : M unit :=
  s <- get ;;
  let pt := partition s in
  allocate_workspace pt ;;
  init_engines pt ;;
  modify (set_reset_buffers_ false) ;;
  modify (set_previous_playback_mode_ (playback_mode_ s)).

(** The last block of [Prepare], run on every call. *)
Definition prime : M unit :=
  s <- get ;;
  if (playback_mode_ s =? PLAYBACK_MODE_SPECTRAL)
     || (playback_mode_ s =? PLAYBACK_MODE_SPECTRAL_CLOUD) then
    call phase_vocoder_ "Buffer" []
  else if (playback_mode_ s =? PLAYBACK_MODE_STRETCH)
          || (playback_mode_ s =? PLAYBACK_MODE_OLIVERB) then
    (if resolution s =? 8
     then call ws_player_ "LoadCorrelator" [ABuffers 8]
     else call ws_player_ "LoadCorrelator" [ABuffers 16]) ;;
    call correlator_ "EvaluateSomeCandidates" []
  else ret tt.

Definition Prepare : M unit :=
  s <- get ;;
  let playback_mode_changed := playback_mode_changed s in
  let benign_change := benign_change s in
  when (negb (reset_buffers_ s) && playback_mode_changed && benign_change)
       (ResetFilters ;;
        call pitch_shifter_ "Clear" [] ;;
        modify (set_previous_playback_mode_ (playback_mode_ s))) ;;
  when ((playback_mode_changed && negb benign_change) || reset_buffers_ s)
       (modify (fun s => set_parameters_ (Parameters.set_freeze false (parameters_ s)) s)) ;;
  when (reset_buffers_ s || (playback_mode_changed && negb benign_change))
       repartition ;;
  prime.

(** *** The persistence protocol *)

(** The ring buffers in use: [low_fidelity_ ? buffer_8_ : buffer_16_]. *)
Definition active_buffers (s : GranularProcessor) : AudioBuffer * AudioBuffer :=
  if low_fidelity_ s then buffer_8_ s else buffer_16_ s.

Definition is_spectral (mode : Z) : bool :=
  (mode =? PLAYBACK_MODE_SPECTRAL) || (mode =? PLAYBACK_MODE_SPECTRAL_CLOUD).

Definition PreparePersistentData (s : GranularProcessor) : GranularProcessor :=
  set_persistent_state_
    (PersistentState.mk
       (head (at2 0 (active_buffers s)), head (at2 1 (active_buffers s)))
       (uint8 (quality s))
       (if is_spectral (playback_mode_ s) then uint8 (playback_mode_ s) else 0))
    s.

(** The blocks [GetPersistentData] writes to [block], in order: the state
    block, then one block per channel; their number is [*num_blocks]. *)
Definition state_block : PersistentBlock.t :=
  PersistentBlock.mk (FourCC "S" "t" "a" "t") StateData PersistentState.sizeof.

Definition buffer_blocks (s : GranularProcessor) : list PersistentBlock.t :=
  map (fun i =>
         PersistentBlock.mk (FourCC "b" "u" "f" "f") (BufferData i)
           (at2 (num_channels_ s - 1) (buffer_size_ s)))
      (channels s).

Definition GetPersistentData (s : GranularProcessor) : list PersistentBlock.t :=
  state_block :: buffer_blocks s.

(** Word [k] of the stream [data] points to; reading past the words that
    were supplied yields 0. *)
Definition word (data : list Z) (k : Z) : Z := nth (Z.to_nat k) data 0.

(** Byte [j] of the memory that starts at word [off] (little endian). *)
Definition byte_at (data : list Z) (off : Z) (j : Z) : Z :=
  (word data (off + j / 4) / 2 ^ (8 * (j mod 4))) mod 256.

(** [memcpy(region, data + off, n)]. *)
Definition memcpy_bytes (data : list Z) (off n : Z) (region : list Z) : list Z :=
  fill (fun j => byte_at data off (Z.of_nat j)) n region.

(** [memcpy(&persistent_state_, data + off, sizeof(PersistentState))]. *)
Definition memcpy_state (data : list Z) (off : Z) : PersistentState.t :=
  PersistentState.mk
    (int32 (word data off), int32 (word data (off + 1)))
    (byte_at data off 8)
    (byte_at data off 9).

(** The format check of one iteration: [block[i].tag != data[0] ||
    block[i].size != data[1]] is false. *)
Definition format_ok (b : PersistentBlock.t) (data : list Z) (off : Z) : bool :=
  (PersistentBlock.tag b =? word data off)
  && (PersistentBlock.size b =? word data (off + 1)).

(** [memcpy(block[i].data, data, block[i].size)], [data] being already
    past the tag and the size. *)
Definition copy_block (b : PersistentBlock.t) (data : list Z) (off : Z) : M unit :=
  modify (fun s =>
            match PersistentBlock.data b with
            | StateData => set_persistent_state_ (memcpy_state data off) s
            | BufferData i =>
                set_buffer_
                  (set2 i (memcpy_bytes data off (PersistentBlock.size b) (at2 i (buffer_ s)))
                        (buffer_ s)) s
            end) ;;
  call libc "memcpy" [AData (PersistentBlock.data b); AZ off; AZ (PersistentBlock.size b)].

(** The position of [data] after one block: two words for the tag and the
    size, then [size / sizeof(uint32_t)] words. *)
Definition next_block (b : PersistentBlock.t) (off : Z) : Z :=
  off + 2 + Z.quot (PersistentBlock.size b) 4.

Definition currently_spectral (s : GranularProcessor) : Z :=
  if is_spectral (playback_mode_ s) then uint8 (playback_mode_ s) else 0.

(** The body of [if (i == 0)], up to and including [Prepare()]. *)
Definition after_state_block : M unit :=
  s <- get ;;
  let requires_spectral := PersistentState.spectral (persistent_state_ s) in
  when (negb (Z.lxor (currently_spectral s) requires_spectral =? 0))
       (modify (set_playback_mode
                  (if negb (requires_spectral =? 0)
                   then requires_spectral
                   else PLAYBACK_MODE_GRANULAR))) ;;
  modify (set_quality (PersistentState.quality (persistent_state_ s))) ;;
  Prepare.

(** What follows the loop: the write heads are reset, freeze is engaged,
    silence is released. *)
Definition finish_load : M bool :=
  s <- get ;;
  let write_head := PersistentState.write_head (persistent_state_ s) in
  (if low_fidelity_ s then
     modify (set_buffer_8_ (Resync (fst write_head) (fst (buffer_8_ s)),
                            Resync (snd write_head) (snd (buffer_8_ s)))) ;;
     call (ring_buffer 8 0) "Resync" [AZ (fst write_head)] ;;
     call (ring_buffer 8 1) "Resync" [AZ (snd write_head)]
   else
     modify (set_buffer_16_ (Resync (fst write_head) (fst (buffer_16_ s)),
                             Resync (snd write_head) (snd (buffer_16_ s)))) ;;
     call (ring_buffer 16 0) "Resync" [AZ (fst write_head)] ;;
     call (ring_buffer 16 1) "Resync" [AZ (snd write_head)]) ;;
  modify (fun s => set_parameters_ (Parameters.set_freeze true (parameters_ s)) s) ;;
  modify (set_silence_ false) ;;
  ret true.

(** The iterations [i >= 1] of the loop, over the blocks that remain. *)
Fixpoint load_blocks (block : list PersistentBlock.t) (data : list Z) (off : Z)
    : M bool :=
  match block with
  | [] => finish_load
  | b :: rest =>
      if format_ok b data off then
        copy_block b data (off + 2) ;;
        load_blocks rest data (next_block b off)
      else
        modify (set_silence_ false) ;; ret false
  end.

(** [LoadPersistentData]: iteration 0 is on [block[0]], the state block;
    it ends by computing the blocks again, and the iterations that follow
    are on entries [1 ..] of that second array. *)
Definition LoadPersistentData (data : list Z) : M bool :=
  modify (set_silence_ true) ;;
  if format_ok state_block data 0 then
    copy_block state_block data 2 ;;
    after_state_block ;;
    s <- get ;;
    load_blocks (buffer_blocks s) data (next_block state_block 0)
  else
    modify (set_silence_ false) ;; ret false.

(** Modelled from the spec: the writer of the word stream is the caller's
    storage code, which is not among the sources.  Section 6 gives the
    layout: each block is a 4-byte tag, a 4-byte size in bytes, then that
    many bytes of payload, word-aligned, in the order of
    [GetPersistentData].  The two padding bytes of the state record are
    written as zero. *)
Definition word_of_bytes (bytes : list Z) (k : nat) : Z :=
  nth (4 * k) bytes 0 + 2 ^ 8 * nth (4 * k + 1) bytes 0
  + 2 ^ 16 * nth (4 * k + 2) bytes 0 + 2 ^ 24 * nth (4 * k + 3) bytes 0.

Definition state_words (p : PersistentState.t) : list Z :=
  [uint32 (fst (PersistentState.write_head p));
   uint32 (snd (PersistentState.write_head p));
   PersistentState.quality p + 2 ^ 8 * PersistentState.spectral p].

Definition payload_words (s : GranularProcessor) (b : PersistentBlock.t) : list Z :=
  match PersistentBlock.data b with
  | StateData => state_words (persistent_state_ s)
  | BufferData i =>
      map (word_of_bytes (at2 i (buffer_ s)))
          (seq 0 (Z.to_nat ((PersistentBlock.size b + 3) / 4)))
  end.

Definition save_stream (s : GranularProcessor) : list Z :=
  flat_map (fun b => PersistentBlock.tag b :: PersistentBlock.size b :: payload_words s b)
           (GetPersistentData s).

(** *** [ProcessGranular] *)

(** [buffer_8_[i].WriteFade(&input_samples[i], size, 2, play)] or the
    same on [buffer_16_[i]].  The samples go to the memory of the ring
    buffer, which [Prepare] has placed at the start of region [i]
    ([buffer[i] = buffer_[i]] for every channel in use). *)
Definition write_fade (samples : list float) (size : Z) (play : bool) (i : Z) : M unit :=
  s <- get ;;
  if resolution s =? 8 then
    modify (fun s =>
              set_buffer_
                (set2 i (WriteFade_bytes samples size 2 play (at2 i (buffer_8_ s))
                           (at2 i (buffer_ s)))
                      (buffer_ s))
                (set_buffer_8_
                   (set2 i (WriteFade samples size 2 play (at2 i (buffer_8_ s)))
                         (buffer_8_ s)) s)) ;;
    call (ring_buffer 8 i) "WriteFade" [ASamples samples; AZ size; AZ 2; AB play]
  else
    modify (fun s =>
              set_buffer_
                (set2 i (WriteFade_bytes samples size 2 play (at2 i (buffer_16_ s))
                           (at2 i (buffer_ s)))
                      (buffer_ s))
                (set_buffer_16_
                   (set2 i (WriteFade samples size 2 play (at2 i (buffer_16_ s)))
                         (buffer_16_ s)) s)) ;;
    call (ring_buffer 16 i) "WriteFade" [ASamples samples; AZ size; AZ 2; AB play].

(** The [play] flag of the recording stage. *)
Definition play_flag (s : GranularProcessor) : bool :=
  negb (Parameters.freeze (parameters_ s))
  || (playback_mode_ s =? PLAYBACK_MODE_OLIVERB)
  || (playback_mode_ s =? PLAYBACK_MODE_KAMMERL).

(** The modes whose input is recorded. *)
Definition records_input (s : GranularProcessor) : bool :=
  negb (playback_mode_ s =? PLAYBACK_MODE_SPECTRAL)
  && negb (playback_mode_ s =? PLAYBACK_MODE_SPECTRAL_CLOUD)
  && negb (playback_mode_ s =? PLAYBACK_MODE_RESONESTOR).

(** The first block of [ProcessGranular]: the incoming audio is written
    to the recording buffer. *)
Definition record_input (input : list FloatFrame.t) (size : Z) : M unit :=
  s <- get ;;
  when (records_input s)
       (for_each (channels s)
          (fun i => write_fade (channel i (firstn (Z.to_nat size) input)) size (play_flag s) i)).

(** The meta-parameters of the granular mode. *)
Definition use_deterministic_seed_of (density : float) : bool :=
  (density <? dec 5 1)%f32.

Definition overlap_of (density : float) : float :=
  if (density >=? dec 53 2)%f32 then ((density - dec 53 2) * dec 212 2)%f32
  else if (density <=? dec 47 2)%f32 then ((dec 47 2 - density) * dec 212 2)%f32
  else fzero.

Definition window_shape_of (texture : float) : float :=
  if (texture <? dec 75 2)%f32 then (texture * dec 1333 3)%f32 else fone.

(** The wet amount computed before [oliverb_.set_pitch_shift_amount]. *)
Definition oliverb_pitch_shift_amount (x : float) : float :=
  let limit := dec 7 1 in
  let slew := dec 4 1 in
  if (x <? - limit)%f32 then fone
  else if (x <? - limit + slew)%f32 then (fone - (x + limit) / slew)%f32
  else if (x <? limit - slew)%f32 then fzero
  else if (x <? limit)%f32 then (fone + (x - limit) / slew)%f32
  else fone.

(** [player.Play(buffer_8_ or buffer_16_, parameters, &output[0].l,
    size)] for one of the ring-buffer players. *)
Definition play (player : Collaborator) (parameters : Parameters.t)
    (output : list FloatFrame.t) (size : Z) : M (list FloatFrame.t) :=
  s <- get ;;
  reply <- (if resolution s =? 8
            then call_frames player "Play" [ABuffers 8; AParameters parameters; AZ size]
            else call_frames player "Play" [ABuffers 16; AParameters parameters; AZ size]) ;;
  ret (fill reply size output).

(** A processing call that works in place on the first [size] frames. *)
Definition process_in_place (c : Collaborator) (frames : list FloatFrame.t) (size : Z)
    : M (list FloatFrame.t) :=
  reply <- call_frames c "Process" [AFrames (firstn (Z.to_nat size) frames); AZ size] ;;
  ret (fill reply size frames).

Definition granular_branch (output : list FloatFrame.t) (size : Z)
    : M (list FloatFrame.t) :=
  modify (fun s =>
            let p := parameters_ s in
            set_parameters_
              (Parameters.set_granular
                 (use_deterministic_seed_of (Parameters.density p))
                 (overlap_of (Parameters.density p))
                 (window_shape_of (Parameters.texture p)) p) s) ;;
  s <- get ;;
  play player_ (parameters_ s) output size.

Definition spectral_branch (input output : list FloatFrame.t) (size : Z)
    : M (list FloatFrame.t) :=
  modify (fun s =>
            let p := parameters_ s in
            let warp := (Parameters.size p - dec 5 1)%f32 in
            let randomization := (Parameters.density p - dec 5 1)%f32 in
            let randomization := (randomization * (randomization * dec 42 1))%f32 in
            let randomization := (randomization - dec 5 2)%f32 in
            let randomization := CONSTRAIN randomization fzero fone in
            set_parameters_
              (Parameters.set_spectral
                 (Parameters.texture p)
                 (dec 1 2 + dec 99 2 * Parameters.density p)%f32
                 (dec 4 0 * warp * warp * warp + dec 5 1)%f32
                 randomization p) s) ;;
  s <- get ;;
  reply <- call_frames phase_vocoder_ "Process"
             [AParameters (parameters_ s); AFrames (firstn (Z.to_nat size) input); AZ size] ;;
  ret (fill reply size output).

Definition spectral_cloud_branch (input output : list FloatFrame.t) (size : Z)
    : M (list FloatFrame.t) :=
  s <- get ;;
  reply <- call_frames phase_vocoder_ "Process"
             [AParameters (parameters_ s); AFrames (firstn (Z.to_nat size) input); AZ size] ;;
  let output := fill reply size output in
  if num_channels_ s =? 1 then
    ret (on_block (map (fun f => FloatFrame.mk (FloatFrame.l f) (FloatFrame.l f))) size output)
  else ret output.

Definition oliverb_branch (output : list FloatFrame.t) (size : Z)
    : M (list FloatFrame.t) :=
  s <- get ;;
  let parameters := parameters_ s in
  synchronized <- ask ws_player_ "synchronized" ;;
  let p :=
    Parameters.mk
      (if synchronized then Parameters.position parameters
       else (Parameters.position parameters * dec 25 2)%f32)
      (dec 1 1) fzero fzero (dec 5 1) fone fzero fzero fzero
      false (Parameters.trigger parameters) false
      fzero fzero false fzero fzero fzero fzero fzero in
  output <- play ws_player_ p output size ;;
  call oliverb_ "set_diffusion"
       [AF (dec 3 1 + dec 5 1 * Parameters.stereo_spread parameters)%f32] ;;
  call oliverb_ "set_size" [AF (dec 5 2 + dec 94 2 * Parameters.size parameters)%f32] ;;
  call oliverb_ "set_mod_rate" [AF (Parameters.feedback parameters)] ;;
  call oliverb_ "set_mod_amount" [AF (Parameters.reverb parameters * dec 300 0)%f32] ;;
  call oliverb_ "set_ratio" [AF (SemitonesToRatio (Parameters.pitch parameters))] ;;
  call oliverb_ "set_pitch_shift_amount"
       [AF (oliverb_pitch_shift_amount (Parameters.pitch parameters))] ;;
  (if Parameters.freeze parameters then
     call oliverb_ "set_input_gain" [AF fzero] ;;
     call oliverb_ "set_decay" [AF fone] ;;
     call oliverb_ "set_lp" [AF fone] ;;
     call oliverb_ "set_hp" [AF fzero]
   else
     call oliverb_ "set_decay"
          [AF (Parameters.density parameters * dec 13 1
               + dec 15 2 * std_abs (Parameters.pitch parameters) / dec 24 0)%f32] ;;
     call oliverb_ "set_input_gain" [AF (dec 5 1)] ;;
     let lp := if (Parameters.texture parameters <? dec 5 1)%f32
               then (Parameters.texture parameters * dec 2 0)%f32 else fone in
     let hp := if (Parameters.texture parameters >? dec 5 1)%f32
               then ((Parameters.texture parameters - dec 5 1) * dec 2 0)%f32 else fzero in
     call oliverb_ "set_lp" [AF (dec 3 2 + dec 9 1 * lp)%f32] ;;
     call oliverb_ "set_hp" [AF (dec 1 2 + dec 2 1 * hp)%f32]) ;;
  process_in_place oliverb_ output size.

Definition resonestor_branch (input output : list FloatFrame.t) (size : Z)
    : M (list FloatFrame.t) :=
  s <- get ;;
  let parameters := parameters_ s in
  let output := copy input size output in
  call resonestor_ "set_pitch" [AF (Parameters.pitch parameters)] ;;
  call resonestor_ "set_chord" [AF (Parameters.size parameters)] ;;
  call resonestor_ "set_trigger" [AB (Parameters.trigger parameters)] ;;
  call resonestor_ "set_burst_damp" [AF (Parameters.position parameters)] ;;
  call resonestor_ "set_burst_comb" [AF (fone - Parameters.position parameters)%f32] ;;
  call resonestor_ "set_burst_duration" [AF (fone - Parameters.position parameters)%f32] ;;
  call resonestor_ "set_spread_amount" [AF (Parameters.reverb parameters)] ;;
  call resonestor_ "set_stereo"
       [AF (if (Parameters.stereo_spread parameters <? dec 5 1)%f32 then fzero
            else ((Parameters.stereo_spread parameters - dec 5 1) * dec 2 0)%f32)] ;;
  call resonestor_ "set_separation"
       [AF (if (Parameters.stereo_spread parameters >? dec 5 1)%f32 then fzero
            else ((dec 5 1 - Parameters.stereo_spread parameters) * dec 2 0)%f32)] ;;
  call resonestor_ "set_freeze" [AB (Parameters.freeze parameters)] ;;
  call resonestor_ "set_harmonicity"
       [AF (fone - Parameters.feedback parameters * dec 5 1)%f32] ;;
  call resonestor_ "set_distortion" [AF (Parameters.dry_wet parameters)] ;;
  let t := Parameters.texture parameters in
  (if (t <? dec 5 1)%f32 then
     call resonestor_ "set_narrow" [AF (dec 1 3)] ;;
     let l := (fone - (dec 5 1 - t) / dec 5 1)%f32 in
     let l := (l * (fone - dec 8 2) + dec 8 2)%f32 in
     call resonestor_ "set_damp" [AF (l * l)%f32]
   else
     call resonestor_ "set_damp" [AF fone] ;;
     let n := ((t - dec 5 1) / dec 5 1 * dec 135 2)%f32 in
     let n := (n * (n * n * n))%f32 in
     call resonestor_ "set_narrow" [AF (dec 1 3 + n * n * dec 6 1)%f32]) ;;
  let d := ((Parameters.density parameters - dec 5 2) / dec 9 1)%f32 in
  let d := if (d <? fzero)%f32 then fzero else d in
  let d := (d * (d * d))%f32 in
  let d := (d * (d * d))%f32 in
  let d := (d * (d * d))%f32 in
  call resonestor_ "set_feedback" [AF (d * dec 20 0)%f32] ;;
  process_in_place resonestor_ output size.

(** The [switch] on the playback mode. *)
Definition dispatch (input output : list FloatFrame.t) (size : Z) : M (list FloatFrame.t) :=
  s <- get ;;
  if playback_mode_ s =? PLAYBACK_MODE_GRANULAR then
    granular_branch output size
  else if playback_mode_ s =? PLAYBACK_MODE_STRETCH then
    play ws_player_ (parameters_ s) output size
  else if playback_mode_ s =? PLAYBACK_MODE_LOOPING_DELAY then
    play looper_ (parameters_ s) output size
  else if playback_mode_ s =? PLAYBACK_MODE_SPECTRAL then
    spectral_branch input output size
  else if playback_mode_ s =? PLAYBACK_MODE_SPECTRAL_CLOUD then
    spectral_cloud_branch input output size
  else if playback_mode_ s =? PLAYBACK_MODE_OLIVERB then
    oliverb_branch output size
  else if playback_mode_ s =? PLAYBACK_MODE_RESONESTOR then
    resonestor_branch input output size
  else if playback_mode_ s =? PLAYBACK_MODE_KAMMERL then
    play kammerl_ (parameters_ s) output size
  else
    ret output.

(** [ProcessGranular(input, output, size)]: the recording stage, then the
    [switch] on the playback mode.  The result is the content of
    [output]. *)
Definition ProcessGranular (input output : list FloatFrame.t) (size : Z)
    : M (list FloatFrame.t) :=
  record_input input size ;;
  dispatch input output size.

(** *** [WarmDistortion] *)

(** The test [parameter < 0.1] of the source: [0.1] is a [double]
    literal, so the parameter is promoted and the comparison is made in
    double precision. *)
Definition below_threshold (parameter : float) : bool :=
  SFltb (to_double parameter) (ddec 1 1).

(** [WarmDistortion(in, parameter)]: the value of [*in] on return. *)
Definition WarmDistortion (in_value : float) (parameter : float) : float :=
  if below_threshold parameter then in_value
  else
    let kMaxDistf := dec 2 0 in
    let fac := (kMaxDistf * parameter)%f32 in
    let amp := (fone - parameter * dec 45 2)%f32 in
    let smp := in_value in
    let smp := ((fone + fac) * smp - fac * smp * smp * smp)%f32 in
    let sign := if (smp <? fzero)%f32 then (- fone)%f32 else fone in
    let tanh_loopup := std_max fzero (std_min fone (smp / dec 2 0 * sign)%f32) in
    let inv_tanh_smp :=
      (Interpolate "lut_inv_tanh" tanh_loopup (float_of_Z (LUT_INV_TANH_SIZE - 1)) * sign)%f32 in
    let smp := (smp + (inv_tanh_smp - smp) * fac)%f32 in
    let smp := (smp * amp)%f32 in
    std_max (- fone)%f32 (std_min fone smp).

(** *** [Process] *)

(** [static_cast<float>(x) / 32768.0f]. *)
Definition short_to_float (x : Z) : float := (float_of_Z x / float_of_Z 32768)%f32.

Definition input_frame (input : list ShortFrame.t) (i : nat) : ShortFrame.t :=
  nth i input (ShortFrame.mk 0 0).

(** A mute loop: the fade is smoothed towards [level] before each frame
    and multiplies it.  The result is the final fade and the frames. *)
Fixpoint mute_loop (fade level : float) (frames : list FloatFrame.t)
    : float * list FloatFrame.t :=
  match frames with
  | [] => (fade, [])
  | f :: rest =>
      let fade := ONE_POLE fade level (dec 1 2) in
      let (last, rest) := mute_loop fade level rest in
      (last, FloatFrame.mk (FloatFrame.l f * fade)%f32 (FloatFrame.r f * fade)%f32 :: rest)
  end.

(** The wet amount computed before [pitch_shifter_.set_dry_wet]. *)
Definition pitch_shifter_dry_wet (x : float) : float :=
  let limit := dec 7 1 in
  let slew := dec 4 1 in
  if (x <? - limit)%f32 then fone
  else if (x <? - limit + slew)%f32 then (fone - (x + limit) / slew)%f32
  else if (x <? limit - slew)%f32 then fzero
  else if (x <? limit)%f32 then (fone + (x - limit) / slew)%f32
  else fone.

(** The modes that run the shared feedback path. *)
Definition shared_feedback_path (s : GranularProcessor) : bool :=
  negb (playback_mode_ s =? PLAYBACK_MODE_OLIVERB)
  && negb (playback_mode_ s =? PLAYBACK_MODE_RESONESTOR)
  && negb (playback_mode_ s =? PLAYBACK_MODE_KAMMERL)
  && negb (playback_mode_ s =? PLAYBACK_MODE_SPECTRAL_CLOUD).

(** The initial value of the local [feedback]. *)
Definition kammerl_feedback (s : GranularProcessor) : float :=
  if (playback_mode_ s =? PLAYBACK_MODE_KAMMERL)
     && query (calls s) kammerl_ "isSlicePlaybackActive"
  then Parameters.reverb (parameters_ s)
  else fzero.

(** [filter[0].Process<mode>(&frames[0].l, &frames[0].l, size, 2)] and
    the same on the right channel with [filter[1]]: a filter runs in
    place on one channel of the first [size] frames. *)
Definition filter_channel (filter : Collaborator) (mode : String.string) (i : Z)
    (frames : list FloatFrame.t) (size : Z) : M (list FloatFrame.t) :=
  reply <- call_samples filter "Process"
             [AName mode; ASamples (channel i (firstn (Z.to_nat size) frames)); AZ size; AZ 2] ;;
  ret (on_block (set_channel i reply) size frames).

(** The body of [if (playback_mode_ != OLIVERB && ... )]: the freeze
    coefficient is smoothed, the feedback amount is read, and the stored
    output is high-pass filtered.  The result is [feedback]. *)
Definition feedback_filter (size : Z) : M float :=
  modify (fun s =>
            set_freeze_lp_
              (ONE_POLE (freeze_lp_ s)
                 (if Parameters.freeze (parameters_ s) then fone else fzero) (dec 5 4)) s) ;;
  s <- get ;;
  let feedback := Parameters.feedback (parameters_ s) in
  let cutoff := ((dec 20 0 + dec 100 0 * feedback * feedback) / sample_rate s)%f32 in
  call (fb_filter_ 0) "set_f_q<FREQUENCY_FAST>" [AF cutoff; AF fone] ;;
  call (fb_filter_ 1) "set" [AName "fb_filter_[0]"] ;;
  fb <- filter_channel (fb_filter_ 0) "FILTER_MODE_HIGH_PASS" 0 (fb_ s) size ;;
  fb <- filter_channel (fb_filter_ 1) "FILTER_MODE_HIGH_PASS" 1 fb size ;;
  modify (set_fb_ fb) ;;
  ret feedback.

(** [fb_gain = feedback * (1.0f - freeze_lp_)]. *)
Definition fb_gain_of (feedback freeze_lp : float) : float :=
  (feedback * (fone - freeze_lp))%f32.

(** What one sample receives from the feedback:
    [fb_gain * (SoftLimit(fb_gain * 1.4f * fb + in) - in)]. *)
Definition feedback_contribution (fb_gain fb in_value : float) : float :=
  (fb_gain * (SoftLimit (fb_gain * dec 14 1 * fb + in_value) - in_value))%f32.

(** The loop that blends the feedback into [in_]; [fb] is read at the
    same index. *)
Fixpoint blend_feedback (fb_gain : float) (fb frames : list FloatFrame.t)
    : list FloatFrame.t :=
  match frames with
  | [] => []
  | f :: rest =>
      let b := hd zero_frame fb in
      FloatFrame.mk
        (FloatFrame.l f + feedback_contribution fb_gain (FloatFrame.l b) (FloatFrame.l f))%f32
        (FloatFrame.r f + feedback_contribution fb_gain (FloatFrame.r b) (FloatFrame.r f))%f32
      :: blend_feedback fb_gain (tl fb) rest
  end.

(** The feedback stage of [Process]; the result is the local
    [feedback], which the reverb reads later. *)
Definition apply_feedback (size : Z) : M float :=
  s <- get ;;
  let feedback := kammerl_feedback s in
  feedback <- (if shared_feedback_path s then feedback_filter size
               else ret feedback) ;;
  modify (fun s =>
            set_in_ (on_block (blend_feedback (fb_gain_of feedback (freeze_lp_ s)) (fb_ s))
                              size (in_ s)) s) ;;
  ret feedback.

(** The settings and the run of the generic reverb (both call sites). *)
Definition apply_reverb (feedback : float) (size : Z) : M unit :=
  s <- get ;;
  let reverb_amount := Parameters.reverb (parameters_ s) in
  call reverb_ "set_amount" [AF (reverb_amount * dec 54 2)%f32] ;;
  call reverb_ "set_diffusion" [AF (dec 7 1)] ;;
  call reverb_ "set_time" [AF (dec 35 2 + dec 63 2 * reverb_amount)%f32] ;;
  call reverb_ "set_input_gain" [AF (dec 2 1)] ;;
  call reverb_ "set_lp" [AF (dec 6 1 + dec 37 2 * feedback)%f32] ;;
  out <- process_in_place reverb_ (out_ s) size ;;
  modify (set_out_ out).

Definition reverb_modes (s : GranularProcessor) : bool :=
  negb (playback_mode_ s =? PLAYBACK_MODE_OLIVERB)
  && negb (playback_mode_ s =? PLAYBACK_MODE_RESONESTOR)
  && negb (playback_mode_ s =? PLAYBACK_MODE_KAMMERL).

(** The dry/wet crossfade loop.  [k] is the index of the frame, the two
    fades are the local copies of the mute coefficients. *)
Fixpoint crossfade_loop (s : GranularProcessor) (input : list ShortFrame.t) (size : Z)
    (mute_level_in mute_level_out : float) (mute_in_fade mute_out_fade : float)
    (k : nat) (frames : list FloatFrame.t) : list FloatFrame.t :=
  match frames with
  | [] => []
  | f :: rest =>
      let post_gain := dec 12 1 in
      let dry_wet :=
        ParameterInterpolator_Next (dry_wet_ s) (Parameters.dry_wet (parameters_ s)) size k in
      let dry_wet := if playback_mode_ s =? PLAYBACK_MODE_KAMMERL then fone else dry_wet in
      let fade_in := Interpolate "lut_xfade_in" dry_wet (dec 16 0) in
      let fade_out := Interpolate "lut_xfade_out" dry_wet (dec 16 0) in
      let l := short_to_float (ShortFrame.l (input_frame input k)) in
      let r := short_to_float (ShortFrame.r (input_frame input k)) in
      let mute_out_fade := ONE_POLE mute_out_fade mute_level_out (dec 1 2) in
      let mute_in_fade := ONE_POLE mute_in_fade mute_level_in (dec 1 2) in
      let fade_out := (fade_out * (mute_in_fade * mute_out_fade))%f32 in
      FloatFrame.mk (l * fade_out + FloatFrame.l f * post_gain * fade_in)%f32
                    (r * fade_out + FloatFrame.r f * post_gain * fade_in)%f32
      :: crossfade_loop s input size mute_level_in mute_level_out
           mute_in_fade mute_out_fade (S k) rest
  end.

(** The mono mixdown of one frame. *)
Definition mixdown (s : GranularProcessor) (f : FloatFrame.t) : FloatFrame.t :=
  let xfade :=
    if (playback_mode_ s =? PLAYBACK_MODE_LOOPING_DELAY)
       || (playback_mode_ s =? PLAYBACK_MODE_STRETCH)
    then Parameters.stereo_spread (parameters_ s)
    else dec 5 1 in
  let l := (FloatFrame.l f * (fone - xfade) + FloatFrame.r f * xfade)%f32 in
  FloatFrame.mk l l.

(** [Process] once the bypass and the silence gates are passed. *)
Definition process_block (input output : list ShortFrame.t) (size : Z)
    : M (list ShortFrame.t) :=
  (* Convert input buffers to float. *)
  modify (fun s =>
            set_in_ (fill (fun i =>
                             FloatFrame.mk (short_to_float (ShortFrame.l (input_frame input i)))
                                           (short_to_float (ShortFrame.r (input_frame input i))))
                          size (in_ s)) s) ;;
  (* Mute in. *)
  s <- get ;;
  let mute_level_in := if mute_in_ s then fzero else fone in
  let original_mute_in_fade := mute_in_fade_ s in
  (let (fade, frames) :=
     mute_loop (mute_in_fade_ s) mute_level_in (firstn (Z.to_nat size) (in_ s)) in
   modify (set_mute_in_fade_ fade) ;;
   modify (fun s => set_in_ (frames ++ skipn (Z.to_nat size) (in_ s)) s)) ;;
  (* Mixdown for mono processing. *)
  when (num_channels_ s =? 1)
       (modify (fun s => set_in_ (on_block (map (mixdown s)) size (in_ s)) s)) ;;
  (* Feedback. *)
  feedback <- apply_feedback size ;;
  (* Mode dispatch, at full or at reduced rate. *)
  (if low_fidelity_ s then
     let downsampled_size := Z.quot size kDownsamplingFactor in
     s <- get ;;
     reply <- call_frames src_down_ "Process"
                [AFrames (firstn (Z.to_nat size) (in_ s)); AZ size] ;;
     modify (fun s => set_in_downsampled_ (fill reply downsampled_size (in_downsampled_ s)) s) ;;
     s <- get ;;
     out <- ProcessGranular (in_downsampled_ s) (out_downsampled_ s) downsampled_size ;;
     modify (set_out_downsampled_ out) ;;
     reply <- call_frames src_up_ "Process"
                [AFrames (firstn (Z.to_nat downsampled_size) out); AZ downsampled_size] ;;
     modify (fun s => set_out_ (fill reply (downsampled_size * kDownsamplingFactor) (out_ s)) s)
   else
     s <- get ;;
     out <- ProcessGranular (in_ s) (out_ s) size ;;
     modify (set_out_ out)) ;;
  (* Diffusion. *)
  s <- get ;;
  let mode := playback_mode_ s in
  let parameters := parameters_ s in
  when (negb (mode =? PLAYBACK_MODE_SPECTRAL)
        && negb (mode =? PLAYBACK_MODE_SPECTRAL_CLOUD)
        && negb (mode =? PLAYBACK_MODE_OLIVERB)
        && negb (mode =? PLAYBACK_MODE_RESONESTOR)
        && negb (mode =? PLAYBACK_MODE_KAMMERL))
       (let texture := Parameters.texture parameters in
        let diffusion :=
          if mode =? PLAYBACK_MODE_GRANULAR
          then (if (texture >? dec 75 2)%f32 then ((texture - dec 75 2) * dec 4 0)%f32 else fzero)
          else Parameters.density parameters in
        call diffuser_ "set_amount" [AF diffusion] ;;
        out <- process_in_place diffuser_ (out_ s) size ;;
        modify (set_out_ out)) ;;
  (* Pitch shifting. *)
  synchronized <- ask looper_ "synchronized" ;;
  when (((mode =? PLAYBACK_MODE_LOOPING_DELAY)
         && (negb (Parameters.freeze parameters) || synchronized))
        || (mode =? PLAYBACK_MODE_SPECTRAL_CLOUD))
       (call pitch_shifter_ "set_ratio" [AF (SemitonesToRatio (Parameters.pitch parameters))] ;;
        call pitch_shifter_ "set_size" [AF (Parameters.size parameters)] ;;
        (if negb (PLAYBACK_MODE_SPECTRAL_CLOUD =? mode)
         then call pitch_shifter_ "set_dry_wet"
                   [AF (pitch_shifter_dry_wet (Parameters.pitch parameters))]
         else call pitch_shifter_ "set_dry_wet" [AF fone]) ;;
        s <- get ;;
        out <- process_in_place pitch_shifter_ (out_ s) size ;;
        modify (set_out_ out)) ;;
  (* Filters. *)
  when ((mode =? PLAYBACK_MODE_LOOPING_DELAY) || (mode =? PLAYBACK_MODE_STRETCH))
       (let cutoff := Parameters.texture parameters in
        let lp_cutoff :=
          (dec 5 1 * SemitonesToRatio
                       ((if (cutoff <? dec 5 1)%f32 then (cutoff - dec 5 1)%f32 else fzero)
                        * dec 216 0))%f32 in
        let hp_cutoff :=
          (dec 25 2 * SemitonesToRatio
                        ((if (cutoff <? dec 5 1)%f32 then (- dec 5 1)%f32 else (cutoff - fone)%f32)
                         * dec 216 0))%f32 in
        let lp_cutoff := CONSTRAIN lp_cutoff fzero (dec 499 3) in
        let hp_cutoff := CONSTRAIN hp_cutoff fzero (dec 499 3) in
        s <- get ;;
        call (lp_filter_ 0) "set_f_q<FREQUENCY_FAST>" [AF lp_cutoff; AF (dec 9 1)] ;;
        out <- filter_channel (lp_filter_ 0) "FILTER_MODE_LOW_PASS" 0 (out_ s) size ;;
        call (lp_filter_ 1) "set" [AName "lp_filter_[0]"] ;;
        out <- filter_channel (lp_filter_ 1) "FILTER_MODE_LOW_PASS" 1 out size ;;
        call (hp_filter_ 0) "set_f_q<FREQUENCY_FAST>" [AF hp_cutoff; AF (dec 9 1)] ;;
        out <- filter_channel (hp_filter_ 0) "FILTER_MODE_HIGH_PASS" 0 out size ;;
        call (hp_filter_ 1) "set" [AName "hp_filter_[0]"] ;;
        out <- filter_channel (hp_filter_ 1) "FILTER_MODE_HIGH_PASS" 1 out size ;;
        modify (set_out_ out)) ;;
  (* This is what is fed back. *)
  modify (fun s => set_fb_ (copy (out_ s) size (fb_ s)) s) ;;
  (* Mute out, before the reverb. *)
  s <- get ;;
  let mute_level_out := if mute_out_ s then fzero else fone in
  let original_mute_out_fade := mute_out_fade_ s in
  (let (fade, frames) :=
     mute_loop (mute_out_fade_ s) mute_level_out (firstn (Z.to_nat size) (out_ s)) in
   modify (set_mute_out_fade_ fade) ;;
   modify (fun s => set_out_ (frames ++ skipn (Z.to_nat size) (out_ s)) s)) ;;
  when (negb (reverb_dry_signal_ s) && reverb_modes s) (apply_reverb feedback size) ;;
  (* Dry/wet crossfade. *)
  when (negb (mode =? PLAYBACK_MODE_RESONESTOR))
       (modify (fun s =>
                  set_out_
                    (on_block (crossfade_loop s input size mute_level_in mute_level_out
                                 original_mute_in_fade original_mute_out_fade 0)
                              size (out_ s)) s) ;;
        modify (fun s =>
                  if 0 <? size
                  then set_dry_wet_
                         (ParameterInterpolator_Next (dry_wet_ s)
                            (Parameters.dry_wet (parameters_ s)) size (Z.to_nat size - 1)) s
                  else s)) ;;
  (* The simple post-processing reverb. *)
  when (reverb_dry_signal_ s && reverb_modes s) (apply_reverb feedback size) ;;
  (* Distortion, for the spectral cloud only. *)
  when (mode =? PLAYBACK_MODE_SPECTRAL_CLOUD)
       (modify (fun s =>
                  let pitch_mode := Parameters.kammerl_pitch_mode (parameters_ s) in
                  set_out_
                    (on_block
                       (map (fun f =>
                               FloatFrame.mk (WarmDistortion (FloatFrame.l f) pitch_mode)
                                             (WarmDistortion (FloatFrame.r f) pitch_mode)))
                       size (out_ s)) s)) ;;
  (* Conversion to the output format. *)
  s <- get ;;
  ret (fill (fun i =>
               let f := nth i (out_ s) zero_frame in
               ShortFrame.mk (SoftConvert (FloatFrame.l f)) (SoftConvert (FloatFrame.r f)))
            size output).

(** [Process(input, output, size)]; the result is the content of
    [output]. *)
Definition Process (input output : list ShortFrame.t) (size : Z) : M (list ShortFrame.t) :=
  s <- get ;;
  if bypass_ s then
    ret (copy input size output)
  else if silence_ s || reset_buffers_ s
          || negb (previous_playback_mode_ s =? playback_mode_ s) then
    ret (fill (fun _ => ShortFrame.mk 0 0) size output)
  else
    process_block input output size.

End Processor.


(** ** A concrete processor, for the examples

    The examples below run the model on one implementation of each
    interface: a ring buffer that keeps its head and its size and stores
    one byte per sample at its head,
    the enumerators numbered in the order the spec lists the modes, the
    quality code [channel bit | low-fidelity bit << 1], and collaborators
    that answer with silence. *)

Module Example.

Record Buffer : Type := mkBuffer { write_head_ : Z; size_ : Z }.

Definition buffer_head (b : Buffer) : Z := int32 (write_head_ b).

Definition buffer_Resync (h : Z) (b : Buffer) : Buffer := mkBuffer h (size_ b).

Definition buffer_Init (p : Ptr) (n : Z) (tail : Z) (b : Buffer) : Buffer := mkBuffer 0 n.

Definition buffer_WriteFade (samples : list float) (n stride : Z) (play : bool)
    (b : Buffer) : Buffer :=
  mkBuffer (write_head_ b + n) (size_ b).

(** The byte stored for a sample: its sign bit. *)
Definition sample_byte (x : float) : Z :=
  match x with
  | S754_zero true | S754_infinity true | S754_finite true _ _ => 255
  | _ => 0
  end.

(** The ring buffer starts at offset 0 of its region and writes its
    samples from its head on, wrapping at its size; the initialization
    leaves the memory as it is. *)
Definition buffer_Init_bytes (p : Ptr) (n : Z) (tail : Z) (b : Buffer) (bytes : list Z)
    : list Z :=
  bytes.

Fixpoint store_samples (samples : list float) (at_ : Z) (size : Z) (bytes : list Z)
    : list Z :=
  match samples with
  | [] => bytes
  | x :: rest =>
      let k := Z.to_nat (at_ mod size) in
      store_samples rest (at_ + 1) size
        (if (k <? length bytes)%nat
         then firstn k bytes ++ sample_byte x :: skipn (S k) bytes
         else bytes)
  end.

Definition buffer_WriteFade_bytes (samples : list float) (n stride : Z) (play : bool)
    (b : Buffer) (bytes : list Z) : list Z :=
  if 0 <? size_ b
  then store_samples (firstn (Z.to_nat n) samples) (write_head_ b) (size_ b) bytes
  else bytes.

Lemma buffer_head_int32 (b : Buffer) : - 2 ^ 31 <= buffer_head b < 2 ^ 31.
Proof.
  unfold buffer_head, int32.
  pose proof (Z.mod_pos_bound (write_head_ b + 2 ^ 31) (2 ^ 32) ltac:(lia)). lia.
Qed.

Lemma buffer_head_Resync (h : Z) (b : Buffer) :
  - 2 ^ 31 <= h < 2 ^ 31 -> buffer_head (buffer_Resync h b) = h.
Proof.
  intros H. unfold buffer_head, buffer_Resync, int32; cbn [write_head_].
  rewrite Z.mod_small by lia. lia.
Qed.

Definition buffer_ops : AudioBufferOps Buffer :=
  Build_AudioBufferOps Buffer buffer_head buffer_Resync buffer_Init buffer_WriteFade
    buffer_Init_bytes buffer_WriteFade_bytes
    buffer_head_int32 buffer_head_Resync.

Definition header : Header :=
  Build_Header 0 1 2 3 4 5 6 7 8
    2 4096 257
    (fun num_channels low_fidelity =>
       Z.lor (if num_channels =? 1 then 1 else 0) (if low_fidelity then 2 else 0))
    (fun q => if Z.testbit q 0 then 1 else 2)
    (fun q => negb (Z.shiftr q 1 =? 0))
    (fun low_fidelity => if low_fidelity then float_of_Z 16000 else float_of_Z 32000).

Definition char_code (c : ascii) : Z := Z.of_nat (nat_of_ascii c).

Definition stmlib : Stmlib :=
  Build_Stmlib
    (fun a b c d =>
       char_code a + 2 ^ 8 * char_code b + 2 ^ 16 * char_code c + 2 ^ 24 * char_code d)
    (fun semitones => fone)
    (fun x => (x * (float_of_Z 27 + x * x) / (float_of_Z 27 + float_of_Z 9 * x * x))%f32)
    (fun x => 0)
    (fun table index size => index)
    SFabs
    (fun state new_value size k =>
       (state + float_of_Z (Z.of_nat (S k)) * ((new_value - state) / float_of_Z size))%f32).

Definition collaborators : Collaborators :=
  Build_Collaborators (fun log k => zero_frame) (fun log k => fzero) (fun log c m => false).

Definition parameters : Parameters.t :=
  Parameters.mk (dec 5 1) (dec 5 1) fzero (dec 5 1) (dec 5 1) (dec 5 1) (dec 5 1)
    fzero (dec 5 1) false false false fzero fzero false fzero fzero fzero fzero fzero.

(** The processor as [Init] leaves it, with the granular mode selected,
    over a large region of 42536 bytes and a small one of 16 bytes: in
    stereo that is 16 bytes of samples per channel and a workspace that
    holds exactly the diffuser, reverb and correlator allocations. *)
Definition initial : GranularProcessor (AudioBuffer := Buffer) :=
  mkGranularProcessor 0 8 2
    false false false true false false true
    fzero fzero fzero fzero
    (repeat zero_frame 4) (repeat zero_frame 4) (repeat zero_frame 4)
    (repeat zero_frame 4) (repeat zero_frame 4)
    parameters
    (PersistentState.mk (0, 0) 0 0)
    (repeat 0 (Z.to_nat 42536), repeat 0 (Z.to_nat 16)) (42536, 16)
    (mkBuffer 0 0, mkBuffer 0 0) (mkBuffer 0 0, mkBuffer 0 0)
    [].

#[local] Existing Instance buffer_ops.
#[local] Existing Instance header.
#[local] Existing Instance stmlib.
#[local] Existing Instance collaborators.

(** The processor after its first [Prepare]. *)
Definition prepared : GranularProcessor (AudioBuffer := Buffer) := exec Prepare initial.

(** The prepared processor once the STRETCH mode, the KAMMERL mode or
    the bypass has been selected. *)
Definition stretch_selected : GranularProcessor (AudioBuffer := Buffer) :=
  set_playback_mode PLAYBACK_MODE_STRETCH prepared.


Definition bypassed : GranularProcessor (AudioBuffer := Buffer) :=
  set_bypass true prepared.

(** The stream saved by a processor prepared for the SPECTRAL mode. *)
Definition spectral_stream : list Z :=
  save_stream
    (PreparePersistentData (exec Prepare (set_playback_mode PLAYBACK_MODE_SPECTRAL initial))).

(** The processor prepared for the SPECTRAL mode, and the prepared
    processor once the sentinel mode has been selected. *)
Definition spectral_prepared : GranularProcessor (AudioBuffer := Buffer) :=
  exec Prepare (set_playback_mode PLAYBACK_MODE_SPECTRAL initial).

Definition sentinel_selected : GranularProcessor (AudioBuffer := Buffer) :=
  set_playback_mode PLAYBACK_MODE_LAST prepared.

(** The processor prepared for the LOOPING_DELAY mode, and for the
    OLIVERB mode. *)
Definition looping_prepared : GranularProcessor (AudioBuffer := Buffer) :=
  exec Prepare (set_playback_mode PLAYBACK_MODE_LOOPING_DELAY initial).

Definition oliverb_prepared : GranularProcessor (AudioBuffer := Buffer) :=
  exec Prepare (set_playback_mode PLAYBACK_MODE_OLIVERB initial).

(** The prepared processor after one block of negative input: the ring
    buffers have written the first byte of each region. *)
Definition recorded : GranularProcessor (AudioBuffer := Buffer) :=
  exec (Process [ShortFrame.mk (-5) (-7)] [ShortFrame.mk 0 0] 1) prepared.

End Example.

(** * Properties *)

Section Properties.

Context {AudioBuffer : Type} {audio_buffer_ops : AudioBufferOps AudioBuffer}.
Context {header : Header} {stmlib : Stmlib} {collaborators : Collaborators}.

Local Abbreviation GP := (GranularProcessor (AudioBuffer := AudioBuffer)).
Local Abbreviation M := (M (AudioBuffer := AudioBuffer)).

(** ** Lists *)

Lemma copy_nth_error {A : Type} (src dst : list A) (n : Z) (i : nat) :
  0 <= n <= Z.of_nat (length src) -> (i < Z.to_nat n)%nat ->
  nth_error (copy src n dst) i = nth_error src i.
Proof.
  intros Hn Hi. unfold copy.
  rewrite nth_error_app1 by (rewrite length_firstn; lia).
  rewrite nth_error_firstn.
  destruct (Nat.ltb_spec i (Z.to_nat n)); [reflexivity | lia].
Qed.

Lemma copy_nth_error_beyond {A : Type} (src dst : list A) (n : Z) (i : nat) :
  0 <= n <= Z.of_nat (length src) -> (Z.to_nat n <= i)%nat ->
  nth_error (copy src n dst) i = nth_error dst i.
Proof.
  intros Hn Hi. unfold copy.
  rewrite nth_error_app2 by (rewrite length_firstn; lia).
  rewrite length_firstn, nth_error_skipn.
  f_equal. lia.
Qed.

(** C8 -- Bypass identity.  With the bypass flag set, [Process] copies
    the first [size] input frames to the output verbatim, leaves the rest
    of the output as it was, and returns with the processor state, its
    call log included, exactly as it found it. *)
Theorem Process_bypass (input output : list ShortFrame.t) (size : Z) (s : GranularProcessor) :
  bypass_ s = true ->
  0 <= size <= Z.of_nat (length input) ->
  exists output',
    Process input output size s = (output', s)
    /\ (forall i, (i < Z.to_nat size)%nat -> nth_error output' i = nth_error input i)
    /\ (forall i, (Z.to_nat size <= i)%nat -> nth_error output' i = nth_error output i).
Proof.
  intros Hb Hn. exists (copy input size output). split; [|split].
  - unfold Process, bind, get, ret. rewrite Hb. reflexivity.
  - intros i Hi. apply copy_nth_error; assumption.
  - intros i Hi. apply copy_nth_error_beyond; assumption.
Qed.

(** Running a command. *)
Lemma exec_bind {A B : Type} (c : M A) (k : A -> M B) (s : GP) :
  exec (bind c k) s = exec (k (fst (c s))) (snd (c s)).
Proof. unfold exec, bind. destruct (c s); reflexivity. Qed.

Lemma run_bind {A B : Type} (c : M A) (k : A -> M B) (s : GP) :
  bind c k s = k (fst (c s)) (snd (c s)).
Proof. unfold bind. destruct (c s); reflexivity. Qed.

Lemma exec_for_each {A : Type} (xs : list A) (body : A -> M unit) (s : GP) :
  exec (for_each xs body) s = fold_left (fun s x => exec (body x) s) xs s.
Proof.
  revert s. induction xs as [| x xs IH]; intros s; cbn [for_each fold_left].
  - reflexivity.
  - rewrite exec_bind. apply IH.
Qed.

(** [emits P c]: whatever the state, [c] only appends calls to the log,
    and each of them satisfies [P]. *)
Definition emits {A : Type} (P : Call -> Prop) (c : M A) : Prop :=
  forall s, exists d, calls (snd (c s)) = calls s ++ d /\ Forall P d.

Lemma emits_ret {A : Type} (P : Call -> Prop) (x : A) : emits P (ret x).
Proof. intros s. exists []. cbn. rewrite app_nil_r. auto. Qed.

Lemma emits_get (P : Call -> Prop) : emits P get.
Proof. intros s. exists []. cbn. rewrite app_nil_r. auto. Qed.

Lemma emits_bind {A B : Type} (P : Call -> Prop) (c : M A) (k : A -> M B) :
  emits P c -> (forall x, emits P (k x)) -> emits P (bind c k).
Proof.
  intros Hc Hk s. rewrite run_bind.
  destruct (Hc s) as (d1 & E1 & F1).
  destruct (Hk (fst (c s)) (snd (c s))) as (d2 & E2 & F2).
  exists (d1 ++ d2). rewrite E2, E1, app_assoc. split; [reflexivity|].
  apply Forall_app; auto.
Qed.

Lemma emits_modify (P : Call -> Prop) (f : GP -> GP) :
  (forall s, calls (f s) = calls s) -> emits P (modify f).
Proof. intros H s. exists []. cbn. rewrite H, app_nil_r. auto. Qed.

Lemma emits_call (P : Call -> Prop) (c : Collaborator) (m : String.string) (a : list Arg) :
  P (mkCall c m a) -> emits P (call c m a).
Proof. intros H s. exists [mkCall c m a]. cbn. auto. Qed.

Lemma emits_call_frames (P : Call -> Prop) (c : Collaborator) (m : String.string) (a : list Arg) :
  P (mkCall c m a) -> emits P (call_frames c m a).
Proof. intros H s. exists [mkCall c m a]. cbn. auto. Qed.

Lemma emits_call_samples (P : Call -> Prop) (c : Collaborator) (m : String.string) (a : list Arg) :
  P (mkCall c m a) -> emits P (call_samples c m a).
Proof. intros H s. exists [mkCall c m a]. cbn. auto. Qed.

Lemma emits_ask (P : Call -> Prop) (c : Collaborator) (m : String.string) : emits P (ask c m).
Proof. intros s. exists []. cbn. rewrite app_nil_r. auto. Qed.

Lemma emits_when (P : Call -> Prop) (b : bool) (c : M unit) :
  emits P c -> emits P (when b c).
Proof. intros H. destruct b; cbn [when]; [exact H | apply emits_ret]. Qed.

Lemma emits_if {A : Type} (P : Call -> Prop) (b : bool) (c1 c2 : M A) :
  emits P c1 -> emits P c2 -> emits P (if b then c1 else c2).
Proof. destruct b; auto. Qed.

Lemma emits_for_each {A : Type} (P : Call -> Prop) (xs : list A) (body : A -> M unit) :
  (forall x, emits P (body x)) -> emits P (for_each xs body).
Proof.
  intros H. induction xs as [| x xs IH]; cbn [for_each].
  - apply emits_ret.
  - apply emits_bind; auto.
Qed.

Lemma emits_let_pair {A B C : Type} (P : Call -> Prop) (p : A * B) (k : A -> B -> M C) :
  (forall a b, emits P (k a b)) -> emits P (let (a, b) := p in k a b).
Proof. destruct p; auto. Qed.

Lemma emits_weaken {A : Type} (P Q : Call -> Prop) (c : M A) :
  (forall x, P x -> Q x) -> emits P c -> emits Q c.
Proof.
  intros H Hc s. destruct (Hc s) as (d & E & F). exists d. split; [exact E|].
  eapply Forall_impl; eauto.
Qed.

Create HintDb emits.
#[local] Hint Resolve emits_ret emits_get emits_ask emits_when emits_if emits_for_each
  emits_call emits_call_frames emits_call_samples emits_let_pair : emits.
#[local] Hint Extern 2 (emits _ (bind _ _)) => apply emits_bind; [| intros ?] : emits.
#[local] Hint Extern 2 (emits _ (modify _)) => apply emits_modify; intros; reflexivity : emits.
#[local] Hint Extern 3 (emits _ (if _ then _ else _)) => apply emits_if : emits.
#[local] Hint Extern 3 (emits _ (let (_, _) := _ in _)) => apply emits_let_pair; intros ? ? : emits.

Ltac emits_step :=
  first
    [ apply emits_ret | apply emits_get | apply emits_ask
    | apply emits_bind; [| intros ?]
    | apply emits_modify; intros; reflexivity
    | apply emits_when
    | apply emits_for_each; intros ?
    | apply emits_call | apply emits_call_frames | apply emits_call_samples
    | apply emits_let_pair; intros ? ?
    | apply emits_if ].

Ltac emits_all tac := repeat emits_step; try tac.

(** Calls that are not to a ring buffer. *)
Definition not_ring_buffer (c : Call) : Prop :=
  match target c with ring_buffer _ _ => False | _ => True end.

Lemma emits_ResetFilters (P : Call -> Prop) :
  (forall i m, P (mkCall (fb_filter_ i) m [])) ->
  (forall i m, P (mkCall (lp_filter_ i) m [])) ->
  (forall i m, P (mkCall (hp_filter_ i) m [])) ->
  emits P ResetFilters.
Proof. intros. unfold ResetFilters. emits_all auto. Qed.

Lemma emits_prime : emits not_ring_buffer prime.
Proof. unfold prime. emits_all ltac:(exact I). Qed.

Lemma emits_init_engines (pt : Partition) : emits (fun _ => True) (init_engines pt).
Proof. unfold init_engines. emits_all ltac:(exact I). Qed.


(** The calls of [ResetFilters] followed by [pitch_shifter_.Clear()]. *)
Definition reset_and_clear_calls : list Call :=
  [mkCall (fb_filter_ 0) "Init" []; mkCall (lp_filter_ 0) "Init" [];
   mkCall (hp_filter_ 0) "Init" []; mkCall (fb_filter_ 1) "Init" [];
   mkCall (lp_filter_ 1) "Init" []; mkCall (hp_filter_ 1) "Init" [];
   mkCall pitch_shifter_ "Clear" []].

(** The calls of the priming block for a mode that is neither spectral
    nor OLIVERB. *)
Definition stretch_prime_calls (s : GP) : list Call :=
  if playback_mode_ s =? PLAYBACK_MODE_STRETCH
  then [mkCall ws_player_ "LoadCorrelator" [ABuffers (resolution s)];
        mkCall correlator_ "EvaluateSomeCandidates" []]
  else [].

Lemma benign_change_spec (s : GP) :
  benign_change s = true <->
  (playback_mode_ s <> PLAYBACK_MODE_SPECTRAL
   /\ playback_mode_ s <> PLAYBACK_MODE_SPECTRAL_CLOUD
   /\ playback_mode_ s <> PLAYBACK_MODE_RESONESTOR
   /\ playback_mode_ s <> PLAYBACK_MODE_OLIVERB)
  /\ (previous_playback_mode_ s <> PLAYBACK_MODE_SPECTRAL
      /\ previous_playback_mode_ s <> PLAYBACK_MODE_SPECTRAL_CLOUD
      /\ previous_playback_mode_ s <> PLAYBACK_MODE_RESONESTOR
      /\ previous_playback_mode_ s <> PLAYBACK_MODE_OLIVERB)
  /\ previous_playback_mode_ s <> PLAYBACK_MODE_LAST.
Proof.
  unfold benign_change.
  rewrite !andb_true_iff, !negb_true_iff, !Z.eqb_neq. tauto.
Qed.


Lemma exec_call (c : Collaborator) (m : String.string) (a : list Arg) (s : GP) :
  exec (call c m a) s = set_calls (calls s ++ [mkCall c m a]) s.
Proof. reflexivity. Qed.

Lemma exec_modify (f : GP -> GP) (s : GP) : exec (modify f) s = f s.
Proof. reflexivity. Qed.

Lemma exec_ret {A : Type} (x : A) (s : GP) : exec (ret x) s = s.
Proof. reflexivity. Qed.

Lemma exec_get_bind {A : Type} (k : GP -> M A) (s : GP) :
  exec (bind get k) s = exec (k s) s.
Proof. reflexivity. Qed.

Lemma GP_ext (s t : GP) :
  playback_mode_ s = playback_mode_ t ->
  previous_playback_mode_ s = previous_playback_mode_ t ->
  num_channels_ s = num_channels_ t ->
  low_fidelity_ s = low_fidelity_ t ->
  bypass_ s = bypass_ t ->
  silence_ s = silence_ t ->
  reset_buffers_ s = reset_buffers_ t ->
  mute_in_ s = mute_in_ t ->
  mute_out_ s = mute_out_ t ->
  reverb_dry_signal_ s = reverb_dry_signal_ t ->
  mute_in_fade_ s = mute_in_fade_ t ->
  mute_out_fade_ s = mute_out_fade_ t ->
  freeze_lp_ s = freeze_lp_ t ->
  dry_wet_ s = dry_wet_ t ->
  in_ s = in_ t ->
  in_downsampled_ s = in_downsampled_ t ->
  out_ s = out_ t ->
  out_downsampled_ s = out_downsampled_ t ->
  fb_ s = fb_ t ->
  parameters_ s = parameters_ t ->
  persistent_state_ s = persistent_state_ t ->
  buffer_ s = buffer_ t ->
  buffer_size_ s = buffer_size_ t ->
  buffer_8_ s = buffer_8_ t ->
  buffer_16_ s = buffer_16_ t ->
  calls s = calls t ->
  s = t.
Proof.
  destruct s, t; cbn; intros; subst; reflexivity.
Qed.

(** A state that differs from [s] by its log only. *)
Lemma set_calls_eq (s t : GP) (l : list Call) :
  (forall l0, set_calls l0 t = set_calls l0 s) -> calls t = l -> t = set_calls l s.
Proof.
  intros H E. rewrite <- (H l). rewrite <- E. destruct t; reflexivity.
Qed.

Lemma exec_ResetFilters (s : GP) :
  exec ResetFilters s =
  set_calls (calls s ++
             [mkCall (fb_filter_ 0) "Init" []; mkCall (lp_filter_ 0) "Init" [];
              mkCall (hp_filter_ 0) "Init" []; mkCall (fb_filter_ 1) "Init" [];
              mkCall (lp_filter_ 1) "Init" []; mkCall (hp_filter_ 1) "Init" []]) s.
Proof.
  apply set_calls_eq.
  - intros l0. reflexivity.
  - unfold exec, ResetFilters, for_each, bind, call, modify, ret.
    cbn [calls set_calls snd fst]. rewrite <- !app_assoc. reflexivity.
Qed.

(** The calls of the priming block. *)
Definition prime_calls (s : GP) : list Call :=
  if is_spectral (playback_mode_ s) then [mkCall phase_vocoder_ "Buffer" []]
  else if (playback_mode_ s =? PLAYBACK_MODE_STRETCH)
          || (playback_mode_ s =? PLAYBACK_MODE_OLIVERB)
  then [mkCall ws_player_ "LoadCorrelator" [ABuffers (resolution s)];
        mkCall correlator_ "EvaluateSomeCandidates" []]
  else [].

Lemma exec_prime (s : GP) : exec prime s = set_calls (calls s ++ prime_calls s) s.
Proof.
  unfold prime, prime_calls, is_spectral, resolution. rewrite exec_get_bind.
  destruct (_ || _).
  - reflexivity.
  - destruct (_ || _).
    + destruct (low_fidelity_ s); cbn [Z.eqb Pos.eqb];
        (apply set_calls_eq; [intros l0; reflexivity |]);
        unfold exec, bind, call, modify; cbn [calls set_calls snd fst];
        rewrite <- !app_assoc; reflexivity.
    + rewrite exec_ret, app_nil_r. destruct s; reflexivity.
Qed.

Lemma Prepare_benign (s : GP) :
  reset_buffers_ s = false ->
  playback_mode_changed s = true ->
  benign_change s = true ->
  exec Prepare s =
  set_calls (calls s ++ reset_and_clear_calls ++ stretch_prime_calls s)
    (set_previous_playback_mode_ (playback_mode_ s) s).
Proof.
  intros Hr Hc Hb.
  pose proof (proj1 (benign_change_spec s) Hb) as ((M1 & M2 & _ & M4) & _ & _).
  apply Z.eqb_neq in M1, M2, M4.
  unfold Prepare. rewrite exec_get_bind.
  rewrite Hr, Hc, Hb. cbn [negb andb orb when].
  rewrite !exec_bind, exec_prime.
  change (snd (ret tt ?x)) with x.
  repeat match goal with
         | |- context [snd (?c ?x)] => change (snd (c x)) with (exec c x)
         end.
  rewrite !exec_bind.
  repeat match goal with
         | |- context [snd (?c ?x)] => change (snd (c x)) with (exec c x)
         end.
  rewrite exec_modify, exec_call, exec_ResetFilters.
  apply GP_ext; try reflexivity.
  unfold prime_calls, stretch_prime_calls, is_spectral, resolution.
  cbn [calls set_calls set_previous_playback_mode_ playback_mode_ low_fidelity_
       exec ret snd].
  rewrite M1, M2, M4. cbn [orb]. rewrite orb_false_r.
  unfold reset_and_clear_calls. rewrite <- !app_assoc. reflexivity.
Qed.

(** [keeps f c]: [c] leaves the observation [f] of the state unchanged. *)
Definition keeps {A B : Type} (f : GP -> B) (c : M A) : Prop :=
  forall s, f (snd (c s)) = f s.

Lemma keeps_ret {A B : Type} (f : GP -> B) (x : A) : keeps f (ret x).
Proof. intros s. reflexivity. Qed.

Lemma keeps_get {B : Type} (f : GP -> B) : keeps f get.
Proof. intros s. reflexivity. Qed.

Lemma keeps_ask {B : Type} (f : GP -> B) (c : Collaborator) (m : String.string) :
  keeps f (ask c m).
Proof. intros s. reflexivity. Qed.

Lemma keeps_bind {A B C : Type} (f : GP -> C) (c : M A) (k : A -> M B) :
  keeps f c -> (forall x, keeps f (k x)) -> keeps f (bind c k).
Proof. intros Hc Hk s. rewrite run_bind, Hk, Hc. reflexivity. Qed.

Lemma keeps_modify {B : Type} (f : GP -> B) (g : GP -> GP) :
  (forall s, f (g s) = f s) -> keeps f (modify g).
Proof. intros H s. apply H. Qed.

Lemma keeps_call {B : Type} (f : GP -> B) (c : Collaborator) (m : String.string) (a : list Arg) :
  (forall l s, f (set_calls l s) = f s) -> keeps f (call c m a).
Proof. intros H s. apply H. Qed.

Lemma keeps_call_frames {B : Type} (f : GP -> B) (c : Collaborator) (m : String.string)
    (a : list Arg) :
  (forall l s, f (set_calls l s) = f s) -> keeps f (call_frames c m a).
Proof. intros H s. apply H. Qed.

Lemma keeps_call_samples {B : Type} (f : GP -> B) (c : Collaborator) (m : String.string)
    (a : list Arg) :
  (forall l s, f (set_calls l s) = f s) -> keeps f (call_samples c m a).
Proof. intros H s. apply H. Qed.

Lemma keeps_when {B : Type} (f : GP -> B) (b : bool) (c : M unit) :
  keeps f c -> keeps f (when b c).
Proof. intros H. destruct b; cbn [when]; [exact H | apply keeps_ret]. Qed.

Lemma keeps_if {A B : Type} (f : GP -> B) (b : bool) (c1 c2 : M A) :
  keeps f c1 -> keeps f c2 -> keeps f (if b then c1 else c2).
Proof. destruct b; auto. Qed.

Lemma keeps_for_each {A B : Type} (f : GP -> B) (xs : list A) (body : A -> M unit) :
  (forall x, keeps f (body x)) -> keeps f (for_each xs body).
Proof.
  intros H. induction xs as [| x xs IH]; cbn [for_each].
  - apply keeps_ret.
  - apply keeps_bind; auto.
Qed.

Lemma keeps_let_pair {A B C D : Type} (f : GP -> D) (p : A * B) (k : A -> B -> M C) :
  (forall a b, keeps f (k a b)) -> keeps f (let (a, b) := p in k a b).
Proof. destruct p; auto. Qed.

Ltac keeps_step :=
  first
    [ apply keeps_ret | apply keeps_get | apply keeps_ask
    | apply keeps_bind; [| intros ?]
    | apply keeps_modify; intros; reflexivity
    | apply keeps_when
    | apply keeps_for_each; intros ?
    | apply keeps_call; intros; reflexivity
    | apply keeps_call_frames; intros; reflexivity
    | apply keeps_call_samples; intros; reflexivity
    | apply keeps_let_pair; intros ? ?
    | apply keeps_if ].

Ltac keeps_all := repeat keeps_step.

(** The calls of the first half of the partitioning block. *)
Definition arena_calls (s : GP) : list Call :=
  let pt := partition s in
  let allocator := mkBufferAllocator (workspace pt) (workspace_size pt) in
  let (diffuser_buffer, allocator) := Allocate 4 2048 allocator in
  let (reverb_buffer, allocator) := Allocate 2 16384 allocator in
  let correlator_block_size := Z.quot kMaxWSOLASize 32 + 2 in
  let (correlator_data, allocator) := Allocate 4 (correlator_block_size * 3) allocator in
  [mkCall diffuser_ "Init" [APtr diffuser_buffer];
   mkCall (if playback_mode_ s =? PLAYBACK_MODE_OLIVERB then oliverb_ else reverb_)
          "Init" [APtr reverb_buffer];
   mkCall correlator_ "Init"
          [APtr correlator_data; APtr (ptr_add correlator_data (4 * correlator_block_size))];
   mkCall pitch_shifter_ "Init" [APtr correlator_data]].

Lemma allocate_workspace_calls (s0 s : GP) :
  playback_mode_ s = playback_mode_ s0 ->
  calls (exec (allocate_workspace (partition s0)) s) = calls s ++ arena_calls s0.
Proof.
  intros Hm. unfold allocate_workspace, arena_calls.
  rewrite exec_bind. cbn [get fst snd]. rewrite Hm.
  destruct (Allocate 4 2048 _) as [diffuser_buffer a1].
  destruct (Allocate 2 16384 a1) as [reverb_buffer a2].
  destruct (Allocate 4 _ a2) as [correlator_data a3].
  destruct (playback_mode_ s0 =? PLAYBACK_MODE_OLIVERB); cbn;
    rewrite <- ?app_assoc; reflexivity.
Qed.

Definition structural (s : GP) : Prop :=
  reset_buffers_ s = true \/ (playback_mode_changed s = true /\ benign_change s = false).

Lemma Prepare_structural_unfold (s : GP) :
  structural s ->
  exec Prepare s =
  exec prime (exec repartition
                (set_parameters_ (Parameters.set_freeze false (parameters_ s)) s)).
Proof.
  intros H. unfold Prepare. rewrite exec_bind. cbn [get fst snd].
  assert (C1 : negb (reset_buffers_ s) && playback_mode_changed s && benign_change s = false).
  { destruct H as [H | [H1 H2]]; rewrite ?H, ?H1, ?H2; cbn;
      rewrite ?andb_false_r; reflexivity. }
  assert (C2 : (playback_mode_changed s && negb (benign_change s)) || reset_buffers_ s = true).
  { destruct H as [H | [H1 H2]]; rewrite ?H, ?H1, ?H2; cbn;
      rewrite ?orb_true_r; reflexivity. }
  assert (C3 : reset_buffers_ s || (playback_mode_changed s && negb (benign_change s)) = true).
  { rewrite orb_comm. exact C2. }
  rewrite C1, C2, C3. cbn [when].
  rewrite !exec_bind. reflexivity.
Qed.

Lemma Prepare_structural (s : GP) :
  structural s ->
  Parameters.freeze (parameters_ (exec Prepare s)) = false
  /\ reset_buffers_ (exec Prepare s) = false
  /\ previous_playback_mode_ (exec Prepare s) = playback_mode_ s
  /\ exists rest, calls (exec Prepare s) = calls s ++ arena_calls s ++ rest.
Proof.
  intros H. rewrite (Prepare_structural_unfold s H).
  set (s0 := set_parameters_ (Parameters.set_freeze false (parameters_ s)) s).
  assert (Kp : forall B (f : GP -> B),
             (forall l s, f (set_calls l s) = f s) -> keeps f prime).
  { intros B f Hf. unfold prime. keeps_all; apply keeps_call; exact Hf. }
  assert (R : exec repartition s0 =
              set_previous_playback_mode_ (playback_mode_ s0)
                (set_reset_buffers_ false
                   (exec (init_engines (partition s0))
                         (exec (allocate_workspace (partition s0)) s0)))).
  { unfold repartition. rewrite !exec_bind. reflexivity. }
  assert (Ka : keeps parameters_ (allocate_workspace (partition s0))).
  { unfold allocate_workspace. keeps_all. }
  assert (Ki : keeps parameters_ (init_engines (partition s0))).
  { unfold init_engines. keeps_all. }
  unfold exec in *.
  repeat split.
  - rewrite (Kp _ (fun s => Parameters.freeze (parameters_ s))) by reflexivity.
    rewrite R. cbn [set_previous_playback_mode_ set_reset_buffers_ parameters_].
    rewrite Ki, Ka. reflexivity.
  - rewrite (Kp _ reset_buffers_) by reflexivity. rewrite R. reflexivity.
  - rewrite (Kp _ previous_playback_mode_) by reflexivity. rewrite R. reflexivity.
  - destruct (emits_prime (snd (repartition s0))) as (d2 & E2 & _).
    destruct (emits_init_engines (partition s0) (snd (allocate_workspace (partition s0) s0)))
      as (d1 & E1 & _).
    exists (d1 ++ d2). rewrite E2, R.
    cbn [set_previous_playback_mode_ set_reset_buffers_ calls].
    rewrite E1. fold (exec (allocate_workspace (partition s0)) s0).
    rewrite (allocate_workspace_calls s0 s0) by reflexivity.
    rewrite <- !app_assoc. reflexivity.
Qed.

(** ** The recording stage of [ProcessGranular] *)

(** The call [buffer[i].WriteFade(&input_samples[i], size, 2, play)] on
    the ring buffer of the resolution in use. *)
Definition write_fade_call (s : GP) (input : list FloatFrame.t) (size : Z) (i : Z) : Call :=
  mkCall (ring_buffer (resolution s) i) "WriteFade"
         [ASamples (channel i (firstn (Z.to_nat size) input)); AZ size; AZ 2;
          AB (play_flag s)].

Lemma exec_write_fade (samples : list float) (size : Z) (play : bool) (i : Z) (s : GP) :
  low_fidelity_ (exec (write_fade samples size play i) s) = low_fidelity_ s
  /\ calls (exec (write_fade samples size play i) s) =
     calls s ++ [mkCall (ring_buffer (resolution s) i) "WriteFade"
                        [ASamples samples; AZ size; AZ 2; AB play]].
Proof.
  unfold write_fade, resolution. rewrite exec_get_bind.
  destruct (low_fidelity_ s) eqn:E; cbn [Z.eqb Pos.eqb];
    rewrite exec_bind; split; try reflexivity; cbn; exact E.
Qed.

Lemma for_each_write_fade (samples : Z -> list float) (size : Z) (play : bool)
    (xs : list Z) (s : GP) :
  calls (exec (for_each xs (fun i => write_fade (samples i) size play i)) s) =
  calls s ++ map (fun i => mkCall (ring_buffer (resolution s) i) "WriteFade"
                                  [ASamples (samples i); AZ size; AZ 2; AB play]) xs.
Proof.
  revert s. induction xs as [| x xs IH]; intros s; cbn [for_each map].
  - rewrite exec_ret, app_nil_r. reflexivity.
  - rewrite exec_bind.
    change (snd (write_fade (samples x) size play x s))
      with (exec (write_fade (samples x) size play x) s).
    destruct (exec_write_fade (samples x) size play x s) as [L C].
    rewrite IH, C. unfold resolution. rewrite L. rewrite <- app_assoc. reflexivity.
Qed.

Lemma record_input_calls (input : list FloatFrame.t) (size : Z) (s : GP) :
  records_input s = true ->
  calls (exec (record_input input size) s) =
  calls s ++ map (write_fade_call s input size) (channels s).
Proof.
  intros H. unfold record_input. rewrite exec_get_bind, H. cbn [when].
  apply (for_each_write_fade
           (fun i => channel i (firstn (Z.to_nat size) input)) size (play_flag s)).
Qed.

Lemma record_input_idle (input : list FloatFrame.t) (size : Z) (s : GP) :
  records_input s = false -> exec (record_input input size) s = s.
Proof.
  intros H. unfold record_input. rewrite exec_get_bind, H. reflexivity.
Qed.

Lemma ProcessGranular_dispatch (input output : list FloatFrame.t) (size : Z) :
  ProcessGranular input output size =
  bind (record_input input size) (fun _ => dispatch input output size).
Proof. reflexivity. Qed.



(** The ring buffers of the resolution in use. *)
Definition recording_buffers (s : GP) : AudioBuffer * AudioBuffer :=
  if resolution s =? 8 then buffer_8_ s else buffer_16_ s.

Lemma channels_1 (s : GP) : num_channels_ s = 1 -> channels s = [0].
Proof. intros H. unfold channels. rewrite H. reflexivity. Qed.

Lemma channels_2 (s : GP) : num_channels_ s = 2 -> channels s = [0; 1].
Proof. intros H. unfold channels. rewrite H. reflexivity. Qed.


(** The recording stage writes the samples to the memory of the ring
    buffers: the bytes of the region of each channel in use are those
    the ring buffer leaves there. *)
Lemma record_input_region (input : list FloatFrame.t) (size : Z) (s : GP) (i : Z) :
  records_input s = true ->
  num_channels_ s = 1 \/ num_channels_ s = 2 ->
  In i (channels s) ->
  at2 i (buffer_ (exec (record_input input size) s)) =
  WriteFade_bytes (channel i (firstn (Z.to_nat size) input)) size 2 (play_flag s)
                  (at2 i (recording_buffers s)) (at2 i (buffer_ s)).
Proof.
  intros H Hn Hi. unfold record_input. rewrite exec_get_bind, H. cbn [when].
  destruct Hn as [Hn | Hn].
  - rewrite (channels_1 s Hn) in *. destruct Hi as [<- | []].
    unfold recording_buffers, exec, for_each, write_fade, bind, get, modify, call, ret;
      unfold resolution.
    destruct (low_fidelity_ s) eqn:E; cbn; rewrite ?E; reflexivity.
  - rewrite (channels_2 s Hn) in *.
    unfold recording_buffers, exec, for_each, write_fade, bind, get, modify, call, ret;
      unfold resolution.
    destruct Hi as [<- | [<- | []]];
      destruct (low_fidelity_ s) eqn:E; cbn; rewrite ?E; cbn; rewrite ?E; reflexivity.
Qed.

(** ** The engines of the partitioning block *)

(** The call [buffer_8_[i].Init(...)] or [buffer_16_[i].Init(...)] of the
    partitioning block: the ring buffer of the resolution in use is given
    the memory of channel [i], counted in samples. *)
Definition ring_buffer_init_call (s : GP) (i : Z) : Call :=
  mkCall (ring_buffer (resolution s) i) "Init"
         [APtr (at2 i (buffer (partition s)));
          AZ (if low_fidelity_ s then at2 i (buffer_size (partition s))
              else Z.shiftr (at2 i (buffer_size (partition s))) 1);
          AName "tail_buffer_"; AZ i].

(** The call that initializes the phase vocoder over both sample
    memories. *)
Definition phase_vocoder_init_call (s : GP) (transformation : String.string) : Call :=
  mkCall phase_vocoder_ "Init"
         [AName transformation;
          APtr (fst (buffer (partition s))); APtr (snd (buffer (partition s)));
          AZ (fst (buffer_size (partition s))); AZ (snd (buffer_size (partition s)));
          AName "lut_sine_window_4096"; AZ 4096;
          AZ (num_channels_ s); AZ (resolution s); AF (sample_rate s)].

(** The number of grains the granular player is initialized with. *)
Definition num_grains (s : GP) : Z :=
  if num_channels_ s =? 1
  then (if low_fidelity_ s then 57 else 40)
  else (if low_fidelity_ s then 46 else 32).

(** The calls of the second half of the partitioning block. *)
Definition engine_calls (s : GP) : list Call :=
  if playback_mode_ s =? PLAYBACK_MODE_SPECTRAL then
    [phase_vocoder_init_call s "TRANSFORMATION_TYPE_FRAME"]
  else if playback_mode_ s =? PLAYBACK_MODE_SPECTRAL_CLOUD then
    [phase_vocoder_init_call s "TRANSFORMATION_TYPE_SPECTRAL_CLOUD"]
  else if playback_mode_ s =? PLAYBACK_MODE_RESONESTOR then
    [mkCall resonestor_ "Init" [APtr (At 0 0)]]
  else
    map (ring_buffer_init_call s) (channels s)
    ++ [mkCall player_ "Init" [AZ (num_channels_ s); AZ (num_grains s)];
        mkCall ws_player_ "Init" [AName "correlator_"; AZ (num_channels_ s)];
        mkCall looper_ "Init" [AZ (num_channels_ s)];
        mkCall kammerl_ "Init" [AZ (num_channels_ s)]].

(** The modes whose engines run on the ring buffers. *)
Definition ring_buffer_mode (s : GP) : Prop :=
  playback_mode_ s <> PLAYBACK_MODE_SPECTRAL
  /\ playback_mode_ s <> PLAYBACK_MODE_SPECTRAL_CLOUD
  /\ playback_mode_ s <> PLAYBACK_MODE_RESONESTOR.

Lemma exec_init_ring_buffer (s0 : GP) (i : Z) (s : GP) :
  low_fidelity_ s = low_fidelity_ s0 ->
  low_fidelity_ (exec (init_ring_buffer (partition s0) i) s) = low_fidelity_ s0
  /\ calls (exec (init_ring_buffer (partition s0) i) s)
     = calls s ++ [ring_buffer_init_call s0 i].
Proof.
  intros L. unfold init_ring_buffer, ring_buffer_init_call, resolution.
  rewrite exec_get_bind, L.
  destruct (low_fidelity_ s0) eqn:E; cbn [Z.eqb Pos.eqb];
    rewrite exec_bind; split; try reflexivity; cbn; exact L.
Qed.

Lemma for_each_init_ring_buffer (s0 : GP) (xs : list Z) (s : GP) :
  low_fidelity_ s = low_fidelity_ s0 ->
  low_fidelity_ (exec (for_each xs (init_ring_buffer (partition s0))) s) = low_fidelity_ s0
  /\ calls (exec (for_each xs (init_ring_buffer (partition s0))) s)
     = calls s ++ map (ring_buffer_init_call s0) xs.
Proof.
  revert s. induction xs as [| x xs IH]; intros s L; cbn [for_each map].
  - rewrite exec_ret, app_nil_r. auto.
  - rewrite exec_bind.
    change (snd (init_ring_buffer (partition s0) x s))
      with (exec (init_ring_buffer (partition s0) x) s).
    destruct (exec_init_ring_buffer s0 x s L) as [L1 C1].
    destruct (IH _ L1) as [L2 C2].
    split; [exact L2 |]. rewrite C2, C1, <- app_assoc. reflexivity.
Qed.

Lemma num_grains_spec (s : GP) :
  Z.shiftr ((if num_channels_ s =? 1 then 40 else 32)
            * (if low_fidelity_ s then 23 else 16)) 4 = num_grains s.
Proof.
  unfold num_grains. destruct (num_channels_ s =? 1), (low_fidelity_ s); reflexivity.
Qed.

Lemma snoc_4 {A : Type} (l m : list A) (a b c d : A) :
  ((((l ++ m) ++ [a]) ++ [b]) ++ [c]) ++ [d] = l ++ m ++ [a; b; c; d].
Proof. rewrite <- !app_assoc. reflexivity. Qed.

Lemma init_engines_calls (s0 s : GP) :
  playback_mode_ s = playback_mode_ s0 ->
  num_channels_ s = num_channels_ s0 ->
  low_fidelity_ s = low_fidelity_ s0 ->
  calls (exec (init_engines (partition s0)) s) = calls s ++ engine_calls s0.
Proof.
  intros Hm Hn Hl. unfold init_engines, engine_calls, phase_vocoder_init_call.
  rewrite exec_get_bind. unfold sample_rate, resolution, channels.
  rewrite Hm, Hn, Hl, num_grains_spec.
  destruct (playback_mode_ s0 =? PLAYBACK_MODE_SPECTRAL); [reflexivity |].
  destruct (playback_mode_ s0 =? PLAYBACK_MODE_SPECTRAL_CLOUD); [reflexivity |].
  destruct (playback_mode_ s0 =? PLAYBACK_MODE_RESONESTOR).
  { unfold partition. destruct (num_channels_ s0 =? 1); reflexivity. }
  rewrite !exec_bind.
  repeat match goal with
         | |- context [snd (?c ?x)] => change (snd (c x)) with (exec c x)
         end.
  rewrite !exec_call. cbn [calls set_calls].
  destruct (for_each_init_ring_buffer s0 (channels s0) s Hl) as [_ C].
  unfold channels in C. rewrite C. apply snoc_4.
Qed.

(** The ring buffers in use after the second half of the partitioning
    block, in a mode that runs on them. *)
Lemma init_engines_ring_buffers (s0 s : GP) (i : Z) :
  playback_mode_ s = playback_mode_ s0 ->
  num_channels_ s = num_channels_ s0 ->
  low_fidelity_ s = low_fidelity_ s0 ->
  ring_buffer_mode s0 ->
  num_channels_ s0 = 1 \/ num_channels_ s0 = 2 ->
  In i (channels s0) ->
  at2 i (active_buffers (exec (init_engines (partition s0)) s))
  = AudioBuffer_Init (at2 i (buffer (partition s0)))
      (if low_fidelity_ s0 then at2 i (buffer_size (partition s0))
       else Z.shiftr (at2 i (buffer_size (partition s0))) 1)
      i (at2 i (active_buffers s)).
Proof.
  intros Hm Hn Hl (M1 & M2 & M3) Hc Hi.
  apply Z.eqb_neq in M1, M2, M3.
  unfold init_engines. rewrite exec_get_bind, Hm, M1, M2, M3.
  replace (channels s) with (channels s0) by (unfold channels; rewrite Hn; reflexivity).
  destruct Hc as [Hc | Hc].
  - rewrite (channels_1 s0 Hc) in *. destruct Hi as [<- | []].
    unfold active_buffers, exec, for_each, init_ring_buffer, bind, get, modify, call, ret;
      unfold resolution.
    destruct (low_fidelity_ s0) eqn:E; repeat (progress (cbn; rewrite ?Hl)); reflexivity.
  - rewrite (channels_2 s0 Hc) in *.
    unfold active_buffers, exec, for_each, init_ring_buffer, bind, get, modify, call, ret;
      unfold resolution.
    destruct Hi as [<- | [<- | []]];
      destruct (low_fidelity_ s0) eqn:E; repeat (progress (cbn; rewrite ?Hl)); reflexivity.
Qed.

Lemma keeps_prime {B : Type} (f : GP -> B) :
  (forall l s, f (set_calls l s) = f s) -> keeps f prime.
Proof. intros Hf. unfold prime. keeps_all; apply keeps_call; exact Hf. Qed.

Lemma keeps_allocate_workspace {B : Type} (f : GP -> B) (pt : Partition) :
  (forall l s, f (set_calls l s) = f s) -> keeps f (allocate_workspace pt).
Proof. intros Hf. unfold allocate_workspace. keeps_all; apply keeps_call; exact Hf. Qed.

Lemma exec_repartition (s : GP) :
  exec repartition s
  = set_previous_playback_mode_ (playback_mode_ s)
      (set_reset_buffers_ false
         (exec (init_engines (partition s)) (exec (allocate_workspace (partition s)) s))).
Proof. unfold repartition. rewrite !exec_bind. reflexivity. Qed.

(** The log of a structural [Prepare]: the arena, the engines and the
    priming block, in this order. *)
Lemma Prepare_structural_calls (s : GP) :
  structural s ->
  calls (exec Prepare s) = calls s ++ arena_calls s ++ engine_calls s ++ prime_calls s.
Proof.
  intros H. rewrite (Prepare_structural_unfold s H).
  set (s0 := set_parameters_ (Parameters.set_freeze false (parameters_ s)) s).
  rewrite exec_prime, exec_repartition.
  set (sa := exec (allocate_workspace (partition s0)) s0).
  assert (Am : playback_mode_ sa = playback_mode_ s0)
    by (apply (keeps_allocate_workspace playback_mode_); reflexivity).
  assert (An : num_channels_ sa = num_channels_ s0)
    by (apply (keeps_allocate_workspace num_channels_); reflexivity).
  assert (Al : low_fidelity_ sa = low_fidelity_ s0)
    by (apply (keeps_allocate_workspace low_fidelity_); reflexivity).
  set (se := exec (init_engines (partition s0)) sa).
  assert (Em : playback_mode_ se = playback_mode_ s0).
  { rewrite <- Am. unfold se, exec, init_engines, init_ring_buffer. keeps_all. }
  assert (El : low_fidelity_ se = low_fidelity_ s0).
  { rewrite <- Al. unfold se, exec, init_engines, init_ring_buffer. keeps_all. }
  assert (Ec : calls se = calls s ++ arena_calls s ++ engine_calls s).
  { unfold se. rewrite (init_engines_calls s0 sa Am An Al).
    unfold sa. rewrite (allocate_workspace_calls s0 s0) by reflexivity.
    rewrite <- app_assoc. reflexivity. }
  unfold prime_calls, resolution.
  cbn [calls set_calls set_previous_playback_mode_ set_reset_buffers_ playback_mode_
       low_fidelity_].
  rewrite Ec, Em, El, <- !app_assoc. reflexivity.
Qed.

(** A structural [Prepare] changes the parameters by disengaging
    freeze, and nothing else in them. *)
Lemma Prepare_structural_parameters (s : GP) :
  structural s ->
  parameters_ (exec Prepare s) = Parameters.set_freeze false (parameters_ s).
Proof.
  intros H. rewrite (Prepare_structural_unfold s H).
  set (s0 := set_parameters_ (Parameters.set_freeze false (parameters_ s)) s).
  unfold exec at 1. rewrite (keeps_prime parameters_) by reflexivity.
  fold (exec repartition s0). rewrite exec_repartition.
  change (parameters_ (set_previous_playback_mode_ ?v (set_reset_buffers_ ?w ?x)))
    with (parameters_ x).
  assert (Ki : keeps parameters_ (init_engines (partition s0))).
  { unfold init_engines, init_ring_buffer. keeps_all. }
  unfold exec. rewrite Ki.
  rewrite (keeps_allocate_workspace parameters_) by reflexivity. reflexivity.
Qed.

(** The ring buffers in use after a structural [Prepare], in a mode that
    runs on them. *)
Lemma Prepare_structural_ring_buffers (s : GP) (i : Z) :
  structural s ->
  ring_buffer_mode s ->
  num_channels_ s = 1 \/ num_channels_ s = 2 ->
  In i (channels s) ->
  at2 i (active_buffers (exec Prepare s))
  = AudioBuffer_Init (at2 i (buffer (partition s)))
      (if low_fidelity_ s then at2 i (buffer_size (partition s))
       else Z.shiftr (at2 i (buffer_size (partition s))) 1)
      i (at2 i (active_buffers s)).
Proof.
  intros H Hr Hn Hi. rewrite (Prepare_structural_unfold s H).
  set (s0 := set_parameters_ (Parameters.set_freeze false (parameters_ s)) s).
  unfold exec at 1. rewrite (keeps_prime active_buffers) by reflexivity.
  fold (exec repartition s0). rewrite exec_repartition.
  set (sa := exec (allocate_workspace (partition s0)) s0).
  assert (Am : playback_mode_ sa = playback_mode_ s0)
    by (apply (keeps_allocate_workspace playback_mode_); reflexivity).
  assert (An : num_channels_ sa = num_channels_ s0)
    by (apply (keeps_allocate_workspace num_channels_); reflexivity).
  assert (Al : low_fidelity_ sa = low_fidelity_ s0)
    by (apply (keeps_allocate_workspace low_fidelity_); reflexivity).
  assert (Ab : active_buffers sa = active_buffers s0)
    by (apply (keeps_allocate_workspace active_buffers); reflexivity).
  change (active_buffers (set_previous_playback_mode_ ?v (set_reset_buffers_ ?w ?x)))
    with (active_buffers x).
  rewrite (init_engines_ring_buffers s0 sa i Am An Al Hr Hn Hi), Ab. reflexivity.
Qed.


(** ** The persistence protocol *)

(** The blocks [blocks] copied one after the other from position [off] of
    the stream, and the position of the stream after them. *)
Fixpoint copy_blocks (blocks : list PersistentBlock.t) (data : list Z) (off : Z) (s : GP) : GP :=
  match blocks with
  | [] => s
  | b :: rest => copy_blocks rest data (next_block b off) (exec (copy_block b data (off + 2)) s)
  end.

Fixpoint offset_after (blocks : list PersistentBlock.t) (off : Z) : Z :=
  match blocks with
  | [] => off
  | b :: rest => offset_after rest (next_block b off)
  end.

(** The stream holds, from position [off], the tag and the size of each
    of [blocks] where the loop expects them. *)
Fixpoint formats_ok (blocks : list PersistentBlock.t) (data : list Z) (off : Z) : bool :=
  match blocks with
  | [] => true
  | b :: rest => format_ok b data off && formats_ok rest data (next_block b off)
  end.

(** The [memcpy] calls of [copy_blocks]. *)
Fixpoint memcpy_calls (blocks : list PersistentBlock.t) (off : Z) : list Call :=
  match blocks with
  | [] => []
  | b :: rest =>
      mkCall libc "memcpy"
             [AData (PersistentBlock.data b); AZ (off + 2); AZ (PersistentBlock.size b)]
      :: memcpy_calls rest (next_block b off)
  end.

Definition not_libc (c : Call) : Prop :=
  match target c with libc => False | _ => True end.

Lemma run_modify_ret {A : Type} (f : GP -> GP) (x : A) (s : GP) :
  bind (modify f) (fun _ => ret x) s = (x, f s).
Proof. reflexivity. Qed.

Lemma load_blocks_mismatch (pre post : list PersistentBlock.t) (b : PersistentBlock.t)
    (data : list Z) (off : Z) (s : GP) :
  formats_ok pre data off = true ->
  format_ok b data (offset_after pre off) = false ->
  load_blocks (pre ++ b :: post) data off s =
  (false, set_silence_ false (copy_blocks pre data off s)).
Proof.
  revert off s. induction pre as [| p pre IH]; intros off s Hpre Hb; cbn [app load_blocks].
  - cbn [offset_after] in Hb. rewrite Hb. reflexivity.
  - cbn [formats_ok] in Hpre. apply andb_true_iff in Hpre. destruct Hpre as [Hp Hpre].
    rewrite Hp. rewrite run_bind. cbn [copy_blocks offset_after] in *.
    apply IH; assumption.
Qed.

Lemma load_blocks_ok (blocks : list PersistentBlock.t) (data : list Z) (off : Z) (s : GP) :
  formats_ok blocks data off = true ->
  load_blocks blocks data off s = finish_load (copy_blocks blocks data off s).
Proof.
  revert off s. induction blocks as [| b blocks IH]; intros off s H; cbn [load_blocks].
  - reflexivity.
  - cbn [formats_ok] in H. apply andb_true_iff in H. destruct H as [Hb H].
    rewrite Hb, run_bind. cbn [copy_blocks]. apply IH. exact H.
Qed.

Lemma copy_blocks_calls (blocks : list PersistentBlock.t) (data : list Z) (off : Z) (s : GP) :
  calls (copy_blocks blocks data off s) = calls s ++ memcpy_calls blocks off.
Proof.
  revert off s. induction blocks as [| b blocks IH]; intros off s; cbn [copy_blocks memcpy_calls].
  - rewrite app_nil_r. reflexivity.
  - rewrite IH. unfold copy_block. rewrite exec_bind.
    change (calls (exec ?c ?x)) with (calls (snd (c x))).
    cbn [call modify snd calls set_calls]. rewrite <- app_assoc.
    destruct (PersistentBlock.data b); reflexivity.
Qed.

(** The state in which the loop reaches the buffer blocks: silence is
    forced, the state block is copied, the mode and the quality are
    aligned with it and [Prepare] has run. *)
Definition after_first_block (data : list Z) (s : GP) : GP :=
  exec after_state_block (exec (copy_block state_block data 2) (set_silence_ true s)).

Lemma LoadPersistentData_first_ok (data : list Z) (s : GP) :
  format_ok state_block data 0 = true ->
  LoadPersistentData data s =
  load_blocks (buffer_blocks (after_first_block data s)) data (next_block state_block 0)
              (after_first_block data s).
Proof.
  intros H. unfold LoadPersistentData. rewrite run_bind. cbn [modify fst snd].
  rewrite H. rewrite !run_bind. reflexivity.
Qed.

Lemma LoadPersistentData_first_mismatch (data : list Z) (s : GP) :
  format_ok state_block data 0 = false ->
  LoadPersistentData data s = (false, set_silence_ false s).
Proof.
  intros H. unfold LoadPersistentData. rewrite run_bind. cbn [modify fst snd].
  rewrite H. rewrite run_modify_ret. f_equal.
Qed.

Lemma emits_Prepare : emits not_libc Prepare.
Proof.
  unfold Prepare, ResetFilters, repartition, allocate_workspace, init_engines, prime.
  emits_all ltac:(exact I).
Qed.

Lemma emits_after_state_block : emits not_libc after_state_block.
Proof.
  unfold after_state_block. emits_all ltac:(exact I).
Qed.

Lemma after_first_block_calls (data : list Z) (s : GP) :
  exists d,
    calls (after_first_block data s) =
    calls s ++ mkCall libc "memcpy" [AData StateData; AZ 2; AZ PersistentState.sizeof] :: d
    /\ Forall not_libc d.
Proof.
  unfold after_first_block.
  destruct (emits_after_state_block (exec (copy_block state_block data 2) (set_silence_ true s)))
    as (d & E & F).
  exists d. split; [| exact F].
  unfold exec at 1. rewrite E. unfold copy_block. rewrite exec_bind.
  cbn [call modify snd fst calls set_calls exec state_block PersistentBlock.data
       PersistentBlock.size set_persistent_state_ set_silence_].
  rewrite <- app_assoc. reflexivity.
Qed.

Lemma keeps_Prepare {B : Type} (f : GP -> B) :
  (forall l s, f (set_calls l s) = f s) ->
  (forall v s, f (set_previous_playback_mode_ v s) = f s) ->
  (forall v s, f (set_parameters_ v s) = f s) ->
  (forall v s, f (set_reset_buffers_ v s) = f s) ->
  (forall v s, f (set_buffer_8_ v s) = f s) ->
  (forall v s, f (set_buffer_16_ v s) = f s) ->
  (forall v s, f (set_buffer_ v s) = f s) ->
  keeps f Prepare.
Proof.
  intros Hc Hv Hp Hr H8 H16 Hb.
  unfold Prepare, ResetFilters, repartition, allocate_workspace, init_engines, prime,
    init_ring_buffer.
  repeat first
    [ apply keeps_ret | apply keeps_get
    | apply keeps_bind; [| intros ?]
    | apply keeps_modify; intros; rewrite ?Hb; solve [auto]
    | apply keeps_when
    | apply keeps_for_each; intros ?
    | apply keeps_call; exact Hc
    | apply keeps_let_pair; intros ? ?
    | apply keeps_if ].
Qed.

Ltac keeps_Prepare_field := apply keeps_Prepare; intros; reflexivity.

Lemma Prepare_playback_mode (s : GP) : playback_mode_ (exec Prepare s) = playback_mode_ s.
Proof. apply (keeps_Prepare playback_mode_); intros; reflexivity. Qed.

Lemma Prepare_num_channels (s : GP) : num_channels_ (exec Prepare s) = num_channels_ s.
Proof. apply (keeps_Prepare num_channels_); intros; reflexivity. Qed.

Lemma Prepare_low_fidelity (s : GP) : low_fidelity_ (exec Prepare s) = low_fidelity_ s.
Proof. apply (keeps_Prepare low_fidelity_); intros; reflexivity. Qed.

Lemma Prepare_buffer_size (s : GP) : buffer_size_ (exec Prepare s) = buffer_size_ s.
Proof. apply (keeps_Prepare buffer_size_); intros; reflexivity. Qed.

Lemma Prepare_persistent_state (s : GP) : persistent_state_ (exec Prepare s) = persistent_state_ s.
Proof. apply (keeps_Prepare persistent_state_); intros; reflexivity. Qed.

Lemma Prepare_silence (s : GP) : silence_ (exec Prepare s) = silence_ s.
Proof. apply (keeps_Prepare silence_); intros; reflexivity. Qed.

(** After [Prepare] the processor is prepared for the active mode: the
    reset-buffers flag is clear and the previous mode is the active
    one. *)
Lemma Prepare_prepared (s : GP) :
  reset_buffers_ (exec Prepare s) = false
  /\ previous_playback_mode_ (exec Prepare s) = playback_mode_ (exec Prepare s).
Proof.
  rewrite Prepare_playback_mode.
  destruct (reset_buffers_ s) eqn:Hr.
  - destruct (Prepare_structural s) as (_ & R & V & _); [left; exact Hr | auto].
  - destruct (playback_mode_changed s) eqn:Hc.
    + destruct (benign_change s) eqn:Hb.
      * rewrite (Prepare_benign s Hr Hc Hb). split; [exact Hr | reflexivity].
      * destruct (Prepare_structural s) as (_ & R & V & _); [right; auto | auto].
    + unfold Prepare. rewrite exec_get_bind, Hr, Hc. cbn [negb andb orb when].
      rewrite !exec_bind. cbn [ret fst snd]. rewrite exec_prime.
      cbn [reset_buffers_ previous_playback_mode_ set_calls]. split; [exact Hr |].
      unfold playback_mode_changed in Hc. apply negb_false_iff in Hc.
      apply Z.eqb_eq in Hc. exact Hc.
Qed.

Lemma format_ok_false_iff (b : PersistentBlock.t) (data : list Z) (off : Z) :
  format_ok b data off = false <->
  PersistentBlock.tag b <> word data off \/ PersistentBlock.size b <> word data (off + 1).
Proof.
  unfold format_ok. rewrite andb_false_iff, !Z.eqb_neq. tauto.
Qed.

(** C2 -- Load-format validation.  Whatever the stream, if at block [i]
    the tag word or the size word of the stream differs from the block
    the processor expects there, [LoadPersistentData] returns false with
    the silence flag cleared, and the state is the one reached by copying
    the blocks before [i] only: neither block [i] nor a later one is
    copied.  Block 0 is the state block; the blocks after it are those
    computed once the state block has been applied. *)
Theorem LoadPersistentData_format_mismatch (data : list Z) (s : GP) :
  (PersistentBlock.tag state_block <> word data 0
   \/ PersistentBlock.size state_block <> word data 1 ->
   LoadPersistentData data s = (false, set_silence_ false s)
   /\ silence_ (snd (LoadPersistentData data s)) = false
   /\ calls (snd (LoadPersistentData data s)) = calls s)
  /\ (format_ok state_block data 0 = true ->
      forall pre b post,
        buffer_blocks (after_first_block data s) = pre ++ b :: post ->
        formats_ok pre data (next_block state_block 0) = true ->
        PersistentBlock.tag b <> word data (offset_after pre (next_block state_block 0))
        \/ PersistentBlock.size b <> word data (offset_after pre (next_block state_block 0) + 1) ->
        LoadPersistentData data s =
        (false,
         set_silence_ false
           (copy_blocks pre data (next_block state_block 0) (after_first_block data s)))
        /\ silence_ (snd (LoadPersistentData data s)) = false
        /\ calls (snd (LoadPersistentData data s)) =
           calls (after_first_block data s) ++ memcpy_calls pre (next_block state_block 0)).
Proof.
  split.
  - intros H. apply (format_ok_false_iff state_block data 0) in H.
    rewrite (LoadPersistentData_first_mismatch data s H). auto.
  - intros H0 pre b post Hblocks Hpre Hb.
    apply format_ok_false_iff in Hb.
    rewrite (LoadPersistentData_first_ok data s H0), Hblocks.
    rewrite (load_blocks_mismatch pre post b data _ _ Hpre Hb).
    cbn [snd]. split; [reflexivity | split; [reflexivity |]].
    cbn [calls set_silence_]. apply copy_blocks_calls.
Qed.

(** The processor once the state block is copied, before the mode and
    the quality are aligned with it. *)
Definition state_block_copied (data : list Z) (s : GP) : GP :=
  exec (copy_block state_block data 2) (set_silence_ true s).

Lemma after_state_block_switch (s : GP) :
  currently_spectral s <> PersistentState.spectral (persistent_state_ s) ->
  exec after_state_block s =
  exec Prepare
    (set_quality (PersistentState.quality (persistent_state_ s))
       (set_playback_mode
          (if PersistentState.spectral (persistent_state_ s) =? 0
           then PLAYBACK_MODE_GRANULAR
           else PersistentState.spectral (persistent_state_ s)) s)).
Proof.
  intros H. unfold after_state_block. rewrite exec_get_bind.
  assert (E : (Z.lxor (currently_spectral s) (PersistentState.spectral (persistent_state_ s))
               =? 0) = false).
  { apply Z.eqb_neq. intros C. apply H. apply Z.lxor_eq. exact C. }
  rewrite E. cbn [negb when]. rewrite !exec_bind.
  destruct (PersistentState.spectral (persistent_state_ s) =? 0); reflexivity.
Qed.

Lemma after_state_block_same (s : GP) :
  currently_spectral s = PersistentState.spectral (persistent_state_ s) ->
  exec after_state_block s =
  exec Prepare (set_quality (PersistentState.quality (persistent_state_ s)) s).
Proof.
  intros H. unfold after_state_block. rewrite exec_get_bind.
  rewrite H, Z.lxor_nilpotent. cbn [Z.eqb negb when]. rewrite !exec_bind. reflexivity.
Qed.

(** C3 -- Self-healing mode switch during load.  Once the state block is
    copied, if the stored spectral indicator differs from the one computed
    from the active mode, the active mode becomes the stored mode (GRANULAR
    when the stored indicator is zero), the channel count and the
    resolution are set from the stored quality, and [Prepare] runs: the
    loop goes on to the buffer blocks from the state [Prepare] leaves,
    prepared for the stored mode, in which no buffer block has been
    copied yet. *)
Theorem LoadPersistentData_mode_switch (data : list Z) (s : GP) :
  format_ok state_block data 0 = true ->
  currently_spectral s <> PersistentState.spectral (memcpy_state data 2) ->
  let stored := memcpy_state data 2 in
  let stored_mode :=
    if PersistentState.spectral stored =? 0
    then PLAYBACK_MODE_GRANULAR
    else PersistentState.spectral stored in
  let s2 := after_first_block data s in
  playback_mode_ s2 = stored_mode
  /\ num_channels_ s2 = quality_num_channels (PersistentState.quality stored)
  /\ low_fidelity_ s2 = quality_low_fidelity (PersistentState.quality stored)
  /\ reset_buffers_ s2 = false
  /\ previous_playback_mode_ s2 = stored_mode
  /\ s2 = exec Prepare
            (set_quality (PersistentState.quality stored)
               (set_playback_mode stored_mode (state_block_copied data s)))
  /\ (exists d,
         calls s2 =
         calls s ++ mkCall libc "memcpy" [AData StateData; AZ 2; AZ PersistentState.sizeof] :: d
         /\ Forall not_libc d)
  /\ LoadPersistentData data s =
     load_blocks (buffer_blocks s2) data (next_block state_block 0) s2.
Proof.
  intros Hf Hd stored stored_mode s2.
  assert (E : s2 = exec Prepare
                     (set_quality (PersistentState.quality stored)
                        (set_playback_mode stored_mode (state_block_copied data s)))).
  { unfold s2, after_first_block.
    fold (state_block_copied data s).
    rewrite (after_state_block_switch (state_block_copied data s)); [reflexivity |].
    exact Hd. }
  destruct (Prepare_prepared
              (set_quality (PersistentState.quality stored)
                 (set_playback_mode stored_mode (state_block_copied data s)))) as [R V].
  rewrite <- E in R, V.
  assert (Pm : playback_mode_ s2 = stored_mode).
  { rewrite E, Prepare_playback_mode. reflexivity. }
  split; [exact Pm |].
  split; [rewrite E, Prepare_num_channels; reflexivity |].
  split; [rewrite E, Prepare_low_fidelity; reflexivity |].
  split; [exact R |].
  split; [rewrite V; exact Pm |].
  split; [exact E |].
  split; [apply after_first_block_calls |].
  apply LoadPersistentData_first_ok. exact Hf.
Qed.

(** *** The stream written by the save side *)

Lemma word_app_at (pfx rest : list Z) (x : Z) :
  word (pfx ++ x :: rest) (Z.of_nat (length pfx)) = x.
Proof. unfold word. rewrite Nat2Z.id. apply nth_middle. Qed.

Lemma word_app_at1 (pfx rest : list Z) (x y : Z) :
  word (pfx ++ x :: y :: rest) (Z.of_nat (length pfx) + 1) = y.
Proof.
  replace (pfx ++ x :: y :: rest) with ((pfx ++ [x]) ++ y :: rest)
    by (rewrite <- app_assoc; reflexivity).
  replace (Z.of_nat (length pfx) + 1) with (Z.of_nat (length (pfx ++ [x])))
    by (rewrite length_app; cbn [length]; lia).
  apply word_app_at.
Qed.

(** One block of the stream: tag, size, payload. *)
Definition block_words (s : GP) (b : PersistentBlock.t) : list Z :=
  PersistentBlock.tag b :: PersistentBlock.size b :: payload_words s b.

Lemma formats_ok_stream (s : GP) (blocks : list PersistentBlock.t) (pfx : list Z) :
  (forall b, In b blocks ->
             Z.of_nat (length (payload_words s b)) = Z.quot (PersistentBlock.size b) 4) ->
  formats_ok blocks (pfx ++ flat_map (block_words s) blocks) (Z.of_nat (length pfx)) = true.
Proof.
  revert pfx. induction blocks as [| b blocks IH]; intros pfx H; cbn [formats_ok flat_map].
  - reflexivity.
  - apply andb_true_iff. split.
    + unfold format_ok, block_words. cbn [app].
      rewrite word_app_at, word_app_at1, !Z.eqb_refl. reflexivity.
    + replace (next_block b (Z.of_nat (length pfx)))
        with (Z.of_nat (length (pfx ++ block_words s b))).
      * rewrite app_assoc. apply IH. intros b' Hb'. apply H. right. exact Hb'.
      * unfold next_block, block_words. rewrite length_app. cbn [length].
        rewrite <- (H b (or_introl eq_refl)). lia.
Qed.

Lemma payload_length_buffer (s : GP) (b : PersistentBlock.t) :
  In b (buffer_blocks s) ->
  0 <= at2 (num_channels_ s - 1) (buffer_size_ s) ->
  at2 (num_channels_ s - 1) (buffer_size_ s) mod 4 = 0 ->
  Z.of_nat (length (payload_words s b)) = Z.quot (PersistentBlock.size b) 4.
Proof.
  intros Hin H0 H4. unfold buffer_blocks in Hin. apply in_map_iff in Hin.
  destruct Hin as (i & <- & _).
  unfold payload_words. cbn [PersistentBlock.data PersistentBlock.size].
  rewrite length_map, length_seq.
  set (n := at2 (num_channels_ s - 1) (buffer_size_ s)) in *.
  rewrite Z.quot_div_nonneg by lia.
  assert (E : n = 4 * (n / 4)) by (apply Z.div_exact; lia).
  assert (D : (n + 3) / 4 = n / 4).
  { symmetry. apply Z.div_unique with (r := 3); lia. }
  rewrite D. apply Z2Nat.id. apply Z.div_pos; lia.
Qed.

Lemma save_stream_formats_ok (s : GP) :
  0 <= at2 (num_channels_ s - 1) (buffer_size_ s) ->
  at2 (num_channels_ s - 1) (buffer_size_ s) mod 4 = 0 ->
  format_ok state_block (save_stream s) 0 = true
  /\ formats_ok (buffer_blocks s) (save_stream s) (next_block state_block 0) = true.
Proof.
  intros H0 H4.
  pose proof (formats_ok_stream s (GetPersistentData s) []) as F.
  cbn [app length] in F.
  change (flat_map (block_words s) (GetPersistentData s)) with (save_stream s) in F.
  unfold GetPersistentData in F. cbn [formats_ok] in F.
  apply andb_true_iff. apply F.
  intros b [<- | Hb].
  - reflexivity.
  - apply payload_length_buffer; assumption.
Qed.

Lemma int32_uint32 (h : Z) : - 2 ^ 31 <= h < 2 ^ 31 -> int32 (uint32 h) = h.
Proof.
  intros H. unfold int32, uint32.
  rewrite Zplus_mod_idemp_l.
  rewrite Z.mod_small by lia. lia.
Qed.

Lemma uint8_range (n : Z) : 0 <= uint8 n < 256.
Proof. unfold uint8. apply Z.mod_pos_bound. lia. Qed.

Lemma memcpy_state_save_stream (s : GP) :
  (let p := persistent_state_ s in
   (- 2 ^ 31 <= fst (PersistentState.write_head p) < 2 ^ 31)
   /\ (- 2 ^ 31 <= snd (PersistentState.write_head p) < 2 ^ 31)
   /\ 0 <= PersistentState.quality p < 256
   /\ 0 <= PersistentState.spectral p < 256) ->
  memcpy_state (save_stream s) 2 = persistent_state_ s.
Proof.
  cbv zeta. intros (H0 & H1 & Hq & Hs).
  destruct (persistent_state_ s) as [[h0 h1] q sp] eqn:E.
  cbn [PersistentState.write_head PersistentState.quality PersistentState.spectral fst snd] in *.
  unfold memcpy_state, byte_at, save_stream, GetPersistentData.
  cbn [flat_map app].
  change (payload_words s state_block) with (state_words (persistent_state_ s)).
  rewrite E. unfold state_words.
  cbn [PersistentState.write_head PersistentState.quality PersistentState.spectral fst snd app].
  unfold word.
  change (Z.to_nat 2) with 2%nat. change (Z.to_nat (2 + 1)) with 3%nat.
  change (Z.to_nat (2 + 8 / 4)) with 4%nat. change (Z.to_nat (2 + 9 / 4)) with 4%nat.
  cbn [nth].
  rewrite !int32_uint32 by assumption.
  change (8 mod 4) with 0. change (9 mod 4) with 1.
  change (2 ^ (8 * 0)) with 1. change (2 ^ (8 * 1)) with 256. change (2 ^ 8) with 256.
  rewrite Z.div_1_r.
  f_equal.
  - replace (q + 256 * sp) with (q + sp * 256) by lia.
    rewrite Z.mod_add by lia. apply Z.mod_small. lia.
  - replace (q + 256 * sp) with (q + sp * 256) by lia.
    rewrite Z.div_add by lia.
    rewrite (Z.div_small q 256) by lia. cbn [Z.add]. apply Z.mod_small. lia.
Qed.

Definition is_buffer_block (b : PersistentBlock.t) : Prop :=
  match PersistentBlock.data b with
  | StateData => False
  | BufferData _ => True
  end.

Lemma buffer_blocks_are_buffers (s : GP) : Forall is_buffer_block (buffer_blocks s).
Proof.
  unfold buffer_blocks. apply Forall_forall. intros b Hb.
  apply in_map_iff in Hb. destruct Hb as (i & <- & _). exact I.
Qed.

Lemma copy_blocks_keeps {B : Type} (f : GP -> B) (blocks : list PersistentBlock.t)
    (data : list Z) (off : Z) (s : GP) :
  (forall l s, f (set_calls l s) = f s) ->
  (forall v s, f (set_buffer_ v s) = f s) ->
  Forall is_buffer_block blocks ->
  f (copy_blocks blocks data off s) = f s.
Proof.
  intros Hc Hb F. revert off s.
  induction F as [| b blocks Hd F IH]; intros off s; cbn [copy_blocks].
  - reflexivity.
  - rewrite IH. unfold copy_block. rewrite exec_bind.
    unfold exec. cbn [call modify snd]. rewrite Hc.
    unfold is_buffer_block in Hd. destruct (PersistentBlock.data b); [contradiction |].
    apply Hb.
Qed.

Lemma finish_load_spec (s : GP) :
  fst (finish_load s) = true
  /\ active_buffers (snd (finish_load s)) =
     (Resync (fst (PersistentState.write_head (persistent_state_ s))) (fst (active_buffers s)),
      Resync (snd (PersistentState.write_head (persistent_state_ s))) (snd (active_buffers s)))
  /\ Parameters.freeze (parameters_ (snd (finish_load s))) = true
  /\ silence_ (snd (finish_load s)) = false
  /\ persistent_state_ (snd (finish_load s)) = persistent_state_ s
  /\ playback_mode_ (snd (finish_load s)) = playback_mode_ s
  /\ num_channels_ (snd (finish_load s)) = num_channels_ s
  /\ low_fidelity_ (snd (finish_load s)) = low_fidelity_ s.
Proof.
  unfold finish_load, active_buffers. rewrite run_bind. cbn [get fst snd].
  destruct (low_fidelity_ s) eqn:E; rewrite !run_bind; cbn [ret fst snd];
    repeat split; try reflexivity; cbn; rewrite ?E; reflexivity.
Qed.

(** The configuration a processor must be in for its save blocks to be
    readable: a sample region whose size in bytes is a whole number of
    words. *)
Definition saveable (s : GP) : Prop :=
  0 <= at2 (num_channels_ s - 1) (buffer_size_ s)
  /\ at2 (num_channels_ s - 1) (buffer_size_ s) mod 4 = 0.

(** The quality code of [s] decodes to its channel count and to its
    low-fidelity flag. *)
Definition quality_decodes (s : GP) : Prop :=
  quality_num_channels (uint8 (quality s)) = num_channels_ s
  /\ quality_low_fidelity (uint8 (quality s)) = low_fidelity_ s.

Lemma PreparePersistentData_state (s : GP) :
  persistent_state_ (PreparePersistentData s) =
  PersistentState.mk
    (head (fst (active_buffers s)), head (snd (active_buffers s)))
    (uint8 (quality s)) (currently_spectral s).
Proof. reflexivity. Qed.

(** C1 -- Round-trip persistence.  A processor [saved] prepares its
    persistent data and its blocks are written to a word stream; the
    stream is loaded by a processor [current] that is in the same
    playback mode and has the same buffer geometry.  Then the load
    succeeds, the write head of each ring buffer in use equals the offset
    recorded at save time (which is the head of [saved]'s buffer), the
    stored spectral flag equals the one computed from the active mode,
    and freeze is engaged. *)
Theorem persistence_round_trip (saved current : GP) :
  saveable saved ->
  quality_decodes saved ->
  playback_mode_ current = playback_mode_ saved ->
  buffer_size_ current = buffer_size_ saved ->
  let stream := save_stream (PreparePersistentData saved) in
  let recorded := PersistentState.write_head (persistent_state_ (PreparePersistentData saved)) in
  let loaded := snd (LoadPersistentData stream current) in
  fst (LoadPersistentData stream current) = true
  /\ head (fst (active_buffers loaded)) = fst recorded
  /\ head (snd (active_buffers loaded)) = snd recorded
  /\ recorded = (head (fst (active_buffers saved)), head (snd (active_buffers saved)))
  /\ PersistentState.spectral (persistent_state_ loaded) = currently_spectral loaded
  /\ Parameters.freeze (parameters_ loaded) = true
  /\ silence_ loaded = false
  /\ playback_mode_ loaded = playback_mode_ saved
  /\ num_channels_ loaded = num_channels_ saved
  /\ low_fidelity_ loaded = low_fidelity_ saved.
Proof.
  intros (H0 & H4) (Qn & Ql) Hm Hs stream recorded loaded.
  set (P := PreparePersistentData saved) in *.
  assert (EP : persistent_state_ P =
               PersistentState.mk
                 (head (fst (active_buffers saved)), head (snd (active_buffers saved)))
                 (uint8 (quality saved)) (currently_spectral saved))
    by apply PreparePersistentData_state.
  (* the stream is well formed *)
  destruct (save_stream_formats_ok P H0 H4) as [F0 F1].
  fold stream in F0, F1.
  assert (D : memcpy_state stream 2 = persistent_state_ P).
  { apply memcpy_state_save_stream. rewrite EP. cbv zeta.
    cbn [PersistentState.write_head PersistentState.quality PersistentState.spectral fst snd].
    repeat split; try apply head_int32; try apply uint8_range.
    - unfold currently_spectral. destruct (is_spectral _); [apply uint8_range | lia].
    - unfold currently_spectral. destruct (is_spectral _); [apply uint8_range | lia]. }
  (* the state block is applied; mode and quality already agree with it *)
  set (s1 := state_block_copied stream current).
  assert (E1 : persistent_state_ s1 = persistent_state_ P).
  { unfold s1, state_block_copied, copy_block. rewrite exec_bind. exact D. }
  assert (M1 : playback_mode_ s1 = playback_mode_ saved).
  { unfold s1, state_block_copied, copy_block. rewrite exec_bind. exact Hm. }
  assert (B1 : buffer_size_ s1 = buffer_size_ saved).
  { unfold s1, state_block_copied, copy_block. rewrite exec_bind. exact Hs. }
  set (s2 := after_first_block stream current).
  assert (E2 : s2 = exec Prepare (set_quality (uint8 (quality saved)) s1)).
  { unfold s2, after_first_block. fold (state_block_copied stream current). fold s1.
    rewrite after_state_block_same.
    - rewrite E1, EP. reflexivity.
    - rewrite E1, EP. unfold currently_spectral. rewrite M1. reflexivity. }
  assert (M2 : playback_mode_ s2 = playback_mode_ saved).
  { rewrite E2, Prepare_playback_mode. exact M1. }
  assert (N2 : num_channels_ s2 = num_channels_ saved).
  { rewrite E2, Prepare_num_channels. exact Qn. }
  assert (L2 : low_fidelity_ s2 = low_fidelity_ saved).
  { rewrite E2, Prepare_low_fidelity. exact Ql. }
  assert (B2 : buffer_size_ s2 = buffer_size_ saved).
  { rewrite E2, Prepare_buffer_size. exact B1. }
  assert (P2 : persistent_state_ s2 = persistent_state_ P).
  { rewrite E2, Prepare_persistent_state. exact E1. }
  assert (K2 : buffer_blocks s2 = buffer_blocks P).
  { unfold buffer_blocks, channels. rewrite N2, B2. reflexivity. }
  (* the buffer blocks are copied, then the heads are reset *)
  assert (R : LoadPersistentData stream current =
              finish_load (copy_blocks (buffer_blocks P) stream (next_block state_block 0) s2)).
  { rewrite (LoadPersistentData_first_ok stream current F0). fold s2. rewrite K2.
    apply load_blocks_ok. exact F1. }
  set (s3 := copy_blocks (buffer_blocks P) stream (next_block state_block 0) s2) in *.
  assert (K3 : forall B (f : GP -> B),
             (forall l s, f (set_calls l s) = f s) ->
             (forall v s, f (set_buffer_ v s) = f s) -> f s3 = f s2).
  { intros B f Hc Hb. apply copy_blocks_keeps; auto. apply buffer_blocks_are_buffers. }
  destruct (finish_load_spec s3) as (Rok & Rb & Rf & Rs & Rp & Rm & Rn & Rl).
  unfold loaded. rewrite R.
  rewrite (K3 _ persistent_state_) in Rb, Rp by reflexivity.
  rewrite (K3 _ playback_mode_) in Rm by reflexivity.
  rewrite (K3 _ num_channels_) in Rn by reflexivity.
  rewrite (K3 _ low_fidelity_) in Rl by reflexivity.
  rewrite P2 in Rb, Rp.
  assert (W : recorded = (head (fst (active_buffers saved)), head (snd (active_buffers saved)))).
  { unfold recorded. rewrite EP. reflexivity. }
  split; [exact Rok |].
  split; [rewrite Rb; cbn [fst]; apply head_Resync; rewrite W; apply head_int32 |].
  split; [rewrite Rb; cbn [snd]; apply head_Resync; rewrite W; apply head_int32 |].
  split; [exact W |].
  split; [rewrite Rp, EP; unfold currently_spectral; rewrite Rm, M2; reflexivity |].
  split; [exact Rf |].
  split; [exact Rs |].
  split; [rewrite Rm; exact M2 |].
  split; [rewrite Rn; exact N2 | rewrite Rl; exact L2].
Qed.

(** ** Single-precision numbers: order and exact value *)

Lemma digits2_pos_bounds (m : positive) :
  2 ^ (Zpos (digits2_pos m) - 1) <= Zpos m < 2 ^ Zpos (digits2_pos m).
Proof.
  induction m as [m IH | m IH | ]; cbn [digits2_pos].
  - rewrite Pos2Z.inj_succ.
    replace (Z.succ (Zpos (digits2_pos m)) - 1) with (Z.succ (Zpos (digits2_pos m) - 1)) by lia.
    rewrite !Z.pow_succ_r by lia. lia.
  - rewrite Pos2Z.inj_succ.
    replace (Z.succ (Zpos (digits2_pos m)) - 1) with (Z.succ (Zpos (digits2_pos m) - 1)) by lia.
    rewrite !Z.pow_succ_r by lia. lia.
  - cbn. lia.
Qed.

(** A value of the format has an exponent in [[-149, 104]] and fewer than
    25 digits, exactly 24 of them above the smallest exponent. *)
Lemma valid_finite_bounds (s : bool) (m : positive) (e : Z) :
  valid (S754_finite s m e) = true ->
  -149 <= e <= 104 /\ Zpos m < 2 ^ 24 /\ (-149 < e -> 2 ^ 23 <= Zpos m).
Proof.
  unfold valid, valid_binary, bounded, canonical_mantissa, fexp, emin, prec, emax.
  intros H. apply andb_true_iff in H. destruct H as [Hc He].
  apply Z.eqb_eq in Hc. apply Z.leb_le in He.
  pose proof (digits2_pos_bounds m) as [Hlo Hhi].
  set (d := Zpos (digits2_pos m)) in *.
  assert (Hd : 0 < d) by (unfold d; lia).
  assert (Hd24 : d <= 24) by lia.
  repeat split; try lia.
  - eapply Z.lt_le_trans; [exact Hhi |]. apply Z.pow_le_mono_r; lia.
  - intros Hn. assert (d = 24) by lia.
    replace 23 with (d - 1) by lia. exact Hlo.
Qed.

Lemma pow2_pos (n : Z) : 0 <= n -> 0 < 2 ^ n.
Proof. intros. apply Z.pow_pos_nonneg; lia. Qed.

Lemma pow2_step (a b : Z) : 0 <= a -> a < b -> 2 * 2 ^ a <= 2 ^ b.
Proof.
  intros Ha Hab. rewrite <- Z.pow_succ_r by lia. apply Z.pow_le_mono_r; lia.
Qed.

Lemma scaled_lt_of_exponent (m1 m2 : positive) (e1 e2 : Z) :
  -149 <= e1 -> e1 < e2 -> Zpos m1 < 2 ^ 24 -> 2 ^ 23 <= Zpos m2 ->
  Zpos m1 * 2 ^ (e1 + 149) < Zpos m2 * 2 ^ (e2 + 149).
Proof.
  intros H1 H12 Hm1 Hm2.
  pose proof (pow2_pos (e1 + 149) ltac:(lia)) as HP.
  pose proof (pow2_step (e1 + 149) (e2 + 149) ltac:(lia) ltac:(lia)) as HQ.
  change (2 ^ 24) with 16777216 in Hm1. change (2 ^ 23) with 8388608 in Hm2.
  nia.
Qed.

(** On values of the format, the comparison of the floating-point unit
    is the comparison of the exact values. *)
Lemma SFcompare_scaled (x y : float) :
  valid x = true -> valid y = true -> is_finite x = true -> is_finite y = true ->
  SFcompare x y = Some (scaled x ?= scaled y).
Proof.
  intros Vx Vy Fx Fy.
  destruct x as [sx | sx | | sx mx ex]; try discriminate Fx;
  destruct y as [sy | sy | | sy my ey]; try discriminate Fy.
  - reflexivity.
  - apply valid_finite_bounds in Vy. destruct Vy as (He & _ & _).
    pose proof (pow2_pos (ey + 149) ltac:(lia)).
    cbn [SFcompare scaled]. f_equal. symmetry.
    destruct sy; cbn [cond_Zopp]; [apply Z.compare_gt_iff | apply Z.compare_lt_iff]; nia.
  - apply valid_finite_bounds in Vx. destruct Vx as (He & _ & _).
    pose proof (pow2_pos (ex + 149) ltac:(lia)).
    cbn [SFcompare scaled]. f_equal. symmetry.
    destruct sx; cbn [cond_Zopp]; [apply Z.compare_lt_iff | apply Z.compare_gt_iff]; nia.
  - apply valid_finite_bounds in Vx. destruct Vx as (Hex & Hmx & Hnx).
    apply valid_finite_bounds in Vy. destruct Vy as (Hey & Hmy & Hny).
    pose proof (pow2_pos (ex + 149) ltac:(lia)) as Px.
    pose proof (pow2_pos (ey + 149) ltac:(lia)) as Py.
    cbn [SFcompare scaled]. f_equal.
    destruct sx, sy; cbn [cond_Zopp].
    + destruct (Z.compare_spec ex ey) as [E | L | G].
      * subst ey. change (Pos.compare_cont Eq mx my) with (Pos.compare mx my).
        rewrite Pos2Z.inj_compare.
        rewrite (Zmult_compare_compat_r (Zpos mx) (Zpos my) (2 ^ (ex + 149))) by lia.
        rewrite <- Z.compare_antisym.
        rewrite !Z.mul_opp_l. rewrite <- Z.compare_opp. reflexivity.
      * symmetry. apply Z.compare_gt_iff.
        pose proof (scaled_lt_of_exponent mx my ex ey ltac:(lia) L Hmx (Hny ltac:(lia))). lia.
      * symmetry. apply Z.compare_lt_iff.
        pose proof (scaled_lt_of_exponent my mx ey ex ltac:(lia) G Hmy (Hnx ltac:(lia))). lia.
    + symmetry. apply Z.compare_lt_iff. nia.
    + symmetry. apply Z.compare_gt_iff. nia.
    + destruct (Z.compare_spec ex ey) as [E | L | G].
      * subst ey. change (Pos.compare_cont Eq mx my) with (Pos.compare mx my).
        rewrite Pos2Z.inj_compare.
        apply Zmult_compare_compat_r. lia.
      * symmetry. apply Z.compare_lt_iff.
        apply scaled_lt_of_exponent; auto; lia.
      * symmetry. apply Z.compare_gt_iff.
        apply scaled_lt_of_exponent; auto; lia.
Qed.

Lemma flt_scaled (x y : float) :
  valid x = true -> valid y = true -> is_finite x = true -> is_finite y = true ->
  flt x y = (scaled x <? scaled y).
Proof.
  intros. unfold flt, SFltb, Z.ltb. rewrite SFcompare_scaled by assumption.
  destruct (scaled x ?= scaled y); reflexivity.
Qed.

Lemma fle_scaled (x y : float) :
  valid x = true -> valid y = true -> is_finite x = true -> is_finite y = true ->
  fle x y = (scaled x <=? scaled y).
Proof.
  intros. unfold fle, SFleb, Z.leb. rewrite SFcompare_scaled by assumption.
  destruct (scaled x ?= scaled y); reflexivity.
Qed.

(** Two values of the format with the same exact value, one of them not
    zero, are the same number. *)
Lemma scaled_inj (x y : float) :
  valid x = true -> valid y = true -> is_finite x = true -> is_finite y = true ->
  scaled y <> 0 -> scaled x = scaled y -> x = y.
Proof.
  intros Vx Vy Fx Fy Hy E.
  pose proof (SFcompare_scaled x y Vx Vy Fx Fy) as C.
  rewrite E, Z.compare_refl in C.
  destruct x as [sx | sx | | sx mx ex]; try discriminate Fx;
  destruct y as [sy | sy | | sy my ey]; try discriminate Fy;
    cbn [scaled SFcompare] in *; try congruence.
  destruct sx, sy; try discriminate C;
      destruct (Z.compare_spec ex ey) as [Ee | L | G]; try discriminate C;
      subst ey; change (Pos.compare_cont Eq mx my) with (Pos.compare mx my) in C;
      destruct (Pos.compare_spec mx my) as [Em | Lm | Gm]; try discriminate C;
      subst my; reflexivity.
Qed.

(** The values of the format whose magnitude is at least [2^(k+23)] are
    multiples of [2^k]. *)
Lemma scaled_grid (x : float) (k : Z) :
  valid x = true -> is_finite x = true -> -149 <= k ->
  2 ^ (k + 172) <= Z.abs (scaled x) ->
  exists j, scaled x = j * 2 ^ (k + 149).
Proof.
  intros V F Hk H.
  destruct x as [sx | sx | | sx mx ex]; try discriminate F.
  - cbn [scaled Z.abs] in H. pose proof (pow2_pos (k + 172) ltac:(lia)). lia.
  - apply valid_finite_bounds in V. destruct V as (He & Hm & _).
    cbn [scaled] in *.
    assert (Hek : k <= ex).
    { destruct (Z_le_gt_dec k ex) as [L | G]; [exact L | exfalso].
      pose proof (pow2_pos (ex + 149) ltac:(lia)) as P.
      assert (A : Z.abs (cond_Zopp sx (Zpos mx) * 2 ^ (ex + 149)) = Zpos mx * 2 ^ (ex + 149)).
      { destruct sx; cbn [cond_Zopp]; rewrite Z.abs_mul; [rewrite Z.abs_opp |];
          rewrite !Z.abs_eq by lia; reflexivity. }
      rewrite A in H.
      assert (B : 2 ^ 24 * 2 ^ (ex + 149) <= 2 ^ (k + 172)).
      { rewrite <- Z.pow_add_r by lia. apply Z.pow_le_mono_r; lia. }
      nia. }
    exists (cond_Zopp sx (Zpos mx) * 2 ^ (ex - k)).
    rewrite <- Z.mul_assoc, <- Z.pow_add_r by lia.
    f_equal. f_equal. lia.
Qed.

(** Hypotheses on exact values, as integer inequalities on [scaled]. *)
Ltac q2z :=
  unfold Qle, Qlt, F2Q in *; cbn [Qnum Qden Qopp Z.opp] in *;
  let v := eval vm_compute in (Zpos (2 ^ 149)%positive) in
  change (Zpos (2 ^ 149)%positive) with v in *.

(** A comparison with a literal, as a comparison of [scaled x] with a
    numeral. *)
Ltac flt_const x c :=
  let H := fresh "C" in
  assert (H : flt x c = (scaled x <? scaled c))
    by (apply flt_scaled; first [assumption | reflexivity]);
  let v := eval vm_compute in (scaled c) in
  change (scaled c) with v in H;
  rewrite H; clear H.

(** [x] is on the grid of step [2^(k+149)] of the scaled values. *)
Ltac on_grid x k j :=
  let G := fresh "G" in
  destruct (scaled_grid x k) as [j G];
  [ assumption | assumption | lia
  | let v := eval vm_compute in (2 ^ (k + 172)) in change (2 ^ (k + 172)) with v; lia
  | let v := eval vm_compute in (2 ^ (k + 149)) in change (2 ^ (k + 149)) with v in G ].

Ltac case_ltb :=
  match goal with
  | |- context [if ?a <? ?b then _ else _] => destruct (Z.ltb_spec a b)
  end.

(** The four tests of the trapezoid, on the exact value of [x]. *)
Ltac trapezoid_tests x :=
  unfold pitch_shifter_dry_wet;
  flt_const x (- dec 7 1)%f32;
  flt_const x (- dec 7 1 + dec 4 1)%f32;
  flt_const x (dec 7 1 - dec 4 1)%f32;
  flt_const x (dec 7 1)%f32.

Lemma trapezoid_low (x : float) :
  valid x = true -> is_finite x = true ->
  (F2Q x <= - (7 # 10))%Q -> pitch_shifter_dry_wet x = fone.
Proof.
  intros V F H. q2z. trapezoid_tests x.
  case_ltb; [reflexivity | lia].
Qed.

Lemma trapezoid_high (x : float) :
  valid x = true -> is_finite x = true ->
  (7 # 10 <= F2Q x)%Q -> pitch_shifter_dry_wet x = fone.
Proof.
  intros V F H. q2z. trapezoid_tests x.
  repeat (case_ltb; [lia |]). reflexivity.
Qed.

Lemma trapezoid_plateau (x : float) :
  valid x = true -> is_finite x = true ->
  (- (3 # 10) <= F2Q x)%Q -> (F2Q x <= 3 # 10)%Q -> pitch_shifter_dry_wet x = fzero.
Proof.
  intros V F Hlo Hhi. q2z. trapezoid_tests x.
  case_ltb; [lia |].
  case_ltb; [exfalso; on_grid x (-25) j; lia |].
  case_ltb; [reflexivity |].
  assert (E : x = (dec 7 1 - dec 4 1)%f32).
  { apply scaled_inj; try assumption; try reflexivity.
    - vm_compute. discriminate.
    - on_grid x (-25) j.
      let v := eval vm_compute in (scaled (dec 7 1 - dec 4 1)%f32) in
      change (scaled (dec 7 1 - dec 4 1)%f32) with v.
      lia. }
  subst x. reflexivity.
Qed.

Lemma trapezoid_lower_band (x : float) :
  valid x = true -> is_finite x = true ->
  (- (7 # 10) < F2Q x)%Q -> (F2Q x < - (3 # 10))%Q ->
  pitch_shifter_dry_wet x = (fone - (x + dec 7 1) / dec 4 1)%f32.
Proof.
  intros V F Hlo Hhi. q2z. trapezoid_tests x.
  case_ltb; [exfalso; on_grid x (-24) j; lia |].
  case_ltb; [reflexivity | lia].
Qed.

Lemma trapezoid_upper_band (x : float) :
  valid x = true -> is_finite x = true ->
  (3 # 10 < F2Q x)%Q -> (F2Q x < 7 # 10)%Q ->
  pitch_shifter_dry_wet x = (fone + (x - dec 7 1) / dec 4 1)%f32.
Proof.
  intros V F Hlo Hhi. q2z. trapezoid_tests x.
  repeat (case_ltb; [lia |]).
  case_ltb; [reflexivity |].
  assert (E : x = dec 7 1).
  { apply scaled_inj; try assumption; try reflexivity.
    - vm_compute. discriminate.
    - on_grid x (-24) j.
      let v := eval vm_compute in (scaled (dec 7 1)) in
      change (scaled (dec 7 1)) with v.
      lia. }
  subst x. reflexivity.
Qed.

(** ** The granular meta-parameters *)

Ltac fle_const_l c x :=
  let H := fresh "C" in
  assert (H : fle c x = (scaled c <=? scaled x))
    by (apply fle_scaled; first [assumption | reflexivity]);
  let v := eval vm_compute in (scaled c) in
  change (scaled c) with v in H;
  rewrite H; clear H.

Ltac fle_const_r x c :=
  let H := fresh "C" in
  assert (H : fle x c = (scaled x <=? scaled c))
    by (apply fle_scaled; first [assumption | reflexivity]);
  let v := eval vm_compute in (scaled c) in
  change (scaled c) with v in H;
  rewrite H; clear H.

Ltac case_leb :=
  match goal with
  | |- context [if ?a <=? ?b then _ else _] => destruct (Z.leb_spec a b)
  end.

Ltac overlap_tests d :=
  unfold overlap_of;
  change (fge d (dec 53 2)) with (fle (dec 53 2) d);
  fle_const_l (dec 53 2) d;
  fle_const_r d (dec 47 2).

Lemma overlap_dead_zone (d : float) :
  valid d = true -> is_finite d = true ->
  (47 # 100 <= F2Q d)%Q -> (F2Q d <= 53 # 100)%Q -> overlap_of d = fzero.
Proof.
  intros V F Hlo Hhi. q2z. overlap_tests d.
  case_leb.
  - assert (E : d = dec 53 2).
    { apply scaled_inj; try assumption; try reflexivity.
      - vm_compute. discriminate.
      - on_grid d (-24) j.
        let v := eval vm_compute in (scaled (dec 53 2)) in
        change (scaled (dec 53 2)) with v.
        lia. }
    subst d. reflexivity.
  - case_leb; [lia | reflexivity].
Qed.

Lemma overlap_above (d : float) :
  valid d = true -> is_finite d = true ->
  (53 # 100 <= F2Q d)%Q -> overlap_of d = ((d - dec 53 2) * dec 212 2)%f32.
Proof.
  intros V F H. q2z. overlap_tests d.
  case_leb; [reflexivity | lia].
Qed.

Lemma overlap_below (d : float) :
  valid d = true -> is_finite d = true ->
  (F2Q d <= 47 # 100)%Q -> overlap_of d = ((dec 47 2 - d) * dec 212 2)%f32.
Proof.
  intros V F H. q2z. overlap_tests d.
  case_leb; [lia |].
  case_leb; [reflexivity |].
  exfalso. on_grid d (-25) j. lia.
Qed.

Lemma deterministic_seed_spec (d : float) :
  valid d = true -> is_finite d = true ->
  (use_deterministic_seed_of d = true <-> (F2Q d < 1 # 2)%Q).
Proof.
  intros V F. q2z. unfold use_deterministic_seed_of.
  flt_const d (dec 5 1).
  match goal with |- context [?a <? ?b] => destruct (Z.ltb_spec a b) end; split; intros; try lia; try reflexivity; discriminate.
Qed.

Lemma window_shape_below (t : float) :
  valid t = true -> is_finite t = true ->
  (F2Q t < 3 # 4)%Q -> window_shape_of t = (t * dec 1333 3)%f32.
Proof.
  intros V F H. q2z. unfold window_shape_of.
  flt_const t (dec 75 2).
  case_ltb; [reflexivity | lia].
Qed.

Lemma window_shape_saturated (t : float) :
  valid t = true -> is_finite t = true ->
  (3 # 4 <= F2Q t)%Q -> window_shape_of t = fone.
Proof.
  intros V F H. q2z. unfold window_shape_of.
  flt_const t (dec 75 2).
  case_ltb; [lia | reflexivity].
Qed.

Lemma keeps_record_input {B : Type} (f : GP -> B) (input : list FloatFrame.t) (size : Z) :
  (forall l s, f (set_calls l s) = f s) ->
  (forall v s, f (set_buffer_8_ v s) = f s) ->
  (forall v s, f (set_buffer_16_ v s) = f s) ->
  (forall v s, f (set_buffer_ v s) = f s) ->
  keeps f (record_input input size).
Proof.
  intros Hc H8 H16 Hb. unfold record_input, write_fade.
  repeat first
    [ apply keeps_ret | apply keeps_get
    | apply keeps_bind; [| intros ?]
    | apply keeps_modify; intros; rewrite ?Hb; solve [auto]
    | apply keeps_when
    | apply keeps_for_each; intros ?
    | apply keeps_call; exact Hc
    | apply keeps_if ].
Qed.

Lemma keeps_play {B : Type} (f : GP -> B) (player : Collaborator) (p : Parameters.t)
    (output : list FloatFrame.t) (size : Z) :
  (forall l s, f (set_calls l s) = f s) -> keeps f (play player p output size).
Proof.
  intros Hc. unfold play.
  repeat first
    [ apply keeps_ret | apply keeps_get
    | apply keeps_bind; [| intros ?]
    | apply keeps_call_frames; exact Hc
    | apply keeps_if ].
Qed.

(** In the granular mode [ProcessGranular] leaves in [parameters_] the
    meta-parameters derived from the density and the texture. *)
Lemma ProcessGranular_granular_parameters (input output : list FloatFrame.t) (size : Z) (s : GP) :
  playback_mode_ s = PLAYBACK_MODE_GRANULAR ->
  parameters_ (exec (ProcessGranular input output size) s) =
  Parameters.set_granular
    (use_deterministic_seed_of (Parameters.density (parameters_ s)))
    (overlap_of (Parameters.density (parameters_ s)))
    (window_shape_of (Parameters.texture (parameters_ s)))
    (parameters_ s).
Proof.
  intros Hm. unfold ProcessGranular. rewrite exec_bind.
  change (snd (record_input input size s)) with (exec (record_input input size) s).
  set (s1 := exec (record_input input size) s).
  assert (P1 : parameters_ s1 = parameters_ s)
    by (apply (keeps_record_input parameters_); intros; reflexivity).
  assert (M1 : playback_mode_ s1 = PLAYBACK_MODE_GRANULAR).
  { rewrite <- Hm. apply (keeps_record_input playback_mode_); intros; reflexivity. }
  unfold dispatch. rewrite exec_get_bind, M1, Z.eqb_refl.
  unfold granular_branch. rewrite exec_bind. cbn [modify fst snd].
  rewrite exec_get_bind.
  unfold exec. rewrite (keeps_play parameters_) by reflexivity.
  cbn [parameters_ set_parameters_]. rewrite P1. reflexivity.
Qed.

(** C7 -- Granular meta-parameters.  In the GRANULAR branch of
    [ProcessGranular], for every density (a finite single-precision
    number, compared by its exact value): the overlap is 0 when the
    density lies in [[0.47, 0.53]], [(density - 0.53) * 2.12] when it is
    at least 0.53 and [(0.47 - density) * 2.12] when it is at most 0.47;
    the deterministic-seed flag is set exactly when the density is below
    0.5; the window shape is [texture * 1.333] for a texture below 0.75
    and 1 otherwise. *)
Theorem granular_meta_parameters (input output : list FloatFrame.t) (size : Z) (s : GP) :
  playback_mode_ s = PLAYBACK_MODE_GRANULAR ->
  valid (Parameters.density (parameters_ s)) = true ->
  is_finite (Parameters.density (parameters_ s)) = true ->
  valid (Parameters.texture (parameters_ s)) = true ->
  is_finite (Parameters.texture (parameters_ s)) = true ->
  let density := Parameters.density (parameters_ s) in
  let texture := Parameters.texture (parameters_ s) in
  let p := parameters_ (exec (ProcessGranular input output size) s) in
  ((47 # 100 <= F2Q density)%Q /\ (F2Q density <= 53 # 100)%Q ->
   Parameters.granular_overlap p = fzero)
  /\ ((53 # 100 <= F2Q density)%Q ->
      Parameters.granular_overlap p = ((density - dec 53 2) * dec 212 2)%f32)
  /\ ((F2Q density <= 47 # 100)%Q ->
      Parameters.granular_overlap p = ((dec 47 2 - density) * dec 212 2)%f32)
  /\ (Parameters.granular_use_deterministic_seed p = true <-> (F2Q density < 1 # 2)%Q)
  /\ ((F2Q texture < 3 # 4)%Q ->
      Parameters.granular_window_shape p = (texture * dec 1333 3)%f32)
  /\ ((3 # 4 <= F2Q texture)%Q -> Parameters.granular_window_shape p = fone).
Proof.
  intros Hm Vd Fd Vt Ft density texture p.
  unfold p. rewrite (ProcessGranular_granular_parameters input output size s Hm).
  cbn [Parameters.set_granular Parameters.granular_overlap
       Parameters.granular_use_deterministic_seed Parameters.granular_window_shape].
  fold density texture.
  split; [intros [H1 H2]; apply overlap_dead_zone; assumption |].
  split; [intros H; apply overlap_above; assumption |].
  split; [intros H; apply overlap_below; assumption |].
  split; [apply deterministic_seed_spec; assumption |].
  split; [intros H; apply window_shape_below; assumption |].
  intros H; apply window_shape_saturated; assumption.
Qed.

(** ** [WarmDistortion] *)

Lemma flt_fle (x y : float) : flt x y = true -> fle x y = true.
Proof.
  unfold flt, fle, SFltb, SFleb. destruct (SFcompare x y) as [[| |] |]; congruence.
Qed.

(** The final clamp [max(-1, min(1, smp))] lands in [[-1, 1]], whatever
    [smp] is (a NaN is mapped to 1 by [std::min]). *)
Lemma clamp_range (smp : float) :
  fle (- fone)%f32 (std_max (- fone)%f32 (std_min fone smp)) = true
  /\ fle (std_max (- fone)%f32 (std_min fone smp)) fone = true.
Proof.
  unfold std_max, std_min.
  destruct (flt smp fone) eqn:E1.
  - destruct (flt (- fone)%f32 smp) eqn:E2.
    + split; apply flt_fle; assumption.
    + split; reflexivity.
  - split; reflexivity.
Qed.

Lemma iter_xO (m p : positive) : Zpos (Pos.iter xO m p) = Zpos m * 2 ^ Zpos p.
Proof.
  induction p as [| p IH] using Pos.peano_ind.
  - cbn [Pos.iter]. rewrite (Pos2Z.inj_xO m). change (2 ^ 1) with 2. ring.
  - rewrite Pos.iter_succ, (Pos2Z.inj_xO (Pos.iter xO m p)), IH.
    rewrite Pos2Z.inj_succ, Z.pow_succ_r by lia. ring.
Qed.

Lemma compare_cont_Eq (p q : positive) : Pos.compare_cont Eq p q = Pos.compare p q.
Proof. reflexivity. Qed.

Lemma iter_xO_29 (m : positive) : Zpos (Pos.iter xO m 29) = Zpos m * 2 ^ 29.
Proof. apply (iter_xO m 29). Qed.

Lemma digits_of_valid (s : bool) (m : positive) (e : Z) :
  valid (S754_finite s m e) = true ->
  0 < Zpos (digits2_pos m) <= 24 /\ (-149 < e -> Zpos (digits2_pos m) = 24).
Proof.
  unfold valid, valid_binary, bounded, canonical_mantissa, fexp, emin, prec, emax.
  intros H. apply andb_true_iff in H. destruct H as [Hc He].
  apply Z.eqb_eq in Hc. lia.
Qed.

(** The test [parameter < 0.1], made in double precision, holds exactly
    when the value of the parameter is below one tenth. *)
Lemma below_threshold_spec (p : float) :
  valid p = true -> is_finite p = true ->
  (below_threshold p = true <-> (F2Q p < 1 # 10)%Q).
Proof.
  intros V F. q2z. unfold below_threshold.
  destruct p as [s | s | | s m e]; try discriminate F.
  - cbn. split; [lia | reflexivity].
  - pose proof (valid_finite_bounds s m e V) as (He & Hm & Hn).
    pose proof (digits_of_valid s m e V) as (Hd & Hd24).
    change (2 ^ 24) with 16777216 in Hm. change (2 ^ 23) with 8388608 in Hn.
    pose proof (pow2_pos (e + 149) ltac:(lia)) as Pe.
    unfold to_double. cbn [scaled].
    set (d := Zpos (digits2_pos m)) in *.
    let c := eval vm_compute in (ddec 1 1) in change (ddec 1 1) with c.
    unfold SFltb. cbn [SFcompare].
    destruct s; cbn [cond_Zopp].
    + split; [intros _; nia | reflexivity].
    + destruct (Z.eq_dec e (-149)) as [E149 | N149].
      * subst e. change (2 ^ (-149 + 149)) with 1.
        destruct (Z.compare_spec (-149 - (53 - d)) (-56)) as [E | L | G]; lia.
      * assert (D24 : d = 24) by (apply Hd24; lia).
        rewrite D24. change (53 - 24) with 29. change (Z.to_pos 29) with 29%positive.
        assert (M23 : 8388608 <= Zpos m) by (apply Hn; lia).
        destruct (Z.compare_spec (e - 29) (-56)) as [E | L | G].
        -- assert (e = -27) by lia. subst e.
           change (2 ^ (-27 + 149)) with 5316911983139663491615228241121378304.
           pose proof (iter_xO_29 m) as I. change (2 ^ 29) with 536870912 in I.
           remember (Pos.iter xO m 29) as q eqn:Q. clear Q.
           rewrite compare_cont_Eq, Pos2Z.inj_compare.
           destruct (Z.compare_spec (Zpos q) (Zpos 7205759403792794));
             split; intros; try discriminate; try reflexivity; lia.
        -- assert (B : 2 ^ (e + 149) <= 2 ^ 121) by (apply Z.pow_le_mono_r; lia).
           change (2 ^ 121) with 2658455991569831745807614120560689152 in B.
           split; [intros _; nia | reflexivity].
        -- assert (B : 2 ^ 123 <= 2 ^ (e + 149)) by (apply Z.pow_le_mono_r; lia).
           change (2 ^ 123) with 10633823966279326983230456482242756608 in B.
           split; [discriminate | intros; nia].
Qed.

(** C10 -- WarmDistortion edge behaviour.  For every input sample, when
    the distortion parameter (a finite single-precision number, compared
    by its exact value) is strictly below 0.1 the sample is returned
    unchanged; for every parameter of at least 0.1 the result written
    lies in the closed interval [[-1, 1]]. *)
Theorem WarmDistortion_edges (in_value parameter : float) :
  valid parameter = true ->
  is_finite parameter = true ->
  ((F2Q parameter < 1 # 10)%Q -> WarmDistortion in_value parameter = in_value)
  /\ ((1 # 10 <= F2Q parameter)%Q ->
      fle (- fone)%f32 (WarmDistortion in_value parameter) = true
      /\ fle (WarmDistortion in_value parameter) fone = true).
Proof.
  intros V F. pose proof (below_threshold_spec parameter V F) as T.
  unfold WarmDistortion. split.
  - intros H. apply T in H. rewrite H. reflexivity.
  - intros H. destruct (below_threshold parameter) eqn:E.
    + exfalso. pose proof (proj1 T eq_refl) as L.
      unfold Qle, Qlt in *. lia.
    + apply clamp_range.
Qed.

(** ** The feedback stage of [Process] *)



Lemma feedback_filter_result (size : Z) (s : GP) :
  fst (feedback_filter size s) = Parameters.feedback (parameters_ s).
Proof. reflexivity. Qed.

Lemma feedback_filter_freeze (size : Z) (s : GP) :
  freeze_lp_ (exec (feedback_filter size) s)
  = ONE_POLE (freeze_lp_ s)
      (if Parameters.freeze (parameters_ s) then fone else fzero) (dec 5 4).
Proof. reflexivity. Qed.













(** ** [Prepare]: benign and structural transitions *)

(** C4 -- Benign versus structural preparation.  [Prepare] classifies a
    transition as benign exactly when neither the new nor the previous
    mode is SPECTRAL, SPECTRAL_CLOUD, RESONESTOR or OLIVERB and the
    previous mode is not the sentinel.  On a benign transition with the
    reset-buffers flag clear it resets the six filters, clears the pitch
    shifter, records the mode as prepared and then runs the priming of
    every call, which for the STRETCH mode reloads the correlator from
    the ring buffers and evaluates candidates; nothing else changes, so
    the sample memory of the regions, as the loader and the ring buffers
    wrote it, the sizes of the regions, the ring buffers and the
    parameters are as before.  On a structural transition, or with the
    flag set, it disengages freeze and leaves the other parameters and
    the sizes of the regions alone, runs the partitioning block, clears
    the flag, records the mode and primes.  The calls it makes are
    exactly these,
    in this order: the arena is handed out to the diffuser, the reverb
    (OLIVERB in its mode), the correlator and the pitch shifter; the
    engines of the mode are initialised (the phase vocoder over both
    sample memories in the two spectral modes, the resonestor over the
    first one in its mode, and otherwise the ring buffer of each channel
    on the resolution in use, over the memory of its channel counted in
    samples, followed by the granular player with its number of grains,
    the WSOLA player, the looper and the KAMMERL player); and the priming
    block runs.  In a mode that runs on the ring buffers, the ring buffer
    of each channel in use is the initialised one. *)
Theorem Prepare_benign_or_structural (s : GP) :
  (benign_change s = true <->
   (playback_mode_ s <> PLAYBACK_MODE_SPECTRAL
    /\ playback_mode_ s <> PLAYBACK_MODE_SPECTRAL_CLOUD
    /\ playback_mode_ s <> PLAYBACK_MODE_RESONESTOR
    /\ playback_mode_ s <> PLAYBACK_MODE_OLIVERB)
   /\ (previous_playback_mode_ s <> PLAYBACK_MODE_SPECTRAL
       /\ previous_playback_mode_ s <> PLAYBACK_MODE_SPECTRAL_CLOUD
       /\ previous_playback_mode_ s <> PLAYBACK_MODE_RESONESTOR
       /\ previous_playback_mode_ s <> PLAYBACK_MODE_OLIVERB)
   /\ previous_playback_mode_ s <> PLAYBACK_MODE_LAST)
  /\ (reset_buffers_ s = false ->
      playback_mode_changed s = true ->
      benign_change s = true ->
      exec Prepare s
      = set_calls (calls s ++ reset_and_clear_calls ++ stretch_prime_calls s)
          (set_previous_playback_mode_ (playback_mode_ s) s)
      /\ buffer_ (exec Prepare s) = buffer_ s
      /\ buffer_size_ (exec Prepare s) = buffer_size_ s
      /\ buffer_8_ (exec Prepare s) = buffer_8_ s
      /\ buffer_16_ (exec Prepare s) = buffer_16_ s
      /\ parameters_ (exec Prepare s) = parameters_ s)
  /\ (reset_buffers_ s = true
      \/ (playback_mode_changed s = true /\ benign_change s = false) ->
      exec Prepare s
      = exec prime
          (exec repartition
             (set_parameters_ (Parameters.set_freeze false (parameters_ s)) s))
      /\ Parameters.freeze (parameters_ (exec Prepare s)) = false
      /\ reset_buffers_ (exec Prepare s) = false
      /\ previous_playback_mode_ (exec Prepare s) = playback_mode_ s
      /\ calls (exec Prepare s)
         = calls s ++ arena_calls s ++ engine_calls s ++ prime_calls s
      /\ parameters_ (exec Prepare s) = Parameters.set_freeze false (parameters_ s)
      /\ buffer_size_ (exec Prepare s) = buffer_size_ s
      /\ (ring_buffer_mode s ->
          num_channels_ s = 1 \/ num_channels_ s = 2 ->
          forall i, In i (channels s) ->
            at2 i (active_buffers (exec Prepare s))
            = AudioBuffer_Init (at2 i (buffer (partition s)))
                (if low_fidelity_ s then at2 i (buffer_size (partition s))
                 else Z.shiftr (at2 i (buffer_size (partition s))) 1)
                i (at2 i (active_buffers s)))).
Proof.
  split; [apply benign_change_spec |]. split.
  - intros Hr Hc Hb. rewrite (Prepare_benign s Hr Hc Hb). repeat split.
  - intros H.
    destruct (Prepare_structural s H) as (F & R & V & _).
    split; [apply Prepare_structural_unfold; exact H |].
    split; [exact F |]. split; [exact R |]. split; [exact V |].
    split; [apply Prepare_structural_calls; exact H |].
    split; [apply Prepare_structural_parameters; exact H |].
    split; [apply Prepare_buffer_size |].
    intros Hm Hn i Hi. apply Prepare_structural_ring_buffers; assumption.
Qed.

(** * Further properties of the processor *)

(** ** The gates of [Process] *)

Lemma fill_nth_error {A : Type} (f : nat -> A) (n : Z) (dst : list A) (i : nat) :
  (i < Z.to_nat n)%nat -> nth_error (fill f n dst) i = Some (f i).
Proof.
  intros Hi. unfold fill.
  rewrite nth_error_app1 by (rewrite length_map, length_seq; exact Hi).
  rewrite nth_error_map, nth_error_seq.
  destruct (Nat.ltb_spec i (Z.to_nat n)); [reflexivity | lia].
Qed.

Lemma fill_nth_error_beyond {A : Type} (f : nat -> A) (n : Z) (dst : list A) (i : nat) :
  (Z.to_nat n <= i)%nat -> nth_error (fill f n dst) i = nth_error dst i.
Proof.
  intros Hi. unfold fill.
  rewrite nth_error_app2 by (rewrite length_map, length_seq; exact Hi).
  rewrite length_map, length_seq, nth_error_skipn. f_equal. lia.
Qed.

(** X1 -- The silence gate of [Process].  When the bypass is off and the
    processor is silenced, or waits for its buffers to be reset, or has a
    playback mode that is not yet prepared, [Process] writes zeros to the
    first [size] output frames, leaves the later frames alone and
    returns with the processor state, its call log included, as it found
    it. *)
Theorem Process_silence (input output : list ShortFrame.t) (size : Z) (s : GP) :
  bypass_ s = false ->
  silence_ s = true \/ reset_buffers_ s = true
  \/ previous_playback_mode_ s <> playback_mode_ s ->
  exists output',
    Process input output size s = (output', s)
    /\ (forall i, (i < Z.to_nat size)%nat -> nth_error output' i = Some (ShortFrame.mk 0 0))
    /\ (forall i, (Z.to_nat size <= i)%nat -> nth_error output' i = nth_error output i).
Proof.
  intros Hb Hg.
  assert (G : silence_ s || reset_buffers_ s
              || negb (previous_playback_mode_ s =? playback_mode_ s) = true).
  { destruct Hg as [H | [H | H]].
    - rewrite H. reflexivity.
    - rewrite H, orb_true_r. reflexivity.
    - apply Z.eqb_neq in H. rewrite H. cbn [negb]. apply orb_true_r. }
  exists (fill (fun _ => ShortFrame.mk 0 0) size output).
  split.
  - unfold Process. rewrite run_bind. cbn [get fst snd]. rewrite Hb, G. reflexivity.
  - split; intros i Hi.
    + apply (fill_nth_error (fun _ => ShortFrame.mk 0 0)). exact Hi.
    + apply fill_nth_error_beyond. exact Hi.
Qed.

(** ** [Init], then [Prepare], then [Process] *)

(** The calls of [Init], in order. *)
Definition init_calls : list Call :=
  [mkCall src_down_ "Init" []; mkCall src_up_ "Init" []; mkCall phase_vocoder_ "Init" [];
   mkCall (fb_filter_ 0) "Init" []; mkCall (lp_filter_ 0) "Init" [];
   mkCall (hp_filter_ 0) "Init" []; mkCall (fb_filter_ 1) "Init" [];
   mkCall (lp_filter_ 1) "Init" []; mkCall (hp_filter_ 1) "Init" []].

Lemma exec_Init (large small : list Z) (large_size small_size : Z) (s : GP) :
  exec (Init large large_size small small_size) s
  = mkGranularProcessor (playback_mode_ s) PLAYBACK_MODE_LAST
      2 false false (silence_ s) true
      false false true fzero
      fzero (freeze_lp_ s) fzero (in_ s)
      (in_downsampled_ s) (out_ s) (out_downsampled_ s) (fb_ s)
      (parameters_ s) (persistent_state_ s)
      (large, small) (large_size, small_size)
      (buffer_8_ s) (buffer_16_ s) (calls s ++ init_calls).
Proof.
  unfold exec, Init, ResetFilters, for_each, bind, call, modify, ret.
  cbn [snd fst playback_mode_ previous_playback_mode_ num_channels_ low_fidelity_ bypass_
       silence_ reset_buffers_ mute_in_ mute_out_ reverb_dry_signal_ mute_in_fade_
       mute_out_fade_ freeze_lp_ dry_wet_ in_ in_downsampled_ out_ out_downsampled_ fb_
       parameters_ persistent_state_ buffer_ buffer_size_ buffer_8_ buffer_16_ calls
       set_calls].
  unfold init_calls. rewrite <- !app_assoc. reflexivity.
Qed.

Lemma Prepare_bypass (s : GP) : bypass_ (exec Prepare s) = bypass_ s.
Proof. apply (keeps_Prepare bypass_); intros; reflexivity. Qed.

(** Past the two gates [Process] runs the block. *)
Lemma Process_prepared (input output : list ShortFrame.t) (size : Z) (s : GP) :
  bypass_ s = false -> silence_ s = false -> reset_buffers_ s = false ->
  previous_playback_mode_ s = playback_mode_ s ->
  Process input output size s = process_block input output size s.
Proof.
  intros Hb Hs Hr Hm. unfold Process. rewrite run_bind. cbn [get fst snd].
  rewrite Hb, Hs, Hr, Hm, Z.eqb_refl. reflexivity.
Qed.

(** With the reset-buffers flag clear and the mode already prepared,
    [Prepare] runs the priming block only. *)
Lemma Prepare_unchanged (s : GP) :
  reset_buffers_ s = false ->
  previous_playback_mode_ s = playback_mode_ s ->
  exec Prepare s = set_calls (calls s ++ prime_calls s) s.
Proof.
  intros Hr Hm.
  assert (Hc : playback_mode_changed s = false).
  { unfold playback_mode_changed. rewrite Hm, Z.eqb_refl. reflexivity. }
  unfold Prepare. rewrite exec_get_bind, Hr, Hc. cbn [negb andb orb when].
  rewrite !exec_bind. cbn [ret fst snd]. apply exec_prime.
Qed.

(** X2 -- [Init], then [Process].  Whatever the processor held before,
    after [Init] the bypass is off and the reset-buffers flag is set, so
    [Process] writes zeros to the first [size] output frames and changes
    nothing in the processor: it stays silent until [Prepare] has run. *)
Theorem Init_then_Process (large small : list Z) (large_size small_size : Z)
    (input output : list ShortFrame.t) (size : Z) (s : GP) :
  let s0 := exec (Init large large_size small small_size) s in
  bypass_ s0 = false
  /\ reset_buffers_ s0 = true
  /\ previous_playback_mode_ s0 = PLAYBACK_MODE_LAST
  /\ calls s0 = calls s ++ init_calls
  /\ Process input output size s0 = (fill (fun _ => ShortFrame.mk 0 0) size output, s0).
Proof.
  cbv zeta. rewrite exec_Init.
  split; [reflexivity |]. split; [reflexivity |]. split; [reflexivity |].
  split; [reflexivity |].
  unfold Process. rewrite run_bind.
  cbn [get fst snd bypass_ silence_ reset_buffers_]. rewrite orb_true_r. reflexivity.
Qed.

(** The engine calls of a stereo processor at 16 bits, in a mode that
    runs on the ring buffers, over a small region of [small_size]
    bytes. *)
Definition stereo_ring_buffer_engine_calls (small_size : Z) : list Call :=
  [mkCall (ring_buffer 16 0) "Init"
          [APtr (At 0 0); AZ (Z.shiftr small_size 1); AName "tail_buffer_"; AZ 0];
   mkCall (ring_buffer 16 1) "Init"
          [APtr (At 1 0); AZ (Z.shiftr small_size 1); AName "tail_buffer_"; AZ 1];
   mkCall player_ "Init" [AZ 2; AZ 32];
   mkCall ws_player_ "Init" [AName "correlator_"; AZ 2];
   mkCall looper_ "Init" [AZ 2];
   mkCall kammerl_ "Init" [AZ 2]].

(** The same in the SPECTRAL mode. *)
Definition stereo_spectral_engine_calls (small_size : Z) : list Call :=
  [mkCall phase_vocoder_ "Init"
          [AName "TRANSFORMATION_TYPE_FRAME"; APtr (At 0 0); APtr (At 1 0);
           AZ small_size; AZ small_size; AName "lut_sine_window_4096"; AZ 4096;
           AZ 2; AZ 16; AF (sample_rate_of false)]].

(** X3 -- [Init], then [Prepare].  After [Init] the first [Prepare]
    always takes the structural path, whatever the playback mode: freeze
    is disengaged, the arena is handed out and the engines are
    initialised for two channels at 16 bits, the reset-buffers flag is
    cleared and the mode is recorded as prepared.  The log is exactly the
    calls of [Init], of the arena, of the engines and of the priming
    block, in this order; in a mode that runs on the ring buffers the
    engine calls initialise the two 16-bit ring buffers, each over the
    start of its region with half the small size as its sample count,
    then the granular player for two channels and 32 grains, the WSOLA
    player, the looper and the KAMMERL player, and the two 16-bit ring
    buffers are the initialised ones; in the SPECTRAL mode the one
    engine call initialises the phase vocoder for two channels at 16
    bits.  From then on an unsilenced [Process] runs the block. *)
Theorem Init_then_Prepare (large small : list Z) (large_size small_size : Z) (s : GP) :
  let s0 := exec (Init large large_size small small_size) s in
  let s1 := exec Prepare s0 in
  s1 = exec prime
         (exec repartition
            (set_parameters_ (Parameters.set_freeze false (parameters_ s0)) s0))
  /\ Parameters.freeze (parameters_ s1) = false
  /\ reset_buffers_ s1 = false
  /\ previous_playback_mode_ s1 = playback_mode_ s
  /\ playback_mode_ s1 = playback_mode_ s
  /\ num_channels_ s1 = 2
  /\ low_fidelity_ s1 = false
  /\ calls s1
     = calls s ++ init_calls ++ arena_calls s0 ++ engine_calls s0 ++ prime_calls s0
  /\ (ring_buffer_mode s ->
      engine_calls s0 = stereo_ring_buffer_engine_calls small_size
      /\ buffer_16_ s1
         = (AudioBuffer_Init (At 0 0) (Z.shiftr small_size 1) 0 (fst (buffer_16_ s)),
            AudioBuffer_Init (At 1 0) (Z.shiftr small_size 1) 1 (snd (buffer_16_ s))))
  /\ (playback_mode_ s = PLAYBACK_MODE_SPECTRAL ->
      engine_calls s0 = stereo_spectral_engine_calls small_size)
  /\ (silence_ s = false ->
      forall (input output : list ShortFrame.t) (size : Z),
        Process input output size s1 = process_block input output size s1).
Proof.
  cbv zeta.
  set (s0 := exec (Init large large_size small small_size) s).
  assert (E0 : s0 = exec (Init large large_size small small_size) s) by reflexivity.
  rewrite exec_Init in E0.
  assert (R0 : reset_buffers_ s0 = true) by (rewrite E0; reflexivity).
  assert (M0 : playback_mode_ s0 = playback_mode_ s) by (rewrite E0; reflexivity).
  assert (C0 : calls s0 = calls s ++ init_calls) by (rewrite E0; reflexivity).
  assert (S : structural s0) by (left; exact R0).
  assert (N0 : num_channels_ s0 = 2) by (rewrite E0; reflexivity).
  assert (L0 : low_fidelity_ s0 = false) by (rewrite E0; reflexivity).
  assert (Z0 : buffer_size_ s0 = (large_size, small_size)) by (rewrite E0; reflexivity).
  assert (B0 : buffer_16_ s0 = buffer_16_ s) by (rewrite E0; reflexivity).
  assert (P0 : partition s0
               = mkPartition (At 0 0, At 1 0) (small_size, small_size)
                   (At 0 small_size) (uint32 (large_size - small_size))).
  { unfold partition. rewrite N0, Z0. reflexivity. }
  destruct (Prepare_structural s0 S) as (F & R & V & _).
  split; [apply Prepare_structural_unfold; exact S |].
  split; [exact F |]. split; [exact R |].
  split; [rewrite V; exact M0 |].
  split; [rewrite Prepare_playback_mode; exact M0 |].
  split; [rewrite Prepare_num_channels; exact N0 |].
  split; [rewrite Prepare_low_fidelity; exact L0 |].
  split.
  { rewrite (Prepare_structural_calls s0 S), C0, <- app_assoc. reflexivity. }
  split.
  { intros Hm.
    assert (Hm0 : ring_buffer_mode s0) by (unfold ring_buffer_mode; rewrite M0; exact Hm).
    split.
    - destruct Hm0 as (M1 & M2 & M3). apply Z.eqb_neq in M1, M2, M3.
      unfold engine_calls, ring_buffer_init_call, num_grains, resolution.
      rewrite M1, M2, M3, (channels_2 s0 N0), P0, N0, L0. reflexivity.
    - assert (A : active_buffers (exec Prepare s0) = buffer_16_ (exec Prepare s0)).
      { unfold active_buffers. rewrite Prepare_low_fidelity, L0. reflexivity. }
      assert (H0 : at2 0 (buffer_16_ (exec Prepare s0))
                   = AudioBuffer_Init (At 0 0) (Z.shiftr small_size 1) 0 (fst (buffer_16_ s))).
      { rewrite <- A.
        rewrite (Prepare_structural_ring_buffers s0 0 S Hm0 (or_intror N0))
          by (rewrite (channels_2 s0 N0); left; reflexivity).
        unfold active_buffers. rewrite P0, L0, B0. reflexivity. }
      assert (H1 : at2 1 (buffer_16_ (exec Prepare s0))
                   = AudioBuffer_Init (At 1 0) (Z.shiftr small_size 1) 1 (snd (buffer_16_ s))).
      { rewrite <- A.
        rewrite (Prepare_structural_ring_buffers s0 1 S Hm0 (or_intror N0))
          by (rewrite (channels_2 s0 N0); right; left; reflexivity).
        unfold active_buffers. rewrite P0, L0, B0. reflexivity. }
      rewrite <- H0, <- H1. destruct (buffer_16_ (exec Prepare s0)). reflexivity. }
  split.
  { intros Hm. unfold engine_calls, phase_vocoder_init_call, resolution, sample_rate.
    rewrite M0, Hm, Z.eqb_refl, P0, N0, L0. reflexivity. }
  intros Hs input output size. apply Process_prepared.
  - rewrite Prepare_bypass, E0. reflexivity.
  - rewrite Prepare_silence, E0. exact Hs.
  - exact R.
  - rewrite V, Prepare_playback_mode. reflexivity.
Qed.

(** X4 -- What [Prepare] establishes.  After [Prepare], from any state,
    the reset-buffers flag is clear and the active mode is the prepared
    one, while the mode, the channel count, the fidelity, the bypass and
    silence flags, the sizes of the two regions and the persistent state
    are as before (the bytes of the regions are not: a structural
    [Prepare] hands them to the ring buffers); so a processor that is
    neither bypassed nor silenced runs the block in the next
    [Process]. *)
Theorem Prepare_then_Process (s : GP) :
  let s1 := exec Prepare s in
  reset_buffers_ s1 = false
  /\ previous_playback_mode_ s1 = playback_mode_ s
  /\ playback_mode_ s1 = playback_mode_ s
  /\ num_channels_ s1 = num_channels_ s
  /\ low_fidelity_ s1 = low_fidelity_ s
  /\ bypass_ s1 = bypass_ s
  /\ silence_ s1 = silence_ s
  /\ buffer_size_ s1 = buffer_size_ s
  /\ persistent_state_ s1 = persistent_state_ s
  /\ (bypass_ s = false -> silence_ s = false ->
      forall (input output : list ShortFrame.t) (size : Z),
        Process input output size s1 = process_block input output size s1).
Proof.
  cbv zeta. destruct (Prepare_prepared s) as [R V].
  rewrite Prepare_playback_mode in V.
  split; [exact R |]. split; [exact V |].
  split; [apply Prepare_playback_mode |].
  split; [apply Prepare_num_channels |].
  split; [apply Prepare_low_fidelity |].
  split; [apply Prepare_bypass |].
  split; [apply Prepare_silence |].
  split; [apply Prepare_buffer_size |].
  split; [apply Prepare_persistent_state |].
  intros Hb Hs input output size. apply Process_prepared.
  - rewrite Prepare_bypass. exact Hb.
  - rewrite Prepare_silence. exact Hs.
  - exact R.
  - rewrite V, Prepare_playback_mode. reflexivity.
Qed.

(** X5 -- [Prepare] twice.  A second [Prepare] in a row neither resets
    the filters nor hands out the arena again: it runs the priming block
    of the mode and leaves everything else, the ring buffers included,
    as the first one left it. *)
Theorem Prepare_twice (s : GP) :
  exec Prepare (exec Prepare s)
  = set_calls (calls (exec Prepare s) ++ prime_calls s) (exec Prepare s).
Proof.
  destruct (Prepare_prepared s) as [R V].
  rewrite (Prepare_unchanged (exec Prepare s) R V).
  unfold prime_calls, resolution.
  rewrite Prepare_playback_mode, Prepare_low_fidelity. reflexivity.
Qed.

(** ** The outcome of [LoadPersistentData] on any stream *)

Lemma int32_range (h : Z) : - 2 ^ 31 <= int32 h < 2 ^ 31.
Proof.
  unfold int32. pose proof (Z.mod_pos_bound (h + 2 ^ 31) (2 ^ 32) ltac:(lia)). lia.
Qed.

Lemma load_blocks_outcome (blocks : list PersistentBlock.t) (data : list Z) (off : Z) (s : GP) :
  fst (load_blocks blocks data off s) = formats_ok blocks data off
  /\ silence_ (snd (load_blocks blocks data off s)) = false.
Proof.
  revert off s. induction blocks as [| b blocks IH]; intros off s; cbn [load_blocks formats_ok].
  - destruct (finish_load_spec s) as (Rok & _ & _ & Rs & _). split; assumption.
  - destruct (format_ok b data off).
    + rewrite run_bind. cbn [andb]. apply IH.
    + rewrite run_modify_ret. split; reflexivity.
Qed.

Lemma after_state_block_Prepare (s : GP) :
  exists mode,
    exec after_state_block s
    = exec Prepare
        (set_quality (PersistentState.quality (persistent_state_ s))
           (set_playback_mode mode s)).
Proof.
  destruct (Z.eq_dec (currently_spectral s) (PersistentState.spectral (persistent_state_ s)))
    as [E | N].
  - exists (playback_mode_ s). rewrite (after_state_block_same s E).
    f_equal; f_equal; destruct s; reflexivity.
  - eexists. apply (after_state_block_switch s N).
Qed.

Lemma after_first_block_fields (data : list Z) (s : GP) :
  let stored := memcpy_state data 2 in
  persistent_state_ (after_first_block data s) = stored
  /\ num_channels_ (after_first_block data s)
     = quality_num_channels (PersistentState.quality stored)
  /\ low_fidelity_ (after_first_block data s)
     = quality_low_fidelity (PersistentState.quality stored).
Proof.
  cbv zeta. unfold after_first_block.
  set (s1 := exec (copy_block state_block data 2) (set_silence_ true s)).
  assert (E1 : persistent_state_ s1 = memcpy_state data 2).
  { unfold s1, copy_block. rewrite exec_bind. reflexivity. }
  destruct (after_state_block_Prepare s1) as (mode & E). rewrite E, E1.
  split; [rewrite Prepare_persistent_state; exact E1 |].
  split; [rewrite Prepare_num_channels | rewrite Prepare_low_fidelity]; reflexivity.
Qed.

Lemma load_outcome (data : list Z) (s : GP) :
  let loaded := snd (LoadPersistentData data s) in
  let stored := memcpy_state data 2 in
  silence_ loaded = false
  /\ fst (LoadPersistentData data s)
     = format_ok state_block data 0
       && formats_ok (buffer_blocks (after_first_block data s)) data
            (next_block state_block 0)
  /\ (fst (LoadPersistentData data s) = true ->
      persistent_state_ loaded = stored
      /\ head (fst (active_buffers loaded)) = fst (PersistentState.write_head stored)
      /\ head (snd (active_buffers loaded)) = snd (PersistentState.write_head stored)
      /\ Parameters.freeze (parameters_ loaded) = true
      /\ num_channels_ loaded = quality_num_channels (PersistentState.quality stored)
      /\ low_fidelity_ loaded = quality_low_fidelity (PersistentState.quality stored)).
Proof.
  cbv zeta. destruct (format_ok state_block data 0) eqn:F0.
  - rewrite (LoadPersistentData_first_ok data s F0). cbn [andb].
    set (s2 := after_first_block data s).
    destruct (load_blocks_outcome (buffer_blocks s2) data (next_block state_block 0) s2)
      as [Rf Rs].
    split; [exact Rs |]. split; [exact Rf |].
    intros Ok. rewrite Rf in Ok.
    rewrite (load_blocks_ok _ _ _ _ Ok).
    set (s3 := copy_blocks (buffer_blocks s2) data (next_block state_block 0) s2).
    assert (K3 : forall B (f : GP -> B),
               (forall l s, f (set_calls l s) = f s) ->
               (forall v s, f (set_buffer_ v s) = f s) -> f s3 = f s2).
    { intros B f Hc Hb. apply copy_blocks_keeps; auto. apply buffer_blocks_are_buffers. }
    destruct (after_first_block_fields data s) as (P2 & N2 & L2). fold s2 in P2, N2, L2.
    destruct (finish_load_spec s3) as (_ & Rb & Rz & _ & Rp & _ & Rn & Rl).
    rewrite (K3 _ persistent_state_) in Rb, Rp by reflexivity.
    rewrite (K3 _ num_channels_) in Rn by reflexivity.
    rewrite (K3 _ low_fidelity_) in Rl by reflexivity.
    rewrite P2 in Rb, Rp.
    split; [exact Rp |].
    split; [rewrite Rb; cbn [fst]; apply head_Resync; apply int32_range |].
    split; [rewrite Rb; cbn [snd]; apply head_Resync; apply int32_range |].
    split; [exact Rz |].
    split; [rewrite Rn; exact N2 | rewrite Rl; exact L2].
  - rewrite (LoadPersistentData_first_mismatch data s F0). cbn [fst snd andb].
    split; [reflexivity |]. split; [reflexivity |]. discriminate.
Qed.

(** X6 -- The outcome of a load.  For every stream and every processor,
    [LoadPersistentData] returns with the silence flag cleared; it
    returns true exactly when the state block and then every buffer
    block of the configuration read from it carry the expected tag and
    size; and when it returns true the persistent state is the one read
    from the stream, the write head of each ring buffer in use is the
    stored one, freeze is engaged, and the channel count and the fidelity
    are those of the stored quality. *)
Theorem LoadPersistentData_outcome (data : list Z) (s : GP) :
  let loaded := snd (LoadPersistentData data s) in
  let stored := memcpy_state data 2 in
  silence_ loaded = false
  /\ fst (LoadPersistentData data s)
     = format_ok state_block data 0
       && formats_ok (buffer_blocks (after_first_block data s)) data
            (next_block state_block 0)
  /\ (fst (LoadPersistentData data s) = true ->
      persistent_state_ loaded = stored
      /\ head (fst (active_buffers loaded)) = fst (PersistentState.write_head stored)
      /\ head (snd (active_buffers loaded)) = snd (PersistentState.write_head stored)
      /\ Parameters.freeze (parameters_ loaded) = true
      /\ num_channels_ loaded = quality_num_channels (PersistentState.quality stored)
      /\ low_fidelity_ loaded = quality_low_fidelity (PersistentState.quality stored)).
Proof. exact (load_outcome data s). Qed.

(** ** Saving in one mode, loading in another *)

Lemma after_state_block_mode (s : GP) :
  playback_mode_ (exec after_state_block s)
  = if currently_spectral s =? PersistentState.spectral (persistent_state_ s)
    then playback_mode_ s
    else if PersistentState.spectral (persistent_state_ s) =? 0
         then PLAYBACK_MODE_GRANULAR
         else PersistentState.spectral (persistent_state_ s).
Proof.
  destruct (Z.eqb_spec (currently_spectral s) (PersistentState.spectral (persistent_state_ s)))
    as [E | N].
  - rewrite (after_state_block_same s E), Prepare_playback_mode. reflexivity.
  - rewrite (after_state_block_switch s N), Prepare_playback_mode. reflexivity.
Qed.

(** A spectral mode that fits in the byte the persistent state stores it
    in, and that is not the zero that stands for no spectral mode. *)
Definition storable_mode (s : GP) : Prop :=
  is_spectral (playback_mode_ s) = true -> 0 < playback_mode_ s < 256.

Lemma currently_spectral_storable (s : GP) :
  storable_mode s ->
  currently_spectral s = (if is_spectral (playback_mode_ s) then playback_mode_ s else 0)
  /\ (is_spectral (playback_mode_ s) = true -> currently_spectral s <> 0).
Proof.
  unfold storable_mode, currently_spectral, uint8. intros H.
  destruct (is_spectral (playback_mode_ s)).
  - specialize (H eq_refl). rewrite Z.mod_small by lia. split; [reflexivity | lia].
  - split; [reflexivity | discriminate].
Qed.

(** X7 -- Round trip across modes.  A stream saved by one processor is
    accepted by a processor of the same buffer geometry whatever mode
    that one is in: the load returns true, the write heads are those of
    the saved ring buffers, the channel count and the fidelity are the
    saved ones, freeze is engaged, and the processor ends in the saved
    mode when that is a spectral one, in GRANULAR when the saved mode is
    not spectral but its own was, and in its own mode otherwise. *)
Theorem persistence_round_trip_across_modes (saved current : GP) :
  saveable saved ->
  quality_decodes saved ->
  buffer_size_ current = buffer_size_ saved ->
  storable_mode saved ->
  storable_mode current ->
  let stream := save_stream (PreparePersistentData saved) in
  let loaded := snd (LoadPersistentData stream current) in
  fst (LoadPersistentData stream current) = true
  /\ head (fst (active_buffers loaded)) = head (fst (active_buffers saved))
  /\ head (snd (active_buffers loaded)) = head (snd (active_buffers saved))
  /\ num_channels_ loaded = num_channels_ saved
  /\ low_fidelity_ loaded = low_fidelity_ saved
  /\ Parameters.freeze (parameters_ loaded) = true
  /\ playback_mode_ loaded
     = if is_spectral (playback_mode_ saved) then playback_mode_ saved
       else if is_spectral (playback_mode_ current) then PLAYBACK_MODE_GRANULAR
       else playback_mode_ current.
Proof.
  intros (H0 & H4) (Qn & Ql) Hs Ss Sc stream loaded. subst loaded.
  set (P := PreparePersistentData saved) in *.
  assert (EP : persistent_state_ P =
               PersistentState.mk
                 (head (fst (active_buffers saved)), head (snd (active_buffers saved)))
                 (uint8 (quality saved)) (currently_spectral saved))
    by apply PreparePersistentData_state.
  destruct (save_stream_formats_ok P H0 H4) as [F0 F1].
  fold stream in F0, F1.
  assert (D : memcpy_state stream 2 = persistent_state_ P).
  { apply memcpy_state_save_stream. rewrite EP. cbv zeta.
    cbn [PersistentState.write_head PersistentState.quality PersistentState.spectral fst snd].
    repeat split; try apply head_int32; try apply uint8_range.
    - unfold currently_spectral. destruct (is_spectral _); [apply uint8_range | lia].
    - unfold currently_spectral. destruct (is_spectral _); [apply uint8_range | lia]. }
  destruct (load_outcome stream current) as (_ & Rf & Rt).
  destruct (after_first_block_fields stream current) as (_ & N2 & L2).
  rewrite D, EP in N2, L2. cbn [PersistentState.quality] in N2, L2.
  rewrite Qn in N2. rewrite Ql in L2.
  set (s2 := after_first_block stream current) in *.
  assert (B2 : buffer_size_ s2 = buffer_size_ saved).
  { unfold s2, after_first_block.
    destruct (after_state_block_Prepare
                (exec (copy_block state_block stream 2) (set_silence_ true current)))
      as (mode & E).
    rewrite E, Prepare_buffer_size. unfold copy_block. rewrite exec_bind. exact Hs. }
  assert (K2 : buffer_blocks s2 = buffer_blocks P).
  { unfold buffer_blocks, channels. rewrite N2, B2. reflexivity. }
  assert (Ok : fst (LoadPersistentData stream current) = true).
  { rewrite Rf, F0, K2, F1. reflexivity. }
  destruct (Rt Ok) as (_ & Hh0 & Hh1 & Hz & Hn & Hl).
  rewrite D, EP in Hh0, Hh1, Hn, Hl.
  cbn [PersistentState.write_head PersistentState.quality fst snd] in Hh0, Hh1, Hn, Hl.
  split; [exact Ok |]. split; [exact Hh0 |]. split; [exact Hh1 |].
  split; [rewrite Hn; exact Qn |]. split; [rewrite Hl; exact Ql |].
  split; [exact Hz |].
  (* the mode *)
  rewrite (LoadPersistentData_first_ok stream current F0). fold s2.
  rewrite K2, (load_blocks_ok _ _ _ _ F1).
  destruct (finish_load_spec (copy_blocks (buffer_blocks P) stream (next_block state_block 0) s2))
    as (_ & _ & _ & _ & _ & Rm & _).
  rewrite Rm.
  rewrite (copy_blocks_keeps playback_mode_)
    by (try reflexivity; apply buffer_blocks_are_buffers).
  unfold s2, after_first_block. rewrite after_state_block_mode.
  set (s1 := exec (copy_block state_block stream 2) (set_silence_ true current)).
  assert (E1 : persistent_state_ s1 = persistent_state_ P).
  { unfold s1, copy_block. rewrite exec_bind. exact D. }
  assert (M1 : playback_mode_ s1 = playback_mode_ current).
  { unfold s1, copy_block. rewrite exec_bind. reflexivity. }
  assert (C1 : currently_spectral s1 = currently_spectral current).
  { unfold currently_spectral. rewrite M1. reflexivity. }
  rewrite E1, EP, C1, M1. cbn [PersistentState.spectral].
  destruct (currently_spectral_storable saved Ss) as [Cs Ns].
  destruct (currently_spectral_storable current Sc) as [Cc Nc].
  rewrite Cs, Cc in *.
  destruct (is_spectral (playback_mode_ saved)) eqn:Is;
    destruct (is_spectral (playback_mode_ current)) eqn:Ic.
  - destruct (Z.eqb_spec (playback_mode_ current) (playback_mode_ saved)) as [E | N].
    + exact E.
    + specialize (Ns eq_refl). apply Z.eqb_neq in Ns. rewrite Ns. reflexivity.
  - specialize (Ns eq_refl).
    destruct (Z.eqb_spec 0 (playback_mode_ saved)) as [E | N]; [congruence |].
    apply Z.eqb_neq in Ns. rewrite Ns. reflexivity.
  - specialize (Nc eq_refl). apply Z.eqb_neq in Nc. rewrite Nc. reflexivity.
  - reflexivity.
Qed.

(** ** What [Process] leaves alone *)

(** The controls of the processor: the parameters that are set from
    outside, as opposed to the meta-parameters that [ProcessGranular]
    derives from them. *)
Definition controls (p : Parameters.t)
    : float * float * float * float * float * float * float * float * float
      * bool * bool * bool :=
  (Parameters.position p, Parameters.size p, Parameters.pitch p, Parameters.density p,
   Parameters.texture p, Parameters.dry_wet p, Parameters.stereo_spread p,
   Parameters.feedback p, Parameters.reverb p, Parameters.freeze p,
   Parameters.trigger p, Parameters.gate p).

(** The configuration of the processor: what [Process] reads and never
    writes.  The bytes of the two regions are not part of it: the
    recording stage writes them through the ring buffers. *)
Definition configuration (s : GP) :=
  (playback_mode_ s, previous_playback_mode_ s, num_channels_ s, low_fidelity_ s,
   bypass_ s, silence_ s, reset_buffers_ s, mute_in_ s, mute_out_ s,
   reverb_dry_signal_ s, buffer_size_ s, persistent_state_ s,
   controls (parameters_ s)).

Ltac keeps_field :=
  repeat first
    [ apply keeps_ret | apply keeps_get | apply keeps_ask
    | apply keeps_bind; [| intros ?]
    | apply keeps_modify; intros; reflexivity
    | apply keeps_modify; intros; match goal with |- context [if ?b then _ else _] =>
                                    destruct b; reflexivity end
    | apply keeps_when
    | apply keeps_for_each; intros ?
    | apply keeps_call; intros; reflexivity
    | apply keeps_call_frames; intros; reflexivity
    | apply keeps_call_samples; intros; reflexivity
    | apply keeps_let_pair; intros ? ?
    | apply keeps_if ].

Lemma keeps_configuration_ProcessGranular (input output : list FloatFrame.t) (size : Z) :
  keeps configuration (ProcessGranular input output size).
Proof.
  unfold ProcessGranular, record_input, write_fade, dispatch, granular_branch,
    spectral_branch, spectral_cloud_branch, oliverb_branch, resonestor_branch, play,
    process_in_place.
  keeps_field.
Qed.

Lemma keeps_configuration_apply_feedback (size : Z) :
  keeps configuration (apply_feedback size).
Proof.
  unfold apply_feedback, feedback_filter, filter_channel. keeps_field.
Qed.

Lemma keeps_configuration_apply_reverb (feedback : float) (size : Z) :
  keeps configuration (apply_reverb feedback size).
Proof.
  unfold apply_reverb, process_in_place. keeps_field.
Qed.

Lemma keeps_configuration_process_block (input output : list ShortFrame.t) (size : Z) :
  keeps configuration (process_block input output size).
Proof.
  unfold process_block, filter_channel, process_in_place.
  repeat first
    [ apply keeps_configuration_ProcessGranular
    | apply keeps_configuration_apply_feedback
    | apply keeps_configuration_apply_reverb
    | progress keeps_field ].
Qed.

(** X8 -- The frame of [Process].  Whatever the flags, the mode and the
    block, [Process] leaves the configuration of the processor as it
    found it: the playback mode and the prepared mode, the channel
    count, the fidelity, the bypass, silence, reset-buffers and mute
    flags, the reverb placement, the sizes of the two memory regions,
    the persistent state, and every control parameter (position, size,
    pitch, density, texture, dry/wet, stereo spread, feedback, reverb,
    freeze, trigger and gate).  The contents of the regions are not part
    of the frame: the ring buffers record the input there. *)
Theorem Process_frame (input output : list ShortFrame.t) (size : Z) (s : GP) :
  configuration (exec (Process input output size) s) = configuration s.
Proof.
  revert s. change (keeps configuration (Process input output size)).
  unfold Process. apply keeps_bind; [apply keeps_get | intros s0].
  repeat apply keeps_if; try apply keeps_ret.
  apply keeps_configuration_process_block.
Qed.

(** ** What [Process] never calls *)

(** The calls that belong to the audio path: no engine, filter or ring
    buffer is initialised, no memory is copied, and a ring buffer is only
    ever written with [WriteFade]. *)
Definition audio_call (c : Call) : Prop :=
  method c <> "Init"
  /\ match target c with
     | ring_buffer _ _ => method c = "WriteFade"
     | libc => False
     | _ => True
     end.

Ltac audio_calls :=
  repeat first
    [ apply emits_ret | apply emits_get | apply emits_ask
    | apply emits_bind; [| intros ?]
    | apply emits_modify; intros; reflexivity
    | apply emits_modify; intros; match goal with |- context [if ?b then _ else _] =>
                                    destruct b; reflexivity end
    | apply emits_when
    | apply emits_for_each; intros ?
    | apply emits_call | apply emits_call_frames | apply emits_call_samples
    | apply emits_let_pair; intros ? ?
    | apply emits_if ];
  try (split; [discriminate | first [exact I | reflexivity]]).

Lemma emits_audio_ProcessGranular (input output : list FloatFrame.t) (size : Z) :
  emits audio_call (ProcessGranular input output size).
Proof.
  unfold ProcessGranular, record_input, write_fade, dispatch, granular_branch,
    spectral_branch, spectral_cloud_branch, oliverb_branch, resonestor_branch, play,
    process_in_place.
  audio_calls.
Qed.

Lemma emits_audio_apply_feedback (size : Z) : emits audio_call (apply_feedback size).
Proof. unfold apply_feedback, feedback_filter, filter_channel. audio_calls. Qed.

Lemma emits_audio_apply_reverb (feedback : float) (size : Z) :
  emits audio_call (apply_reverb feedback size).
Proof. unfold apply_reverb, process_in_place. audio_calls. Qed.

Lemma emits_audio_process_block (input output : list ShortFrame.t) (size : Z) :
  emits audio_call (process_block input output size).
Proof.
  unfold process_block, filter_channel, process_in_place.
  repeat first
    [ apply emits_audio_ProcessGranular
    | apply emits_audio_apply_feedback
    | apply emits_audio_apply_reverb
    | progress audio_calls ].
Qed.

(** X9 -- [Process] stays on the audio path.  Whatever the mode and the
    block, [Process] only appends to the call log, and none of its calls
    initialises an engine, a filter or a ring buffer, or copies memory;
    the only call it ever makes on a ring buffer is [WriteFade]. *)
Theorem Process_audio_calls (input output : list ShortFrame.t) (size : Z) (s : GP) :
  exists d,
    calls (exec (Process input output size) s) = calls s ++ d
    /\ Forall audio_call d.
Proof.
  revert s. change (emits audio_call (Process input output size)).
  unfold Process. apply emits_bind; [apply emits_get | intros s0].
  repeat apply emits_if; try apply emits_ret.
  apply emits_audio_process_block.
Qed.

(** ** The frames [Process] writes *)

(** [returns P c]: the result of [c] satisfies [P], from any state. *)
Definition returns {A : Type} (P : A -> Prop) (c : M A) : Prop :=
  forall s, P (fst (c s)).

Lemma returns_ret {A : Type} (P : A -> Prop) (x : A) : P x -> returns P (ret x).
Proof. intros H s. exact H. Qed.

Lemma returns_bind {A B : Type} (P : B -> Prop) (c : M A) (k : A -> M B) :
  (forall x, returns P (k x)) -> returns P (bind c k).
Proof. intros H s. rewrite run_bind. apply H. Qed.

Lemma returns_if {A : Type} (P : A -> Prop) (b : bool) (c1 c2 : M A) :
  returns P c1 -> returns P c2 -> returns P (if b then c1 else c2).
Proof. destruct b; auto. Qed.

(** The block written and nothing after it. *)
Definition writes_block {A : Type} (size : Z) (output result : list A) : Prop :=
  length result = length output
  /\ forall i, (Z.to_nat size <= i)%nat -> nth_error result i = nth_error output i.

Lemma fill_writes_block {A : Type} (f : nat -> A) (size : Z) (output : list A) :
  0 <= size <= Z.of_nat (length output) -> writes_block size output (fill f size output).
Proof.
  intros H. split.
  - unfold fill. rewrite length_app, length_map, length_seq, length_skipn. lia.
  - intros i Hi. apply fill_nth_error_beyond. exact Hi.
Qed.

Lemma copy_writes_block {A : Type} (input output : list A) (size : Z) :
  0 <= size <= Z.of_nat (length input) ->
  0 <= size <= Z.of_nat (length output) ->
  writes_block size output (copy input size output).
Proof.
  intros Hi Ho. split.
  - unfold copy. rewrite length_app, length_firstn, length_skipn. lia.
  - intros i Hn. apply copy_nth_error_beyond; assumption.
Qed.

(** X10 -- [Process] writes the block and nothing else.  For a block
    that fits in the input and in the output arrays, in every path of
    [Process] (bypassed, silent or processing, in every mode) the output
    array keeps its length and every frame after the first [size] is the
    one that was there. *)
Theorem Process_writes_block (input output : list ShortFrame.t) (size : Z) (s : GP) :
  0 <= size <= Z.of_nat (length input) ->
  0 <= size <= Z.of_nat (length output) ->
  length (fst (Process input output size s)) = length output
  /\ forall i, (Z.to_nat size <= i)%nat ->
       nth_error (fst (Process input output size s)) i = nth_error output i.
Proof.
  intros Hi Ho. revert s.
  change (returns (writes_block size output) (Process input output size)).
  unfold Process. apply returns_bind. intros s0.
  apply returns_if; [apply returns_ret, copy_writes_block; assumption |].
  apply returns_if; [apply returns_ret, fill_writes_block; assumption |].
  unfold process_block.
  repeat (apply returns_bind; intros ?).
  apply returns_ret, fill_writes_block. assumption.
Qed.

(** ** [WarmDistortion] on a NaN *)

Lemma fmul_nan_l (x : float) : (S754_nan * x)%f32 = S754_nan.
Proof. reflexivity. Qed.

Lemma fmul_nan_r (x : float) : (x * S754_nan)%f32 = S754_nan.
Proof. destruct x; reflexivity. Qed.

Lemma fadd_nan_l (x : float) : (S754_nan + x)%f32 = S754_nan.
Proof. reflexivity. Qed.

Lemma fadd_nan_r (x : float) : (x + S754_nan)%f32 = S754_nan.
Proof. destruct x; reflexivity. Qed.

Lemma fsub_nan_l (x : float) : (S754_nan - x)%f32 = S754_nan.
Proof. reflexivity. Qed.

Lemma fsub_nan_r (x : float) : (x - S754_nan)%f32 = S754_nan.
Proof. destruct x; reflexivity. Qed.

Ltac nan_steps :=
  repeat (progress rewrite ?fmul_nan_l, ?fmul_nan_r, ?fadd_nan_l, ?fadd_nan_r,
             ?fsub_nan_l, ?fsub_nan_r).

(** The clamp [max(-1, min(1, smp))] maps a NaN to 1: [std::min(1, smp)]
    keeps its first argument unless the second compares below it. *)
Lemma clamp_nan : std_max (- fone)%f32 (std_min fone S754_nan) = fone.
Proof. reflexivity. Qed.

(** X11 -- [WarmDistortion] and NaN.  When the distortion is applied (the
    parameter is not below 0.1) a NaN sample comes out as 1.0, and with
    a NaN parameter, which is not below 0.1 either, every sample comes
    out as 1.0: the function never writes a NaN. *)
Theorem WarmDistortion_nan (in_value parameter : float) :
  (in_value = S754_nan /\ below_threshold parameter = false) \/ parameter = S754_nan ->
  WarmDistortion in_value parameter = fone.
Proof.
  intros [[Hi Hp] | Hp]; unfold WarmDistortion.
  - rewrite Hp, Hi. cbv zeta. nan_steps. apply clamp_nan.
  - subst parameter. change (below_threshold S754_nan) with false. cbv zeta.
    nan_steps. apply clamp_nan.
Qed.

(** ** The parameters and the modes of [ProcessGranular] *)

Lemma exec_ProcessGranular (input output : list FloatFrame.t) (size : Z) (s : GP) :
  ProcessGranular input output size s
  = dispatch input output size (exec (record_input input size) s).
Proof. unfold ProcessGranular. rewrite run_bind. reflexivity. Qed.

Lemma record_input_mode (input : list FloatFrame.t) (size : Z) (s : GP) :
  playback_mode_ (exec (record_input input size) s) = playback_mode_ s.
Proof. apply (keeps_record_input playback_mode_); intros; reflexivity. Qed.

Lemma record_input_parameters (input : list FloatFrame.t) (size : Z) (s : GP) :
  parameters_ (exec (record_input input size) s) = parameters_ s.
Proof. apply (keeps_record_input parameters_); intros; reflexivity. Qed.

(** X12 -- Only two modes derive parameters.  In every playback mode
    other than GRANULAR and SPECTRAL, [ProcessGranular] returns with the
    parameter block exactly as it found it: the OLIVERB branch plays
    through a local copy, and the other branches only read. *)
Theorem ProcessGranular_parameters (input output : list FloatFrame.t) (size : Z) (s : GP) :
  playback_mode_ s <> PLAYBACK_MODE_GRANULAR ->
  playback_mode_ s <> PLAYBACK_MODE_SPECTRAL ->
  parameters_ (exec (ProcessGranular input output size) s) = parameters_ s.
Proof.
  intros Hg Hs. unfold exec. rewrite exec_ProcessGranular.
  set (s1 := exec (record_input input size) s).
  assert (M1 : playback_mode_ s1 = playback_mode_ s) by apply record_input_mode.
  rewrite <- (record_input_parameters input size s). fold s1.
  apply Z.eqb_neq in Hg, Hs.
  unfold dispatch. rewrite run_bind. cbn [get fst snd].
  rewrite M1, Hg.
  destruct (playback_mode_ s =? PLAYBACK_MODE_STRETCH);
    [apply (keeps_play parameters_); intros; reflexivity |].
  destruct (playback_mode_ s =? PLAYBACK_MODE_LOOPING_DELAY);
    [apply (keeps_play parameters_); intros; reflexivity |].
  rewrite Hs.
  repeat match goal with
         | |- parameters_ (snd ((if ?b then _ else _) _)) = _ => destruct b
         end;
    first
      [ apply (keeps_play parameters_); intros; reflexivity
      | reflexivity
      | match goal with
        | |- parameters_ (snd (?c ?x)) = parameters_ ?x =>
            let H := fresh in
            assert (H : keeps parameters_ c); [| exact (H x)]
        end;
        unfold spectral_cloud_branch, oliverb_branch, resonestor_branch, play,
          process_in_place;
        keeps_field ].
Qed.

(** X13 -- A mode the switch does not list.  When the playback mode is
    none of the eight modes of the switch (the sentinel, for one),
    [ProcessGranular] still records the input of each channel in the
    ring buffers and then falls through: the output block is returned
    as it was given, no engine is called and the parameters are
    untouched. *)
Theorem ProcessGranular_unlisted_mode (input output : list FloatFrame.t) (size : Z) (s : GP) :
  playback_mode_ s <> PLAYBACK_MODE_GRANULAR ->
  playback_mode_ s <> PLAYBACK_MODE_STRETCH ->
  playback_mode_ s <> PLAYBACK_MODE_LOOPING_DELAY ->
  playback_mode_ s <> PLAYBACK_MODE_SPECTRAL ->
  playback_mode_ s <> PLAYBACK_MODE_SPECTRAL_CLOUD ->
  playback_mode_ s <> PLAYBACK_MODE_OLIVERB ->
  playback_mode_ s <> PLAYBACK_MODE_RESONESTOR ->
  playback_mode_ s <> PLAYBACK_MODE_KAMMERL ->
  fst (ProcessGranular input output size s) = output
  /\ calls (exec (ProcessGranular input output size) s)
     = calls s ++ map (write_fade_call s input size) (channels s)
  /\ parameters_ (exec (ProcessGranular input output size) s) = parameters_ s.
Proof.
  intros H1 H2 H3 H4 H5 H6 H7 H8.
  assert (R : records_input s = true).
  { unfold records_input. apply Z.eqb_neq in H4, H5, H7. rewrite H4, H5, H7. reflexivity. }
  unfold exec. rewrite exec_ProcessGranular.
  set (s1 := exec (record_input input size) s).
  assert (M1 : playback_mode_ s1 = playback_mode_ s) by apply record_input_mode.
  assert (D : dispatch input output size s1 = (output, s1)).
  { unfold dispatch. rewrite run_bind. cbn [get fst snd]. rewrite M1.
    apply Z.eqb_neq in H1, H2, H3, H4, H5, H6, H7, H8.
    rewrite H1, H2, H3, H4, H5, H6, H7, H8. reflexivity. }
  rewrite D. cbn [fst snd].
  split; [reflexivity |].
  split; [apply record_input_calls; exact R | apply record_input_parameters].
Qed.

(** ** Single-precision numbers: when an operation yields a NaN *)

Lemma shr_1_nonneg (mrs : shr_record) : 0 <= shr_m mrs -> 0 <= shr_m (shr_1 mrs).
Proof.
  destruct mrs as [m r s]. cbn [shr_m shr_1].
  destruct m as [| [p | p |] | p]; cbn [shr_m]; lia.
Qed.

Lemma iter_shr_1_nonneg (p : positive) (mrs : shr_record) :
  0 <= shr_m mrs -> 0 <= shr_m (iter_pos shr_1 p mrs).
Proof.
  revert mrs. induction p as [p IH | p IH |]; intros mrs H; cbn [iter_pos].
  - apply IH, IH, shr_1_nonneg, H.
  - apply IH, IH, H.
  - apply shr_1_nonneg, H.
Qed.

Lemma shr_fexp_nonneg (m e : Z) (l : location) :
  0 <= m -> 0 <= shr_m (fst (shr_fexp prec emax m e l)).
Proof.
  intros H. unfold shr_fexp, shr.
  assert (R : 0 <= shr_m (shr_record_of_loc m l)).
  { destruct l as [| []]; exact H. }
  destruct (fexp prec emax (Zdigits2 m + e) - e); cbn [fst]; try exact R.
  apply iter_shr_1_nonneg, R.
Qed.

Lemma round_nearest_even_nonneg (m : Z) (l : location) :
  0 <= m -> 0 <= round_nearest_even m l.
Proof.
  intros H. destruct l as [| []]; cbn [round_nearest_even]; try destruct (Z.even m); lia.
Qed.

Lemma binary_round_aux_not_nan (sx : bool) (mx ex : Z) (lx : location) :
  0 <= mx -> binary_round_aux prec emax sx mx ex lx <> S754_nan.
Proof.
  intros H. unfold binary_round_aux.
  pose proof (shr_fexp_nonneg mx ex lx H) as H1.
  destruct (shr_fexp prec emax mx ex lx) as [mrs' e']. cbn [fst] in H1.
  pose proof (shr_fexp_nonneg
                (round_nearest_even (shr_m mrs') (loc_of_shr_record mrs')) e' loc_Exact
                (round_nearest_even_nonneg _ _ H1)) as H2.
  destruct (shr_fexp prec emax _ e' loc_Exact) as [mrs'' e'']. cbn [fst] in H2.
  destruct (shr_m mrs'') as [| m | m]; [discriminate | | lia].
  destruct (e'' <=? emax - prec); discriminate.
Qed.

Lemma binary_normalize_not_nan (m e : Z) (szero : bool) :
  binary_normalize prec emax m e szero <> S754_nan.
Proof.
  unfold binary_normalize, binary_round.
  destruct m as [| m | m]; [discriminate | |];
    destruct (shl_align _ _ _) as [mz ez]; apply binary_round_aux_not_nan; lia.
Qed.

(** Subtracting a finite number from a number gives a number. *)
Lemma fsub_finite_not_nan (x c : float) :
  x <> S754_nan -> is_finite c = true -> (x - c)%f32 <> S754_nan.
Proof.
  intros Hx Hc. destruct c as [sc | sc | | sc mc ec]; try discriminate Hc;
    destruct x as [sx | sx | | sx mx ex]; try congruence; cbn; try discriminate.
  - destruct sx, sc; discriminate.
  - apply binary_normalize_not_nan.
Qed.

Lemma fmul_finite_not_nan (x y : float) :
  is_finite x = true -> is_finite y = true -> (x * y)%f32 <> S754_nan.
Proof.
  intros Hx Hy.
  destruct x as [sx | sx | | sx mx ex]; try discriminate Hx;
    destruct y as [sy | sy | | sy my ey]; try discriminate Hy; cbn; try discriminate.
  apply binary_round_aux_not_nan. lia.
Qed.

(** [x * (x * c)], for a finite constant [c] other than zero, is a
    number whenever [x] is. *)
Lemma fmul_square_not_nan (x c : float) :
  x <> S754_nan -> is_finite c = true -> is_zero c = false ->
  (x * (x * c))%f32 <> S754_nan.
Proof.
  intros Hx Hc Hz.
  destruct c as [sc | sc | | sc mc ec]; try discriminate Hc; try discriminate Hz.
  destruct x as [sx | sx | | sx mx ex]; try congruence; try (cbn; discriminate).
  pose proof (fmul_finite_not_nan (S754_finite sx mx ex) (S754_finite sc mc ec)
                eq_refl eq_refl) as N.
  destruct (S754_finite sx mx ex * S754_finite sc mc ec)%f32 as [st | st | | st mt et] eqn:E;
    try congruence; try (cbn; discriminate).
  apply fmul_finite_not_nan; reflexivity.
Qed.

(** ** The order on single-precision numbers *)

Lemma SFcompare_swap (x y : float) :
  SFcompare y x = option_map CompOpp (SFcompare x y).
Proof.
  destruct x as [sx | sx | | sx mx ex], y as [sy | sy | | sy my ey];
    cbn [SFcompare option_map]; try reflexivity;
    try (destruct sx; reflexivity); try (destruct sy; reflexivity);
    try (destruct sx, sy; reflexivity).
  destruct sx, sy; try reflexivity; f_equal;
    rewrite (Z.compare_antisym ex ey); destruct (ex ?= ey); cbn [CompOpp]; try reflexivity;
    rewrite ?CompOpp_involutive, ?(Pos.compare_cont_antisym mx my Eq),
      ?(Pos.compare_cont_antisym my mx Eq); reflexivity.
Qed.

Lemma SFcompare_refl (x : float) : x <> S754_nan -> SFcompare x x = Some Eq.
Proof.
  intros H. destruct x as [sx | sx | | sx mx ex]; try congruence; cbn [SFcompare].
  - reflexivity.
  - destruct sx; reflexivity.
  - rewrite Z.compare_refl, Pos.compare_cont_refl. destruct sx; reflexivity.
Qed.

Lemma fle_refl (x : float) : x <> S754_nan -> fle x x = true.
Proof. intros H. unfold fle, SFleb. rewrite (SFcompare_refl x H). reflexivity. Qed.

Lemma fle_not_nan_l (x y : float) : fle x y = true -> x <> S754_nan.
Proof. intros H E. subst x. discriminate H. Qed.

Lemma fle_not_nan_r (x y : float) : fle x y = true -> y <> S754_nan.
Proof. intros H E. subst y. destruct x; discriminate H. Qed.

(** Between two numbers, "not below" is "at least". *)
Lemma flt_false_fle (x y : float) :
  x <> S754_nan -> y <> S754_nan -> flt x y = false -> fle y x = true.
Proof.
  intros Hx Hy H. unfold flt, fle, SFltb, SFleb in *. rewrite (SFcompare_swap x y).
  destruct (SFcompare x y) as [[| |] |] eqn:E; cbn; try reflexivity; try discriminate.
  destruct x, y; cbn in E; congruence.
Qed.

(** [CONSTRAIN] brings every number into the range. *)
Lemma CONSTRAIN_range (var lo hi : float) :
  var <> S754_nan -> fle lo hi = true ->
  fle lo (CONSTRAIN var lo hi) = true /\ fle (CONSTRAIN var lo hi) hi = true.
Proof.
  intros Hv Hr.
  pose proof (fle_not_nan_l lo hi Hr) as Hlo. pose proof (fle_not_nan_r lo hi Hr) as Hhi.
  unfold CONSTRAIN.
  destruct (flt var lo) eqn:E1.
  - split; [apply fle_refl; exact Hlo | exact Hr].
  - change (var >? hi)%f32 with (flt hi var).
    destruct (flt hi var) eqn:E2.
    + split; [exact Hr | apply fle_refl; exact Hhi].
    + split; apply flt_false_fle; assumption.
Qed.

(** ** The spectral meta-parameters *)

(** The meta-parameters of the spectral mode, as functions of the
    controls. *)
Definition spectral_parameters (p : Parameters.t) : Parameters.t :=
  let warp := (Parameters.size p - dec 5 1)%f32 in
  let randomization := (Parameters.density p - dec 5 1)%f32 in
  let randomization := (randomization * (randomization * dec 42 1))%f32 in
  let randomization := (randomization - dec 5 2)%f32 in
  let randomization := CONSTRAIN randomization fzero fone in
  Parameters.set_spectral
    (Parameters.texture p)
    (dec 1 2 + dec 99 2 * Parameters.density p)%f32
    (dec 4 0 * warp * warp * warp + dec 5 1)%f32
    randomization p.

Lemma ProcessGranular_spectral (input output : list FloatFrame.t) (size : Z) (s : GP) :
  playback_mode_ s = PLAYBACK_MODE_SPECTRAL ->
  playback_mode_ s <> PLAYBACK_MODE_GRANULAR ->
  playback_mode_ s <> PLAYBACK_MODE_STRETCH ->
  playback_mode_ s <> PLAYBACK_MODE_LOOPING_DELAY ->
  exec (ProcessGranular input output size) s
  = set_calls
      (calls s ++ [mkCall phase_vocoder_ "Process"
                     [AParameters (spectral_parameters (parameters_ s));
                      AFrames (firstn (Z.to_nat size) input); AZ size]])
      (set_parameters_ (spectral_parameters (parameters_ s)) s).
Proof.
  intros Hm Hg Hs Hl.
  assert (R : records_input s = false).
  { unfold records_input. rewrite Hm, Z.eqb_refl. reflexivity. }
  unfold exec. rewrite exec_ProcessGranular, (record_input_idle input size s R).
  apply Z.eqb_neq in Hg, Hs, Hl.
  unfold dispatch. rewrite run_bind. cbn [get fst snd].
  rewrite Hg, Hs, Hl, Hm, Z.eqb_refl.
  reflexivity.
Qed.

(** X14 -- The spectral meta-parameters.  In the SPECTRAL mode
    [ProcessGranular] writes no ring buffer and makes one call, to the
    phase vocoder, with the parameters it leaves in the processor: the
    controls are untouched, the quantization is the texture, the refresh
    rate is [0.01 + 0.99 * density], the warp is
    [4 * (size - 0.5)^3 + 0.5], and the phase randomization is clamped:
    for every density that is a number it lies in [[0, 1]]. *)
Theorem spectral_meta_parameters (input output : list FloatFrame.t) (size : Z) (s : GP) :
  playback_mode_ s = PLAYBACK_MODE_SPECTRAL ->
  playback_mode_ s <> PLAYBACK_MODE_GRANULAR ->
  playback_mode_ s <> PLAYBACK_MODE_STRETCH ->
  playback_mode_ s <> PLAYBACK_MODE_LOOPING_DELAY ->
  let p := parameters_ s in
  let p' := parameters_ (exec (ProcessGranular input output size) s) in
  calls (exec (ProcessGranular input output size) s)
  = calls s ++ [mkCall phase_vocoder_ "Process"
                  [AParameters p'; AFrames (firstn (Z.to_nat size) input); AZ size]]
  /\ controls p' = controls p
  /\ Parameters.spectral_quantization p' = Parameters.texture p
  /\ Parameters.spectral_refresh_rate p'
     = (dec 1 2 + dec 99 2 * Parameters.density p)%f32
  /\ Parameters.spectral_warp p'
     = (dec 4 0 * (Parameters.size p - dec 5 1) * (Parameters.size p - dec 5 1)
        * (Parameters.size p - dec 5 1) + dec 5 1)%f32
  /\ (Parameters.density p <> S754_nan ->
      fle fzero (Parameters.spectral_phase_randomization p') = true
      /\ fle (Parameters.spectral_phase_randomization p') fone = true).
Proof.
  intros Hm Hg Hs Hl. cbv zeta.
  rewrite (ProcessGranular_spectral input output size s Hm Hg Hs Hl).
  cbn [calls parameters_ set_calls set_parameters_].
  split; [reflexivity |]. split; [reflexivity |]. split; [reflexivity |].
  split; [reflexivity |]. split; [reflexivity |].
  intros Hd. unfold spectral_parameters. cbv zeta.
  cbn [Parameters.spectral_phase_randomization Parameters.set_spectral].
  apply CONSTRAIN_range; [| reflexivity].
  apply fsub_finite_not_nan; [| reflexivity].
  apply fmul_square_not_nan; [| reflexivity | reflexivity].
  apply fsub_finite_not_nan; [exact Hd | reflexivity].
Qed.

(** ** What [Process] calls in which mode *)

(** [emits_in Q P c]: started in a playback mode that satisfies [Q], the
    computation [c] keeps the mode and only appends calls that satisfy
    [P]. *)
Definition emits_in {A : Type} (Q : Z -> Prop) (P : Call -> Prop) (c : M A) : Prop :=
  forall s, Q (playback_mode_ s) ->
    playback_mode_ (snd (c s)) = playback_mode_ s
    /\ exists d, calls (snd (c s)) = calls s ++ d /\ Forall P d.

Lemma emits_in_lift {A : Type} (Q : Z -> Prop) (P : Call -> Prop) (c : M A) :
  emits P c -> keeps playback_mode_ c -> emits_in Q P c.
Proof. intros He Hk s _. split; [apply Hk | apply He]. Qed.

Lemma emits_in_ret {A : Type} (Q : Z -> Prop) (P : Call -> Prop) (x : A) :
  emits_in Q P (ret x).
Proof. apply emits_in_lift; [apply emits_ret | apply keeps_ret]. Qed.

Lemma emits_in_bind {A B : Type} (Q : Z -> Prop) (P : Call -> Prop)
    (c : M A) (k : A -> M B) :
  emits_in Q P c -> (forall x, emits_in Q P (k x)) -> emits_in Q P (bind c k).
Proof.
  intros Hc Hk s Hq. rewrite run_bind.
  destruct (Hc s Hq) as (M1 & d1 & E1 & F1).
  destruct (Hk (fst (c s)) (snd (c s))) as (M2 & d2 & E2 & F2).
  { rewrite M1. exact Hq. }
  split; [rewrite M2; exact M1 |].
  exists (d1 ++ d2). rewrite E2, E1, app_assoc. split; [reflexivity |].
  apply Forall_app; auto.
Qed.

Lemma emits_in_get {A : Type} (Q : Z -> Prop) (P : Call -> Prop) (k : GP -> M A) :
  (forall s0, Q (playback_mode_ s0) -> emits_in Q P (k s0)) -> emits_in Q P (bind get k).
Proof. intros H s Hq. exact (H s Hq s Hq). Qed.

Lemma emits_in_when (Q : Z -> Prop) (P : Call -> Prop) (b : bool) (c : M unit) :
  emits_in Q P c -> emits_in Q P (when b c).
Proof. intros H. destruct b; cbn [when]; [exact H | apply emits_in_ret]. Qed.

Lemma emits_in_if {A : Type} (Q : Z -> Prop) (P : Call -> Prop) (b : bool) (c1 c2 : M A) :
  emits_in Q P c1 -> emits_in Q P c2 -> emits_in Q P (if b then c1 else c2).
Proof. destruct b; auto. Qed.

Lemma emits_in_let_pair {A B C : Type} (Q : Z -> Prop) (P : Call -> Prop)
    (p : A * B) (k : A -> B -> M C) :
  (forall a b, emits_in Q P (k a b)) -> emits_in Q P (let (a, b) := p in k a b).
Proof. destruct p; auto. Qed.

(** A part of the pipeline that satisfies [P] in every mode; [tac]
    proves [P] of each call. *)
Ltac emits_leaf tac :=
  apply emits_in_lift;
  [ solve [ repeat first
              [ apply emits_ret | apply emits_get | apply emits_ask
              | apply emits_bind; [| intros ?]
              | apply emits_modify; intros; reflexivity
              | apply emits_modify; intros;
                match goal with |- context [if ?b then _ else _] =>
                  destruct b; reflexivity end
              | apply emits_when
              | apply emits_for_each; intros ?
              | apply emits_call; solve [tac]
              | apply emits_call_frames; solve [tac]
              | apply emits_call_samples; solve [tac]
              | apply emits_let_pair; intros ? ?
              | apply emits_if ] ]
  | solve [ keeps_field ] ].

(** The walk through a pipeline: [simp] uses the mode hypothesis to
    settle the tests on the mode. *)
Ltac emits_walk tac simp :=
  repeat match goal with
         | |- emits_in _ _ (ret _) => apply emits_in_ret
         | |- emits_in _ _ (bind get _) => apply emits_in_get; intros ? ?; cbv zeta; simp
         | |- emits_in _ _ (bind _ _) => apply emits_in_bind; [| intros ?]
         | |- emits_in _ _ (when _ _) => first [emits_leaf tac | apply emits_in_when]
         | |- emits_in _ _ (if _ then _ else _) => first [emits_leaf tac | apply emits_in_if]
         | |- emits_in _ _ (let (_, _) := _ in _) =>
             first [emits_leaf tac | apply emits_in_let_pair; intros ? ?]
         | |- emits_in _ _ _ => emits_leaf tac
         end.

Definition not_to (c0 : Collaborator) (c : Call) : Prop := target c <> c0.

Ltac not_to_tac := unfold not_to; cbn [target]; discriminate.

Lemma reverb_modes_false (s : GP) :
  playback_mode_ s = PLAYBACK_MODE_OLIVERB
  \/ playback_mode_ s = PLAYBACK_MODE_RESONESTOR
  \/ playback_mode_ s = PLAYBACK_MODE_KAMMERL ->
  reverb_modes s = false.
Proof.
  unfold reverb_modes. intros [H | [H | H]]; rewrite H, Z.eqb_refl; cbn [negb];
    rewrite ?andb_false_r; reflexivity.
Qed.

Lemma process_block_no_reverb (input output : list ShortFrame.t) (size : Z) :
  emits_in (fun m => m = PLAYBACK_MODE_OLIVERB \/ m = PLAYBACK_MODE_RESONESTOR
                     \/ m = PLAYBACK_MODE_KAMMERL)
           (not_to reverb_) (process_block input output size).
Proof.
  unfold process_block.
  emits_walk not_to_tac
    ltac:(idtac; match goal with
                 | H : _ \/ _ |- _ =>
                     rewrite ?(reverb_modes_false _ H), ?andb_false_r; cbn [when]
                 end).
Qed.

Lemma diffuser_modes_false (m : Z) :
  m = PLAYBACK_MODE_SPECTRAL \/ m = PLAYBACK_MODE_SPECTRAL_CLOUD
  \/ m = PLAYBACK_MODE_OLIVERB \/ m = PLAYBACK_MODE_RESONESTOR
  \/ m = PLAYBACK_MODE_KAMMERL ->
  negb (m =? PLAYBACK_MODE_SPECTRAL)
  && negb (m =? PLAYBACK_MODE_SPECTRAL_CLOUD)
  && negb (m =? PLAYBACK_MODE_OLIVERB)
  && negb (m =? PLAYBACK_MODE_RESONESTOR)
  && negb (m =? PLAYBACK_MODE_KAMMERL) = false.
Proof.
  intros [H | [H | [H | [H | H]]]]; rewrite H, Z.eqb_refl; cbn [negb];
    rewrite ?andb_false_r, ?andb_false_l; reflexivity.
Qed.

Lemma process_block_no_diffuser (input output : list ShortFrame.t) (size : Z) :
  emits_in (fun m => m = PLAYBACK_MODE_SPECTRAL \/ m = PLAYBACK_MODE_SPECTRAL_CLOUD
                     \/ m = PLAYBACK_MODE_OLIVERB \/ m = PLAYBACK_MODE_RESONESTOR
                     \/ m = PLAYBACK_MODE_KAMMERL)
           (not_to diffuser_) (process_block input output size).
Proof.
  unfold process_block.
  emits_walk not_to_tac
    ltac:(idtac; match goal with
                 | H : _ \/ _ |- _ =>
                     rewrite ?(diffuser_modes_false _ H); cbn [when]
                 end).
Qed.

Lemma process_block_no_pitch_shifter (input output : list ShortFrame.t) (size : Z) :
  emits_in (fun m => m <> PLAYBACK_MODE_LOOPING_DELAY /\ m <> PLAYBACK_MODE_SPECTRAL_CLOUD)
           (not_to pitch_shifter_) (process_block input output size).
Proof.
  unfold process_block.
  emits_walk not_to_tac
    ltac:(idtac; match goal with
                 | H : _ <> _ /\ _ <> _ |- _ =>
                     rewrite ?(proj2 (Z.eqb_neq _ _) (proj1 H)),
                       ?(proj2 (Z.eqb_neq _ _) (proj2 H));
                     cbn [andb orb when]
                 end).
Qed.

(** Calls that are not to one of the four output filters. *)
Definition not_output_filter (c : Call) : Prop :=
  match target c with lp_filter_ _ | hp_filter_ _ => False | _ => True end.

Lemma process_block_no_output_filter (input output : list ShortFrame.t) (size : Z) :
  emits_in (fun m => m <> PLAYBACK_MODE_LOOPING_DELAY /\ m <> PLAYBACK_MODE_STRETCH)
           not_output_filter (process_block input output size).
Proof.
  unfold process_block.
  emits_walk ltac:(exact I)
    ltac:(idtac; match goal with
                 | H : _ <> _ /\ _ <> _ |- _ =>
                     rewrite ?(proj2 (Z.eqb_neq _ _) (proj1 H)),
                       ?(proj2 (Z.eqb_neq _ _) (proj2 H));
                     cbn [andb orb when]
                 end).
Qed.

Lemma records_input_false (s : GP) :
  playback_mode_ s = PLAYBACK_MODE_SPECTRAL
  \/ playback_mode_ s = PLAYBACK_MODE_SPECTRAL_CLOUD
  \/ playback_mode_ s = PLAYBACK_MODE_RESONESTOR ->
  records_input s = false.
Proof.
  unfold records_input. intros [H | [H | H]]; rewrite H, Z.eqb_refl; cbn [negb];
    rewrite ?andb_false_r; reflexivity.
Qed.

Ltac unfold_pipeline :=
  unfold process_block, ProcessGranular, record_input, dispatch, granular_branch,
    spectral_branch, spectral_cloud_branch, oliverb_branch, resonestor_branch, play.

Lemma process_block_no_ring_buffer (input output : list ShortFrame.t) (size : Z) :
  emits_in (fun m => m = PLAYBACK_MODE_SPECTRAL \/ m = PLAYBACK_MODE_SPECTRAL_CLOUD
                     \/ m = PLAYBACK_MODE_RESONESTOR)
           not_ring_buffer (process_block input output size).
Proof.
  unfold_pipeline.
  emits_walk ltac:(exact I)
    ltac:(idtac; match goal with
                 | H : _ \/ _ |- _ =>
                     rewrite ?(records_input_false _ H); cbn [when]
                 end).
Qed.

Ltac other_mode :=
  idtac;
  match goal with
  | H : _ <> _ |- _ => rewrite ?(proj2 (Z.eqb_neq _ _) H)
  end.

Lemma process_block_no_player (input output : list ShortFrame.t) (size : Z) :
  emits_in (fun m => m <> PLAYBACK_MODE_GRANULAR) (not_to player_)
           (process_block input output size).
Proof. unfold_pipeline. emits_walk not_to_tac other_mode. Qed.

Lemma process_block_no_resonestor (input output : list ShortFrame.t) (size : Z) :
  emits_in (fun m => m <> PLAYBACK_MODE_RESONESTOR) (not_to resonestor_)
           (process_block input output size).
Proof. unfold_pipeline. emits_walk not_to_tac other_mode. Qed.

Lemma process_block_no_oliverb (input output : list ShortFrame.t) (size : Z) :
  emits_in (fun m => m <> PLAYBACK_MODE_OLIVERB) (not_to oliverb_)
           (process_block input output size).
Proof. unfold_pipeline. emits_walk not_to_tac other_mode. Qed.

Lemma process_block_no_phase_vocoder (input output : list ShortFrame.t) (size : Z) :
  emits_in (fun m => m <> PLAYBACK_MODE_SPECTRAL /\ m <> PLAYBACK_MODE_SPECTRAL_CLOUD)
           (not_to phase_vocoder_) (process_block input output size).
Proof.
  unfold_pipeline.
  emits_walk not_to_tac
    ltac:(idtac; match goal with
                 | H : _ <> _ /\ _ <> _ |- _ =>
                     rewrite ?(proj2 (Z.eqb_neq _ _) (proj1 H)),
                       ?(proj2 (Z.eqb_neq _ _) (proj2 H))
                 end).
Qed.

Lemma emits_in_Process (Q : Z -> Prop) (P : Call -> Prop)
    (input output : list ShortFrame.t) (size : Z) :
  emits_in Q P (process_block input output size) ->
  emits_in Q P (Process input output size).
Proof.
  intros H. unfold Process. apply emits_in_get. intros s0 _.
  repeat apply emits_in_if; try apply emits_in_ret. exact H.
Qed.

(** [appends P c s]: run from [s], [c] only appends calls that satisfy
    [P] to the log. *)
Definition appends {A : Type} (P : Call -> Prop) (c : M A) (s : GP) : Prop :=
  exists d, calls (exec c s) = calls s ++ d /\ Forall P d.

Lemma emits_in_appends (Q : Z -> Prop) (P : Call -> Prop)
    (input output : list ShortFrame.t) (size : Z) (s : GP) :
  emits_in Q P (process_block input output size) ->
  Q (playback_mode_ s) -> appends P (Process input output size) s.
Proof.
  intros H Hq.
  exact (proj2 (emits_in_Process Q P input output size H s Hq)).
Qed.

(** X15 -- The post-processing stages by mode.  Whatever the block and
    the flags, [Process] makes no call on the generic reverb in the
    OLIVERB, RESONESTOR and KAMMERL modes, none on the diffuser in the
    SPECTRAL, SPECTRAL_CLOUD, OLIVERB, RESONESTOR and KAMMERL modes, none
    on the pitch shifter outside the LOOPING_DELAY and SPECTRAL_CLOUD
    modes, and none on the low-pass and high-pass output filters outside
    the LOOPING_DELAY and STRETCH modes. *)
Theorem Process_post_processing_by_mode (input output : list ShortFrame.t) (size : Z)
    (s : GP) :
  let m := playback_mode_ s in
  (m = PLAYBACK_MODE_OLIVERB \/ m = PLAYBACK_MODE_RESONESTOR \/ m = PLAYBACK_MODE_KAMMERL ->
   appends (not_to reverb_) (Process input output size) s)
  /\ (m = PLAYBACK_MODE_SPECTRAL \/ m = PLAYBACK_MODE_SPECTRAL_CLOUD
      \/ m = PLAYBACK_MODE_OLIVERB \/ m = PLAYBACK_MODE_RESONESTOR
      \/ m = PLAYBACK_MODE_KAMMERL ->
      appends (not_to diffuser_) (Process input output size) s)
  /\ (m <> PLAYBACK_MODE_LOOPING_DELAY /\ m <> PLAYBACK_MODE_SPECTRAL_CLOUD ->
      appends (not_to pitch_shifter_) (Process input output size) s)
  /\ (m <> PLAYBACK_MODE_LOOPING_DELAY /\ m <> PLAYBACK_MODE_STRETCH ->
      appends not_output_filter (Process input output size) s).
Proof.
  cbv zeta.
  split; [intros H; exact (emits_in_appends _ _ input output size s (process_block_no_reverb input output size) H) |].
  split; [intros H; exact (emits_in_appends _ _ input output size s (process_block_no_diffuser input output size) H) |].
  split; [intros H; exact (emits_in_appends _ _ input output size s (process_block_no_pitch_shifter input output size) H) |].
  intros H; exact (emits_in_appends _ _ input output size s (process_block_no_output_filter input output size) H).
Qed.

(** X16 -- The ring buffers by mode.  In the SPECTRAL, SPECTRAL_CLOUD
    and RESONESTOR modes [Process] makes no call on a ring buffer,
    whatever the block, the fidelity and the flags. *)
Theorem Process_ring_buffers_by_mode (input output : list ShortFrame.t) (size : Z)
    (s : GP) :
  playback_mode_ s = PLAYBACK_MODE_SPECTRAL
  \/ playback_mode_ s = PLAYBACK_MODE_SPECTRAL_CLOUD
  \/ playback_mode_ s = PLAYBACK_MODE_RESONESTOR ->
  exists d,
    calls (exec (Process input output size) s) = calls s ++ d
    /\ Forall not_ring_buffer d.
Proof.
  intros H.
  exact (emits_in_appends _ _ input output size s
           (process_block_no_ring_buffer input output size) H).
Qed.

(** X17 -- The engines by mode.  [Process] calls the granular player
    only in the GRANULAR mode, the resonator only in the RESONESTOR
    mode, the Oliverb reverb only in the OLIVERB mode and the phase
    vocoder only in the SPECTRAL and SPECTRAL_CLOUD modes. *)
Theorem Process_engines_by_mode (input output : list ShortFrame.t) (size : Z) (s : GP) :
  let m := playback_mode_ s in
  (m <> PLAYBACK_MODE_GRANULAR -> appends (not_to player_) (Process input output size) s)
  /\ (m <> PLAYBACK_MODE_RESONESTOR ->
      appends (not_to resonestor_) (Process input output size) s)
  /\ (m <> PLAYBACK_MODE_OLIVERB ->
      appends (not_to oliverb_) (Process input output size) s)
  /\ (m <> PLAYBACK_MODE_SPECTRAL /\ m <> PLAYBACK_MODE_SPECTRAL_CLOUD ->
      appends (not_to phase_vocoder_) (Process input output size) s).
Proof.
  cbv zeta.
  split; [intros H; exact (emits_in_appends _ _ input output size s (process_block_no_player input output size) H) |].
  split; [intros H; exact (emits_in_appends _ _ input output size s (process_block_no_resonestor input output size) H) |].
  split; [intros H; exact (emits_in_appends _ _ input output size s (process_block_no_oliverb input output size) H) |].
  intros H; exact (emits_in_appends _ _ input output size s (process_block_no_phase_vocoder input output size) H).
Qed.

(** ** The sample memory through a save and a load *)

(** The bytes of a region are bytes. *)
Definition bytes_ok (region : list Z) : Prop := Forall (fun b => 0 <= b < 256) region.

Lemma bytes_ok_nth (region : list Z) (j : nat) : bytes_ok region -> 0 <= nth j region 0 < 256.
Proof.
  intros H. destruct (Nat.lt_ge_cases j (length region)) as [L | G].
  - apply (proj1 (Forall_forall _ _) H). apply nth_In. exact L.
  - rewrite nth_overflow by exact G. lia.
Qed.

(** Byte [t] of the word that packs four bytes, little end first. *)
Lemma byte_of_word (bytes : list Z) (k : nat) (t : Z) :
  bytes_ok bytes -> 0 <= t < 4 ->
  (word_of_bytes bytes k / 2 ^ (8 * t)) mod 256 = nth (4 * k + Z.to_nat t) bytes 0.
Proof.
  intros H Ht. unfold word_of_bytes.
  pose proof (bytes_ok_nth bytes (4 * k) H) as B0.
  pose proof (bytes_ok_nth bytes (4 * k + 1) H) as B1.
  pose proof (bytes_ok_nth bytes (4 * k + 2) H) as B2.
  pose proof (bytes_ok_nth bytes (4 * k + 3) H) as B3.
  set (b0 := nth (4 * k) bytes 0) in *. set (b1 := nth (4 * k + 1) bytes 0) in *.
  set (b2 := nth (4 * k + 2) bytes 0) in *. set (b3 := nth (4 * k + 3) bytes 0) in *.
  change (2 ^ 8) with 256. change (2 ^ 16) with 65536. change (2 ^ 24) with 16777216.
  assert (C : t = 0 \/ t = 1 \/ t = 2 \/ t = 3) by lia.
  destruct C as [-> | [-> | [-> | ->]]].
  - change (2 ^ (8 * 0)) with 1. rewrite Z.div_1_r.
    replace (4 * k + Z.to_nat 0)%nat with (4 * k)%nat by lia. fold b0.
    symmetry. apply Z.mod_unique with (q := b1 + 256 * b2 + 65536 * b3); lia.
  - change (2 ^ (8 * 1)) with 256.
    replace (4 * k + Z.to_nat 1)%nat with (4 * k + 1)%nat by lia. fold b1.
    assert (D : (b0 + 256 * b1 + 65536 * b2 + 16777216 * b3) / 256
                = b1 + 256 * b2 + 65536 * b3).
    { symmetry. apply Z.div_unique with (r := b0); lia. }
    rewrite D. symmetry. apply Z.mod_unique with (q := b2 + 256 * b3); lia.
  - change (2 ^ (8 * 2)) with 65536.
    replace (4 * k + Z.to_nat 2)%nat with (4 * k + 2)%nat by lia. fold b2.
    assert (D : (b0 + 256 * b1 + 65536 * b2 + 16777216 * b3) / 65536 = b2 + 256 * b3).
    { symmetry. apply Z.div_unique with (r := b0 + 256 * b1); lia. }
    rewrite D. symmetry. apply Z.mod_unique with (q := b3); lia.
  - change (2 ^ (8 * 3)) with 16777216.
    replace (4 * k + Z.to_nat 3)%nat with (4 * k + 3)%nat by lia. fold b3.
    assert (D : (b0 + 256 * b1 + 65536 * b2 + 16777216 * b3) / 16777216 = b3).
    { symmetry. apply Z.div_unique with (r := b0 + 256 * b1 + 65536 * b2); lia. }
    rewrite D. apply Z.mod_small. lia.
Qed.

(** Word [k] of the payload of a block, found in the stream. *)
Lemma word_in_block (s : GP) (b : PersistentBlock.t) (pfx rest : list Z) (k : nat) :
  (k < length (payload_words s b))%nat ->
  word (pfx ++ block_words s b ++ rest) (Z.of_nat (length pfx) + 2 + Z.of_nat k)
  = nth k (payload_words s b) 0.
Proof.
  intros Hk. unfold word, block_words.
  replace (Z.to_nat (Z.of_nat (length pfx) + 2 + Z.of_nat k))
    with (length pfx + (2 + k))%nat by lia.
  rewrite app_nth2_plus. cbn [app nth Nat.add].
  apply app_nth1. exact Hk.
Qed.

(** A byte of a buffer block, read back from the stream. *)
Lemma byte_in_block (s : GP) (i n : Z) (pfx rest : list Z) (j : Z) :
  bytes_ok (at2 i (buffer_ s)) ->
  0 <= j < n ->
  let b := PersistentBlock.mk (FourCC "b" "u" "f" "f") (BufferData i) n in
  byte_at (pfx ++ block_words s b ++ rest) (Z.of_nat (length pfx) + 2) j
  = nth (Z.to_nat j) (at2 i (buffer_ s)) 0.
Proof.
  intros Hb Hj b. unfold byte_at.
  assert (Hq : 0 <= j / 4) by (apply Z.div_pos; lia).
  assert (Hlt : j / 4 < (n + 3) / 4).
  { apply Z.div_lt_upper_bound; [lia |].
    pose proof (Z.mul_div_le (n + 3) 4 ltac:(lia)).
    pose proof (Z.mod_pos_bound (n + 3) 4 ltac:(lia)).
    pose proof (Z.div_mod (n + 3) 4 ltac:(lia)). lia. }
  replace (Z.of_nat (length pfx) + 2 + j / 4)
    with (Z.of_nat (length pfx) + 2 + Z.of_nat (Z.to_nat (j / 4))) by lia.
  rewrite word_in_block.
  - unfold payload_words, b. cbn [PersistentBlock.data PersistentBlock.size].
    rewrite (nth_indep _ 0 (word_of_bytes (at2 i (buffer_ s)) 0))
      by (rewrite length_map, length_seq; lia).
    rewrite (map_nth (word_of_bytes (at2 i (buffer_ s)))).
    rewrite seq_nth by lia. cbn [Nat.add].
    rewrite byte_of_word by (try assumption; apply Z.mod_pos_bound; lia).
    f_equal.
    pose proof (Z.div_mod j 4 ltac:(lia)).
    pose proof (Z.mod_pos_bound j 4 ltac:(lia)). lia.
  - unfold payload_words, b. cbn [PersistentBlock.data PersistentBlock.size].
    rewrite length_map, length_seq. lia.
Qed.

Lemma fill_nth {A : Type} (f : nat -> A) (n : Z) (dst : list A) (j : nat) (d : A) :
  (j < Z.to_nat n)%nat -> nth j (fill f n dst) d = f j.
Proof.
  intros Hj. unfold fill.
  rewrite app_nth1 by (rewrite length_map, length_seq; exact Hj).
  rewrite (nth_indep _ d (f 0%nat)) by (rewrite length_map, length_seq; exact Hj).
  rewrite map_nth, seq_nth by exact Hj. reflexivity.
Qed.

Lemma at2_set2_same {A : Type} (i : Z) (v : A) (p : A * A) : at2 i (set2 i v p) = v.
Proof. unfold at2, set2. destruct (i =? 0); reflexivity. Qed.

Lemma at2_set2_other {A : Type} (i k : Z) (v : A) (p : A * A) :
  i = 0 \/ i = 1 -> k = 0 \/ k = 1 -> i <> k -> at2 i (set2 k v p) = at2 i p.
Proof.
  unfold at2, set2. intros [-> | ->] [-> | ->] H; try congruence; reflexivity.
Qed.

Definition buffer_block (n : Z) (i : Z) : PersistentBlock.t :=
  PersistentBlock.mk (FourCC "b" "u" "f" "f") (BufferData i) n.

Lemma copy_buffer_block (n i : Z) (data : list Z) (off : Z) (s : GP) :
  buffer_ (exec (copy_block (buffer_block n i) data off) s)
  = set2 i (memcpy_bytes data off n (at2 i (buffer_ s))) (buffer_ s).
Proof. unfold copy_block. rewrite exec_bind. reflexivity. Qed.

(** The blocks of other channels leave the region of channel [i]
    alone. *)
Lemma copy_blocks_other (n i : Z) (chs : list Z) (data : list Z) (off : Z) (s : GP) :
  i = 0 \/ i = 1 -> (forall k, In k chs -> k = 0 \/ k = 1) -> ~ In i chs ->
  at2 i (buffer_ (copy_blocks (map (buffer_block n) chs) data off s)) = at2 i (buffer_ s).
Proof.
  intros Hi. revert off s.
  induction chs as [| c cs IH]; intros off s Hc Hn; cbn [map copy_blocks].
  - reflexivity.
  - rewrite IH.
    + rewrite copy_buffer_block. apply at2_set2_other.
      * exact Hi.
      * apply Hc. left. reflexivity.
      * intros E. apply Hn. left. symmetry. exact E.
    + intros k Hk. apply Hc. right. exact Hk.
    + intros H. apply Hn. right. exact H.
Qed.

Lemma block_words_length (s : GP) (n i : Z) :
  0 <= n -> n mod 4 = 0 ->
  Z.of_nat (length (block_words s (buffer_block n i))) = 2 + Z.quot n 4.
Proof.
  intros H0 H4. unfold block_words, payload_words, buffer_block.
  cbn [PersistentBlock.data PersistentBlock.size length].
  rewrite length_map, length_seq.
  rewrite Z.quot_div_nonneg by lia.
  assert (D : (n + 3) / 4 = n / 4).
  { assert (E : n = 4 * (n / 4)) by (apply Z.div_exact; lia).
    symmetry. apply Z.div_unique with (r := 3); lia. }
  rewrite D. pose proof (Z.div_pos n 4 H0 ltac:(lia)). lia.
Qed.

(** Copying the buffer blocks of a stream puts back, in the region of
    each channel, the bytes the stream was written from. *)
Lemma copy_blocks_restores (saved : GP) (n : Z) (chs : list Z) :
  0 <= n -> n mod 4 = 0 ->
  NoDup chs ->
  (forall k, In k chs -> k = 0 \/ k = 1) ->
  (forall k, In k chs -> bytes_ok (at2 k (buffer_ saved))) ->
  forall (pfx rest : list Z) (s : GP) (i : Z), In i chs ->
  forall j, 0 <= j < n ->
    nth (Z.to_nat j)
        (at2 i (buffer_ (copy_blocks (map (buffer_block n) chs)
                           (pfx ++ flat_map (block_words saved) (map (buffer_block n) chs)
                                ++ rest)
                           (Z.of_nat (length pfx)) s))) 0
    = nth (Z.to_nat j) (at2 i (buffer_ saved)) 0.
Proof.
  intros H0 H4 Hd. induction Hd as [| c cs Hc Hd IH]; intros Hk Hb pfx rest s i Hi j Hj.
  - destruct Hi.
  - cbn [map flat_map copy_blocks].
    assert (N : next_block (buffer_block n c) (Z.of_nat (length pfx))
                = Z.of_nat (length (pfx ++ block_words saved (buffer_block n c)))).
    { unfold next_block. cbn [buffer_block PersistentBlock.size].
      rewrite length_app, Nat2Z.inj_add, (block_words_length saved n c H0 H4). lia. }
    rewrite N.
    replace (pfx ++ (block_words saved (buffer_block n c)
                     ++ flat_map (block_words saved) (map (buffer_block n) cs)) ++ rest)
      with ((pfx ++ block_words saved (buffer_block n c))
            ++ flat_map (block_words saved) (map (buffer_block n) cs) ++ rest)
      by (rewrite <- !app_assoc; reflexivity).
    destruct Hi as [<- | Hi].
    + rewrite copy_blocks_other.
      * rewrite copy_buffer_block, at2_set2_same. unfold memcpy_bytes.
        rewrite fill_nth by lia. rewrite Z2Nat.id by lia.
        rewrite <- !app_assoc.
        apply (byte_in_block saved c n pfx); [apply Hb; left; reflexivity | exact Hj].
      * apply Hk. left. reflexivity.
      * intros k Hin. apply Hk. right. exact Hin.
      * exact Hc.
    + apply IH.
      * intros k Hin. apply Hk. right. exact Hin.
      * intros k Hin. apply Hb. right. exact Hin.
      * exact Hi.
      * exact Hj.
Qed.

(** The run of a load on a stream saved with the same geometry: every
    block passes its check and is copied, then the heads are reset. *)
Lemma round_trip_run (saved current : GP) :
  saveable saved ->
  quality_decodes saved ->
  buffer_size_ current = buffer_size_ saved ->
  let P := PreparePersistentData saved in
  LoadPersistentData (save_stream P) current
  = finish_load (copy_blocks (buffer_blocks P) (save_stream P) (next_block state_block 0)
                   (after_first_block (save_stream P) current)).
Proof.
  intros (H0 & H4) (Qn & Ql) Hs P.
  set (stream := save_stream P).
  assert (EP : persistent_state_ P =
               PersistentState.mk
                 (head (fst (active_buffers saved)), head (snd (active_buffers saved)))
                 (uint8 (quality saved)) (currently_spectral saved))
    by apply PreparePersistentData_state.
  destruct (save_stream_formats_ok P H0 H4) as [F0 F1].
  fold stream in F0, F1.
  assert (D : memcpy_state stream 2 = persistent_state_ P).
  { apply memcpy_state_save_stream. rewrite EP. cbv zeta.
    cbn [PersistentState.write_head PersistentState.quality PersistentState.spectral fst snd].
    repeat split; try apply head_int32; try apply uint8_range.
    - unfold currently_spectral. destruct (is_spectral _); [apply uint8_range | lia].
    - unfold currently_spectral. destruct (is_spectral _); [apply uint8_range | lia]. }
  destruct (after_first_block_fields stream current) as (_ & N2 & _).
  rewrite D, EP in N2. cbn [PersistentState.quality] in N2. rewrite Qn in N2.
  set (s2 := after_first_block stream current) in *.
  assert (B2 : buffer_size_ s2 = buffer_size_ saved).
  { unfold s2, after_first_block.
    destruct (after_state_block_Prepare
                (exec (copy_block state_block stream 2) (set_silence_ true current)))
      as (mode & E).
    rewrite E, Prepare_buffer_size. unfold copy_block. rewrite exec_bind. exact Hs. }
  assert (K2 : buffer_blocks s2 = buffer_blocks P).
  { unfold buffer_blocks, channels. rewrite N2, B2. reflexivity. }
  rewrite (LoadPersistentData_first_ok stream current F0). fold s2. rewrite K2.
  apply load_blocks_ok. exact F1.
Qed.

Lemma finish_load_buffer (s : GP) : buffer_ (snd (finish_load s)) = buffer_ s.
Proof.
  unfold finish_load. rewrite run_bind. cbn [get fst snd].
  destruct (low_fidelity_ s); rewrite !run_bind; reflexivity.
Qed.

Lemma channels_small (s : GP) :
  num_channels_ s = 1 \/ num_channels_ s = 2 ->
  NoDup (channels s) /\ (forall k, In k (channels s) -> k = 0 \/ k = 1).
Proof.
  intros [H | H].
  - rewrite (channels_1 s H). split.
    + constructor; [intros [] | constructor].
    + intros k [<- | []]. left. reflexivity.
  - rewrite (channels_2 s H). split.
    + constructor; [intros [E | []]; discriminate E |].
      constructor; [intros [] | constructor].
    + intros k [<- | [<- | []]]; [left | right]; reflexivity.
Qed.

(** X18 -- The sample memory survives the round trip.  A stream saved by
    a processor with one or two channels, loaded by a processor of the
    same buffer geometry (in whatever mode), is accepted, and after the
    load the region of every channel in use holds, over the size that
    was saved, the bytes the saved processor had there. *)
Theorem persistence_restores_samples (saved current : GP) :
  saveable saved ->
  quality_decodes saved ->
  buffer_size_ current = buffer_size_ saved ->
  num_channels_ saved = 1 \/ num_channels_ saved = 2 ->
  bytes_ok (fst (buffer_ saved)) ->
  bytes_ok (snd (buffer_ saved)) ->
  let stream := save_stream (PreparePersistentData saved) in
  let loaded := snd (LoadPersistentData stream current) in
  fst (LoadPersistentData stream current) = true
  /\ forall i, In i (channels saved) ->
     forall j, 0 <= j < at2 (num_channels_ saved - 1) (buffer_size_ saved) ->
       nth (Z.to_nat j) (at2 i (buffer_ loaded)) 0
       = nth (Z.to_nat j) (at2 i (buffer_ saved)) 0.
Proof.
  intros Sv Qd Hs Hn B0 B1 stream loaded. subst stream loaded.
  rewrite (round_trip_run saved current Sv Qd Hs). cbv zeta.
  set (P := PreparePersistentData saved).
  set (s2 := after_first_block (save_stream P) current).
  split; [apply finish_load_spec |].
  intros i Hi j Hj. rewrite finish_load_buffer.
  destruct Sv as (H0 & H4). destruct (channels_small saved Hn) as [Nd Ch].
  change (buffer_blocks P)
    with (map (buffer_block (at2 (num_channels_ saved - 1) (buffer_size_ saved)))
              (channels saved)).
  change (next_block state_block 0)
    with (Z.of_nat (length (block_words P state_block))).
  replace (save_stream P)
    with (block_words P state_block
          ++ flat_map (block_words P)
               (map (buffer_block (at2 (num_channels_ saved - 1) (buffer_size_ saved)))
                    (channels saved)) ++ [])
    by (rewrite app_nil_r; reflexivity).
  apply (copy_blocks_restores P); try assumption.
  intros k Hk. change (buffer_ P) with (buffer_ saved).
  destruct (Ch k Hk) as [-> | ->]; assumption.
Qed.

(** ** The cutoffs of the output filters *)

Lemma CONSTRAIN_nan_or_range (var lo hi : float) :
  fle lo hi = true ->
  CONSTRAIN var lo hi = S754_nan
  \/ (fle lo (CONSTRAIN var lo hi) = true /\ fle (CONSTRAIN var lo hi) hi = true).
Proof.
  intros Hr. destruct var as [s | s | | s m e] eqn:E;
    try (right; apply CONSTRAIN_range; [discriminate | exact Hr]).
  left. unfold CONSTRAIN.
  change (S754_nan <? lo)%f32 with false. cbv iota.
  assert (G : (S754_nan >? hi)%f32 = false) by (destruct hi; reflexivity).
  rewrite G. reflexivity.
Qed.

(** A call on a low-pass or high-pass output filter that sets a
    frequency sets one that is clamped to [[0, 0.499]], unless it is a
    NaN. *)
Definition clamped_cutoff (c : Call) : Prop :=
  match target c with
  | lp_filter_ _ | hp_filter_ _ =>
      match args c with
      | [AF cutoff; AF _] =>
          cutoff = S754_nan
          \/ (fle fzero cutoff = true /\ fle cutoff (dec 499 3) = true)
      | _ => True
      end
  | _ => True
  end.

Ltac clamped_cutoff_tac :=
  unfold clamped_cutoff; cbn [target args];
  first [ exact I | apply CONSTRAIN_nan_or_range; reflexivity ].

Ltac emits_with tac :=
  repeat first
    [ apply emits_ret | apply emits_get | apply emits_ask
    | apply emits_bind; [| intros ?]
    | apply emits_modify; intros; reflexivity
    | apply emits_modify; intros;
      match goal with |- context [if ?b then _ else _] => destruct b; reflexivity end
    | apply emits_when
    | apply emits_for_each; intros ?
    | apply emits_call; solve [tac]
    | apply emits_call_frames; solve [tac]
    | apply emits_call_samples; solve [tac]
    | apply emits_let_pair; intros ? ?
    | apply emits_if ].

Lemma emits_cutoff_process_block (input output : list ShortFrame.t) (size : Z) :
  emits clamped_cutoff (process_block input output size).
Proof.
  unfold_pipeline.
  unfold apply_feedback, feedback_filter, apply_reverb, filter_channel, process_in_place,
    write_fade.
  emits_with clamped_cutoff_tac.
Qed.

(** X19 -- The cutoffs of the output filters.  Every frequency that
    [Process] sets on a low-pass or a high-pass output filter has gone
    through the clamp to [[0, 0.499]]: it lies in that range, unless it is a
    NaN, which the clamp lets through. *)
Theorem Process_output_filter_cutoffs (input output : list ShortFrame.t) (size : Z) (s : GP) :
  exists d,
    calls (exec (Process input output size) s) = calls s ++ d
    /\ Forall clamped_cutoff d.
Proof.
  revert s. change (emits clamped_cutoff (Process input output size)).
  unfold Process. apply emits_bind; [apply emits_get | intros s0].
  repeat apply emits_if; try apply emits_ret.
  apply emits_cutoff_process_block.
Qed.

(** ** The mute fades once they have settled *)

(** The level a mute fade settles on. *)
Definition mute_level (mute : bool) : float := if mute then fzero else fone.

Lemma ONE_POLE_settled (mute : bool) :
  ONE_POLE (mute_level mute) (mute_level mute) (dec 1 2) = mute_level mute.
Proof. destruct mute; vm_compute; reflexivity. Qed.

Lemma mute_loop_settled (mute : bool) (frames : list FloatFrame.t) :
  mute_loop (mute_level mute) (mute_level mute) frames
  = (mute_level mute,
     map (fun f => FloatFrame.mk (FloatFrame.l f * mute_level mute)%f32
                                 (FloatFrame.r f * mute_level mute)%f32) frames).
Proof.
  induction frames as [| f frames IH]; cbn [mute_loop map].
  - reflexivity.
  - rewrite ONE_POLE_settled, IH. reflexivity.
Qed.

(** [preserves I c]: [c] takes a state in which [I] holds to one in
    which it holds. *)
Definition preserves {A : Type} (I : GP -> Prop) (c : M A) : Prop :=
  forall s, I s -> I (snd (c s)).

Lemma preserves_keeps {A B : Type} (f : GP -> B) (v : B) (c : M A) :
  keeps f c -> preserves (fun s => f s = v) c.
Proof. intros H s Hs. rewrite H. exact Hs. Qed.

Lemma preserves_bind {A B : Type} (I : GP -> Prop) (c : M A) (k : A -> M B) :
  preserves I c -> (forall x, preserves I (k x)) -> preserves I (bind c k).
Proof. intros Hc Hk s Hs. rewrite run_bind. apply Hk, Hc, Hs. Qed.

Lemma preserves_get_bind {A : Type} (I : GP -> Prop) (k : GP -> M A) :
  (forall s0, I s0 -> preserves I (k s0)) -> preserves I (bind get k).
Proof. intros H s Hs. exact (H s Hs s Hs). Qed.

Lemma preserves_modify (I : GP -> Prop) (g : GP -> GP) :
  (forall s, I s -> I (g s)) -> preserves I (modify g).
Proof. intros H s Hs. apply H, Hs. Qed.

Ltac preserves_leaf :=
  first
    [ apply preserves_keeps; solve [keeps_field]
    | apply preserves_modify; intros ? ?;
      match goal with
      | H : (_, _) = (_, _) |- _ =>
          injection H as ? ?; cbn; f_equal; assumption
      end ].

Ltac preserves_walk levels :=
  repeat match goal with
         | |- preserves _ (bind get _) =>
             apply preserves_get_bind; intros ? ?; cbv zeta;
             match goal with
             | H : (_, _) = (_, _) |- _ =>
                 let E1 := fresh in
                 let E2 := fresh in
                 injection H as E1 E2;
                 rewrite ?E1, ?E2; fold levels;
                 rewrite ?mute_loop_settled; cbv iota
             end
         | |- preserves _ (bind _ _) => apply preserves_bind; [| intros ?]
         | |- preserves _ _ => preserves_leaf
         end.

Lemma process_block_mute_in (mute : bool) (input output : list ShortFrame.t) (size : Z) :
  preserves (fun s => (mute_in_ s, mute_in_fade_ s) = (mute, mute_level mute))
            (process_block input output size).
Proof.
  unfold process_block, filter_channel, process_in_place, ProcessGranular, record_input,
    write_fade, dispatch, granular_branch, spectral_branch, spectral_cloud_branch,
    oliverb_branch, resonestor_branch, play, apply_feedback, feedback_filter,
    filter_channel, apply_reverb, process_in_place.
  preserves_walk (mute_level mute).
Qed.

Lemma process_block_mute_out (mute : bool) (input output : list ShortFrame.t) (size : Z) :
  preserves (fun s => (mute_out_ s, mute_out_fade_ s) = (mute, mute_level mute))
            (process_block input output size).
Proof.
  unfold process_block, filter_channel, process_in_place, ProcessGranular, record_input,
    write_fade, dispatch, granular_branch, spectral_branch, spectral_cloud_branch,
    oliverb_branch, resonestor_branch, play, apply_feedback, feedback_filter,
    filter_channel, apply_reverb, process_in_place.
  preserves_walk (mute_level mute).
Qed.

Lemma preserves_Process (I : GP -> Prop) (input output : list ShortFrame.t) (size : Z) :
  preserves I (process_block input output size) ->
  preserves I (Process input output size).
Proof.
  intros H s Hs. unfold Process. rewrite run_bind. cbn [get fst snd].
  destruct (bypass_ s); [exact Hs |].
  destruct (_ || _); [exact Hs | apply H, Hs].
Qed.

(** X20 -- Settled mutes stay settled.  Once the fade of the input mute
    has reached its target (0 when muted, 1 when not), [Process] leaves
    it exactly there, block after block and in every mode; and so for
    the fade of the output mute. *)
Theorem Process_settled_mutes (mute : bool) (input output : list ShortFrame.t) (size : Z)
    (s : GP) :
  let level := if mute then fzero else fone in
  (mute_in_ s = mute -> mute_in_fade_ s = level ->
   mute_in_ (exec (Process input output size) s) = mute
   /\ mute_in_fade_ (exec (Process input output size) s) = level)
  /\ (mute_out_ s = mute -> mute_out_fade_ s = level ->
      mute_out_ (exec (Process input output size) s) = mute
      /\ mute_out_fade_ (exec (Process input output size) s) = level).
Proof.
  cbv zeta. fold (mute_level mute). split; intros H1 H2.
  - pose proof (preserves_Process _ input output size
                  (process_block_mute_in mute input output size) s) as P.
    cbv beta in P. rewrite H1, H2 in P. specialize (P eq_refl).
    injection P as E1 E2. split; assumption.
  - pose proof (preserves_Process _ input output size
                  (process_block_mute_out mute input output size) s) as P.
    cbv beta in P. rewrite H1, H2 in P. specialize (P eq_refl).
    injection P as E1 E2. split; assumption.
Qed.

(** ** The freeze coefficient once it has settled *)

(** The value the smoothed freeze coefficient settles on. *)
Definition freeze_level (freeze : bool) : float := if freeze then fone else fzero.

Lemma ONE_POLE_frozen (freeze : bool) :
  ONE_POLE (freeze_level freeze) (if freeze then fone else fzero) (dec 5 4)
  = freeze_level freeze.
Proof. destruct freeze; vm_compute; reflexivity. Qed.

Lemma process_block_freeze (freeze : bool) (input output : list ShortFrame.t) (size : Z) :
  preserves (fun s => (Parameters.freeze (parameters_ s), freeze_lp_ s)
                      = (freeze, freeze_level freeze))
            (process_block input output size).
Proof.
  unfold process_block, filter_channel, process_in_place, ProcessGranular, record_input,
    write_fade, dispatch, granular_branch, spectral_branch, spectral_cloud_branch,
    oliverb_branch, resonestor_branch, play, apply_feedback, feedback_filter,
    filter_channel, apply_reverb, process_in_place.
  repeat match goal with
         | |- preserves _ (bind get _) =>
             apply preserves_get_bind; intros ? _; cbv zeta
         | |- preserves _ (bind _ _) => apply preserves_bind; [| intros ?]
         | |- preserves _ (if _ then _ else _) =>
             first [ apply preserves_keeps; solve [keeps_field]
                   | match goal with
                     | |- preserves _ (if ?b then _ else _) => destruct b
                     end ]
         | |- preserves _ _ =>
             first
               [ apply preserves_keeps; solve [keeps_field]
               | apply preserves_modify; intros ? ?;
                 match goal with
                 | H : (_, _) = (_, _) |- _ =>
                     let E1 := fresh in
                     let E2 := fresh in
                     injection H as E1 E2;
                     cbn [parameters_ freeze_lp_ set_freeze_lp_];
                     rewrite E1, E2, ONE_POLE_frozen; reflexivity
                 end ]
         end.
Qed.

(** X21 -- A settled freeze stays settled.  Once the smoothed freeze
    coefficient has reached the value of the freeze control (1 when
    frozen, 0 when not), [Process] leaves both there in every mode: in
    the modes of the shared feedback path the smoothing is a fixed
    point, and the other modes do not touch the coefficient. *)
Theorem Process_settled_freeze (freeze : bool) (input output : list ShortFrame.t) (size : Z)
    (s : GP) :
  Parameters.freeze (parameters_ s) = freeze ->
  freeze_lp_ s = (if freeze then fone else fzero) ->
  Parameters.freeze (parameters_ (exec (Process input output size) s)) = freeze
  /\ freeze_lp_ (exec (Process input output size) s) = (if freeze then fone else fzero).
Proof.
  fold (freeze_level freeze). intros H1 H2.
  pose proof (preserves_Process _ input output size
                (process_block_freeze freeze input output size) s) as P.
  cbv beta in P. rewrite H1, H2 in P. specialize (P eq_refl).
  injection P as E1 E2. split; assumption.
Qed.

(** ** The two call sites of the wet amount *)

(** A call other than the method [m0] of the collaborator [c0]. *)
Definition other_call (c0 : Collaborator) (m0 : String.string) (c : Call) : Prop :=
  target c = c0 -> method c <> m0.

(** [calls_once I P c0 c]: from a state in which [I] holds, [c] appends
    the call [c0] to the log, and every other call it appends satisfies
    [P]. *)
Definition calls_once {A : Type} (I : GP -> Prop) (P : Call -> Prop) (c0 : Call)
    (c : M A) : Prop :=
  forall s, I s ->
    exists d1 d2,
      calls (snd (c s)) = calls s ++ d1 ++ c0 :: d2 /\ Forall P d1 /\ Forall P d2.

Lemma calls_once_call (I : GP -> Prop) (P : Call -> Prop) (t : Collaborator)
    (m : String.string) (a : list Arg) :
  calls_once I P (mkCall t m a) (call t m a).
Proof. intros s _. exists [], []. cbn. auto. Qed.

Lemma calls_once_first {A B : Type} (I : GP -> Prop) (P : Call -> Prop) (c0 : Call)
    (c : M A) (k : A -> M B) :
  calls_once I P c0 c -> (forall x, emits P (k x)) -> calls_once I P c0 (bind c k).
Proof.
  intros Hc Hk s Hs. rewrite run_bind.
  destruct (Hc s Hs) as (d1 & d2 & E & F1 & F2).
  destruct (Hk (fst (c s)) (snd (c s))) as (d3 & E3 & F3).
  exists d1, (d2 ++ d3). rewrite E3, E. split.
  - rewrite <- !app_assoc. reflexivity.
  - split; [exact F1 | apply Forall_app; auto].
Qed.

Lemma calls_once_later {A B : Type} (I : GP -> Prop) (P : Call -> Prop) (c0 : Call)
    (c : M A) (k : A -> M B) :
  emits P c -> preserves I c -> (forall x, calls_once I P c0 (k x)) ->
  calls_once I P c0 (bind c k).
Proof.
  intros He Hp Hk s Hs. rewrite run_bind.
  destruct (He s) as (d0 & E0 & F0).
  destruct (Hk (fst (c s)) (snd (c s)) (Hp s Hs)) as (d1 & d2 & E & F1 & F2).
  exists (d0 ++ d1), d2. rewrite E, E0. split.
  - rewrite <- !app_assoc. reflexivity.
  - split; [apply Forall_app; auto | exact F2].
Qed.

Lemma calls_once_get {A : Type} (I : GP -> Prop) (P : Call -> Prop) (c0 : Call)
    (k : GP -> M A) :
  (forall s0, I s0 -> calls_once I P c0 (k s0)) -> calls_once I P c0 (bind get k).
Proof. intros H s Hs. exact (H s Hs s Hs). Qed.

Lemma calls_once_ask {A : Type} (I : GP -> Prop) (P : Call -> Prop) (c0 : Call)
    (c : Collaborator) (m : String.string) (k : bool -> M A) :
  (forall log, calls_once I P c0 (k (query log c m))) ->
  calls_once I P c0 (bind (ask c m) k).
Proof. intros H s Hs. exact (H (calls s) s Hs). Qed.

Lemma configuration_site (s t : GP) :
  configuration s = configuration t ->
  playback_mode_ s = playback_mode_ t
  /\ Parameters.pitch (parameters_ s) = Parameters.pitch (parameters_ t)
  /\ Parameters.freeze (parameters_ s) = Parameters.freeze (parameters_ t).
Proof.
  unfold configuration, controls. intros H. injection H. intros. auto.
Qed.

Ltac other_call_tac :=
  unfold other_call; cbn [target method];
  first [ intros H; discriminate H | intros _; discriminate ].

(** The walk to the call: the parts before it and after it make other
    calls only, and the parts before it keep the configuration; [simp]
    settles the tests on the way. *)
Ltac once_walk simp :=
  repeat match goal with
         | |- calls_once _ _ _ (call _ _ _) => apply calls_once_call
         | |- calls_once _ _ _ (bind get _) =>
             apply calls_once_get; intros ? ?; cbv zeta; simp
         | |- calls_once _ _ _ (bind (ask _ _) _) =>
             apply calls_once_ask; intros ?; simp
         | |- calls_once _ _ (mkCall ?t ?m _) (bind ?c _) =>
             lazymatch c with
             | context [call t m] =>
                 apply calls_once_first; [| intros ?; solve [emits_with other_call_tac]]
             | _ =>
                 apply calls_once_later;
                 [ solve [emits_with other_call_tac]
                 | apply preserves_keeps; solve [keeps_field]
                 | intros ? ]
             end
         end.

Ltac site_simp s :=
  idtac;
  match goal with
  | H : configuration ?s0 = configuration s |- _ =>
      let Hm := fresh in
      let Hp := fresh in
      let Hf := fresh in
      destruct (configuration_site s0 s H) as (Hm & Hp & Hf);
      rewrite ?Hm, ?Hp, ?Hf; clear H Hm Hp Hf
  end.

Lemma ProcessGranular_oliverb_site (input output : list FloatFrame.t) (size : Z) (s : GP) :
  playback_mode_ s = PLAYBACK_MODE_OLIVERB ->
  playback_mode_ s <> PLAYBACK_MODE_GRANULAR ->
  playback_mode_ s <> PLAYBACK_MODE_STRETCH ->
  playback_mode_ s <> PLAYBACK_MODE_LOOPING_DELAY ->
  playback_mode_ s <> PLAYBACK_MODE_SPECTRAL ->
  playback_mode_ s <> PLAYBACK_MODE_SPECTRAL_CLOUD ->
  calls_once (fun t => configuration t = configuration s)
    (other_call oliverb_ "set_pitch_shift_amount")
    (mkCall oliverb_ "set_pitch_shift_amount"
            [AF (pitch_shifter_dry_wet (Parameters.pitch (parameters_ s)))])
    (ProcessGranular input output size).
Proof.
  intros Hm N1 N2 N3 N4 N5.
  apply Z.eqb_neq in N1, N2, N3, N4, N5.
  unfold ProcessGranular, record_input, write_fade, dispatch, oliverb_branch, play,
    process_in_place.
  once_walk ltac:(site_simp s; rewrite ?N1, ?N2, ?N3, ?N4, ?N5, ?Hm, ?Z.eqb_refl;
                  cbn [negb andb orb when]).
Qed.

Lemma process_block_looping_site (input output : list ShortFrame.t) (size : Z) (s : GP) :
  playback_mode_ s = PLAYBACK_MODE_LOOPING_DELAY ->
  playback_mode_ s <> PLAYBACK_MODE_SPECTRAL_CLOUD ->
  Parameters.freeze (parameters_ s) = false
  \/ (forall log, query log looper_ "synchronized" = true) ->
  calls_once (fun t => configuration t = configuration s)
    (other_call pitch_shifter_ "set_dry_wet")
    (mkCall pitch_shifter_ "set_dry_wet"
            [AF (pitch_shifter_dry_wet (Parameters.pitch (parameters_ s)))])
    (process_block input output size).
Proof.
  intros Hm N Hs.
  assert (N' : (PLAYBACK_MODE_SPECTRAL_CLOUD =? playback_mode_ s) = false)
    by (apply Z.eqb_neq; congruence).
  apply Z.eqb_neq in N.
  unfold process_block, filter_channel, process_in_place, ProcessGranular, record_input,
    write_fade, dispatch, granular_branch, spectral_branch, spectral_cloud_branch,
    oliverb_branch, resonestor_branch, play, apply_feedback, feedback_filter,
    filter_channel, apply_reverb, process_in_place.
  destruct Hs as [Hf | Hq].
  - once_walk ltac:(site_simp s; rewrite ?N, ?N', ?Hf; rewrite ?Hm, ?Z.eqb_refl;
                    cbn [negb andb orb when]).
  - once_walk ltac:(try site_simp s; rewrite ?N, ?N', ?Hq; rewrite ?Hm, ?Z.eqb_refl;
                    rewrite ?orb_true_r; cbn [negb andb orb when]).
Qed.

Lemma Process_looping_site (input output : list ShortFrame.t) (size : Z) (s : GP) :
  bypass_ s = false -> silence_ s = false -> reset_buffers_ s = false ->
  previous_playback_mode_ s = playback_mode_ s ->
  playback_mode_ s = PLAYBACK_MODE_LOOPING_DELAY ->
  playback_mode_ s <> PLAYBACK_MODE_SPECTRAL_CLOUD ->
  Parameters.freeze (parameters_ s) = false
  \/ (forall log, query log looper_ "synchronized" = true) ->
  exists d1 d2,
    calls (exec (Process input output size) s)
    = calls s ++ d1
      ++ mkCall pitch_shifter_ "set_dry_wet"
                [AF (pitch_shifter_dry_wet (Parameters.pitch (parameters_ s)))] :: d2
    /\ Forall (other_call pitch_shifter_ "set_dry_wet") d1
    /\ Forall (other_call pitch_shifter_ "set_dry_wet") d2.
Proof.
  intros Hb Hs Hr Hp Hm N Hf. unfold exec.
  rewrite (Process_prepared input output size s Hb Hs Hr Hp).
  exact (process_block_looping_site input output size s Hm N Hf s eq_refl).
Qed.

(** C6 -- Pitch-shift wet/dry trapezoid.  For every pitch value [x] (a
    finite single-precision number, compared by its exact value), the wet
    amount is 1 for [x <= -0.7], 0 for [-0.3 <= x <= 0.3], the linear
    expression [1 - (x + 0.7) / 0.4] on the band between [-0.7] and
    [-0.3], the linear expression [1 + (x - 0.7) / 0.4] on the band
    between [0.3] and [0.7], and 1 for [x >= 0.7]; the function computed
    before [oliverb_.set_pitch_shift_amount] is the one computed before
    [pitch_shifter_.set_dry_wet].  Both call sites pass this amount of
    the pitch parameter: in the OLIVERB mode [ProcessGranular] calls
    [oliverb_.set_pitch_shift_amount] with it, once; in the
    LOOPING_DELAY mode, past the gates and when freeze is off or the
    looper is synchronized, [Process] calls [pitch_shifter_.set_dry_wet]
    with it, once. *)
Theorem pitch_shift_trapezoid (x : float) :
  valid x = true ->
  is_finite x = true ->
  ((F2Q x <= - (7 # 10))%Q -> pitch_shifter_dry_wet x = fone)
  /\ ((- (3 # 10) <= F2Q x)%Q /\ (F2Q x <= 3 # 10)%Q -> pitch_shifter_dry_wet x = fzero)
  /\ ((- (7 # 10) < F2Q x)%Q /\ (F2Q x < - (3 # 10))%Q ->
      pitch_shifter_dry_wet x = (fone - (x + dec 7 1) / dec 4 1)%f32)
  /\ ((3 # 10 < F2Q x)%Q /\ (F2Q x < 7 # 10)%Q ->
      pitch_shifter_dry_wet x = (fone + (x - dec 7 1) / dec 4 1)%f32)
  /\ ((7 # 10 <= F2Q x)%Q -> pitch_shifter_dry_wet x = fone)
  /\ oliverb_pitch_shift_amount x = pitch_shifter_dry_wet x
  /\ (forall (input output : list FloatFrame.t) (size : Z) (s : GP),
        Parameters.pitch (parameters_ s) = x ->
        playback_mode_ s = PLAYBACK_MODE_OLIVERB ->
        playback_mode_ s <> PLAYBACK_MODE_GRANULAR ->
        playback_mode_ s <> PLAYBACK_MODE_STRETCH ->
        playback_mode_ s <> PLAYBACK_MODE_LOOPING_DELAY ->
        playback_mode_ s <> PLAYBACK_MODE_SPECTRAL ->
        playback_mode_ s <> PLAYBACK_MODE_SPECTRAL_CLOUD ->
        exists d1 d2,
          calls (exec (ProcessGranular input output size) s)
          = calls s ++ d1
            ++ mkCall oliverb_ "set_pitch_shift_amount" [AF (pitch_shifter_dry_wet x)] :: d2
          /\ Forall (other_call oliverb_ "set_pitch_shift_amount") d1
          /\ Forall (other_call oliverb_ "set_pitch_shift_amount") d2)
  /\ (forall (input output : list ShortFrame.t) (size : Z) (s : GP),
        Parameters.pitch (parameters_ s) = x ->
        bypass_ s = false -> silence_ s = false -> reset_buffers_ s = false ->
        previous_playback_mode_ s = playback_mode_ s ->
        playback_mode_ s = PLAYBACK_MODE_LOOPING_DELAY ->
        playback_mode_ s <> PLAYBACK_MODE_SPECTRAL_CLOUD ->
        Parameters.freeze (parameters_ s) = false
        \/ (forall log, query log looper_ "synchronized" = true) ->
        exists d1 d2,
          calls (exec (Process input output size) s)
          = calls s ++ d1
            ++ mkCall pitch_shifter_ "set_dry_wet" [AF (pitch_shifter_dry_wet x)] :: d2
          /\ Forall (other_call pitch_shifter_ "set_dry_wet") d1
          /\ Forall (other_call pitch_shifter_ "set_dry_wet") d2).
Proof.
  intros V F.
  split; [intros H; apply trapezoid_low; assumption |].
  split; [intros [H1 H2]; apply trapezoid_plateau; assumption |].
  split; [intros [H1 H2]; apply trapezoid_lower_band; assumption |].
  split; [intros [H1 H2]; apply trapezoid_upper_band; assumption |].
  split; [intros H; apply trapezoid_high; assumption |].
  split; [reflexivity |].
  split.
  - intros input output size s <- Hm N1 N2 N3 N4 N5.
    exact (ProcessGranular_oliverb_site input output size s Hm N1 N2 N3 N4 N5 s eq_refl).
  - intros input output size s <- Hb Hs Hr Hp Hm N Hf.
    apply Process_looping_site; assumption.
Qed.

End Properties.

(** * The theorems at work on the example processor *)

#[local] Existing Instance Example.buffer_ops.
#[local] Existing Instance Example.header.
#[local] Existing Instance Example.stmlib.
#[local] Existing Instance Example.collaborators.

(** The prepared example processor, saved and loaded back into itself. *)
Lemma persistence_round_trip_example :
  fst (LoadPersistentData (save_stream (PreparePersistentData Example.prepared))
         Example.prepared) = true.
Proof.
  refine (proj1 (persistence_round_trip Example.prepared Example.prepared _ _ eq_refl eq_refl)).
  - split; vm_compute; [discriminate | reflexivity].
  - split; vm_compute; reflexivity.
Defined.

(** A stream saved in the SPECTRAL mode, loaded by the processor
    prepared for the GRANULAR mode: the load switches the mode. *)
Lemma LoadPersistentData_mode_switch_example :
  playback_mode_ (after_first_block Example.spectral_stream Example.prepared)
  = PLAYBACK_MODE_SPECTRAL.
Proof.
  refine (proj1 (LoadPersistentData_mode_switch Example.spectral_stream Example.prepared _ _)).
  - vm_compute. reflexivity.
  - vm_compute. discriminate.
Defined.

(** An empty stream is refused at the state block, and nothing is
    copied. *)
Lemma LoadPersistentData_format_mismatch_example :
  LoadPersistentData [] Example.prepared = (false, set_silence_ false Example.prepared).
Proof.
  refine (proj1 (proj1 (LoadPersistentData_format_mismatch [] Example.prepared) _)).
  left. vm_compute. discriminate.
Defined.

(** A pitch of one half lies on the upper band of the trapezoid; and
    with the pitch at zero, a block in the LOOPING_DELAY mode sets the
    wet amount of the pitch shifter to the value of the trapezoid at
    zero, and a block of [ProcessGranular] in the OLIVERB mode passes the
    same value to the reverb. *)
Lemma pitch_shift_trapezoid_example :
  pitch_shifter_dry_wet (dec 5 1) = (fone + (dec 5 1 - dec 7 1) / dec 4 1)%f32
  /\ (exists d1 d2,
        calls (exec (ProcessGranular [FloatFrame.mk fone fone] [zero_frame] 1)
                    Example.oliverb_prepared)
        = calls Example.oliverb_prepared ++ d1
          ++ mkCall oliverb_ "set_pitch_shift_amount" [AF (pitch_shifter_dry_wet fzero)] :: d2
        /\ Forall (other_call oliverb_ "set_pitch_shift_amount") d1
        /\ Forall (other_call oliverb_ "set_pitch_shift_amount") d2)
  /\ (exists d1 d2,
        calls (exec (Process [ShortFrame.mk 1 2] [ShortFrame.mk 0 0] 1)
                    Example.looping_prepared)
        = calls Example.looping_prepared ++ d1
          ++ mkCall pitch_shifter_ "set_dry_wet" [AF (pitch_shifter_dry_wet fzero)] :: d2
        /\ Forall (other_call pitch_shifter_ "set_dry_wet") d1
        /\ Forall (other_call pitch_shifter_ "set_dry_wet") d2).
Proof.
  split; [| split].
  - refine (proj1 (proj2 (proj2 (proj2 (pitch_shift_trapezoid (dec 5 1) _ _)))) _).
    + vm_compute. reflexivity.
    + vm_compute. reflexivity.
    + split; vm_compute; reflexivity.
  - refine (proj1 (proj2 (proj2 (proj2 (proj2 (proj2 (proj2
              (pitch_shift_trapezoid fzero _ _)))))))
              [FloatFrame.mk fone fone] [zero_frame] 1 Example.oliverb_prepared
              _ _ _ _ _ _ _).
    + vm_compute. reflexivity.
    + vm_compute. reflexivity.
    + vm_compute. reflexivity.
    + vm_compute. reflexivity.
    + vm_compute. discriminate.
    + vm_compute. discriminate.
    + vm_compute. discriminate.
    + vm_compute. discriminate.
    + vm_compute. discriminate.
  - refine (proj2 (proj2 (proj2 (proj2 (proj2 (proj2 (proj2
              (pitch_shift_trapezoid fzero _ _)))))))
              [ShortFrame.mk 1 2] [ShortFrame.mk 0 0] 1 Example.looping_prepared
              _ _ _ _ _ _ _ _).
    + vm_compute. reflexivity.
    + vm_compute. reflexivity.
    + vm_compute. reflexivity.
    + vm_compute. reflexivity.
    + vm_compute. reflexivity.
    + vm_compute. reflexivity.
    + vm_compute. reflexivity.
    + vm_compute. reflexivity.
    + vm_compute. discriminate.
    + left. vm_compute. reflexivity.
Defined.

(** A density of one half lies in the dead zone of the overlap. *)
Lemma granular_meta_parameters_example :
  Parameters.granular_overlap
    (parameters_ (exec (ProcessGranular [] [] 0) Example.prepared)) = fzero.
Proof.
  refine (proj1 (granular_meta_parameters [] [] 0 Example.prepared _ _ _ _ _) _).
  - vm_compute. reflexivity.
  - vm_compute. reflexivity.
  - vm_compute. reflexivity.
  - vm_compute. reflexivity.
  - vm_compute. reflexivity.
  - split; vm_compute; discriminate.
Defined.

(** Two frames through the bypassed processor. *)
Lemma Process_bypass_example :
  exists output',
    Process [ShortFrame.mk 1 2; ShortFrame.mk 3 4]
            [ShortFrame.mk 0 0; ShortFrame.mk 0 0; ShortFrame.mk 0 0] 2 Example.bypassed
    = (output', Example.bypassed)
    /\ (forall i, (i < Z.to_nat 2)%nat ->
          nth_error output' i = nth_error [ShortFrame.mk 1 2; ShortFrame.mk 3 4] i)
    /\ (forall i, (Z.to_nat 2 <= i)%nat ->
          nth_error output' i
          = nth_error [ShortFrame.mk 0 0; ShortFrame.mk 0 0; ShortFrame.mk 0 0] i).
Proof.
  apply Process_bypass.
  - vm_compute. reflexivity.
  - cbn. lia.
Defined.

(** A parameter of 0.05 leaves the sample alone. *)
Lemma WarmDistortion_edges_example : WarmDistortion (dec 5 1) (dec 5 2) = dec 5 1.
Proof.
  refine (proj1 (WarmDistortion_edges (dec 5 1) (dec 5 2) _ _) _).
  - vm_compute. reflexivity.
  - vm_compute. reflexivity.
  - vm_compute. reflexivity.
Defined.

(** From GRANULAR to STRETCH with the reset-buffers flag clear: the
    transition is benign, and [Prepare] goes on, after the filters and
    the pitch shifter, to reload the correlator and to evaluate
    candidates. *)
Lemma Prepare_benign_stretch_primes :
  reset_buffers_ Example.stretch_selected = false
  /\ playback_mode_changed Example.stretch_selected = true
  /\ benign_change Example.stretch_selected = true
  /\ calls (exec Prepare Example.stretch_selected)
     = calls Example.stretch_selected ++ reset_and_clear_calls
       ++ [mkCall ws_player_ "LoadCorrelator" [ABuffers 16];
           mkCall correlator_ "EvaluateSomeCandidates" []]
  /\ calls (exec Prepare Example.stretch_selected)
     <> calls Example.stretch_selected ++ reset_and_clear_calls.
Proof.
  split; [vm_compute; reflexivity |].
  split; [vm_compute; reflexivity |].
  split; [vm_compute; reflexivity |].
  split; [vm_compute; reflexivity |].
  intros H. vm_compute in H. discriminate H.
Qed.


(** ** The further properties on the example processor *)

(** The processor as [Init] leaves it is silent. *)
Lemma Process_silence_example :
  exists output',
    Process [ShortFrame.mk 1 2] [ShortFrame.mk 5 5; ShortFrame.mk 6 6] 1 Example.initial
    = (output', Example.initial)
    /\ (forall i, (i < Z.to_nat 1)%nat -> nth_error output' i = Some (ShortFrame.mk 0 0))
    /\ (forall i, (Z.to_nat 1 <= i)%nat ->
          nth_error output' i = nth_error [ShortFrame.mk 5 5; ShortFrame.mk 6 6] i).
Proof.
  apply Process_silence.
  - reflexivity.
  - right. left. reflexivity.
Defined.

(** A stream saved in the SPECTRAL mode, loaded by the processor
    prepared for the GRANULAR mode. *)
Lemma persistence_round_trip_across_modes_example :
  playback_mode_
    (snd (LoadPersistentData
            (save_stream (PreparePersistentData Example.spectral_prepared))
            Example.prepared))
  = PLAYBACK_MODE_SPECTRAL.
Proof.
  refine (proj2 (proj2 (proj2 (proj2 (proj2 (proj2
            (persistence_round_trip_across_modes Example.spectral_prepared Example.prepared
               _ _ _ _ _))))))).
  - split; vm_compute; [discriminate | reflexivity].
  - split; vm_compute; reflexivity.
  - vm_compute. reflexivity.
  - intros _. vm_compute. split; reflexivity.
  - intros H. vm_compute in H. discriminate H.
Defined.

(** One frame through the prepared processor: the second output frame
    is untouched. *)
Lemma Process_writes_block_example :
  length (fst (Process [ShortFrame.mk 1 2] [ShortFrame.mk 5 5; ShortFrame.mk 6 6] 1
                 Example.prepared)) = 2%nat.
Proof.
  refine (proj1 (Process_writes_block [ShortFrame.mk 1 2]
                   [ShortFrame.mk 5 5; ShortFrame.mk 6 6] 1 Example.prepared _ _)).
  - cbn. lia.
  - cbn. lia.
Defined.

(** A NaN sample under a distortion of one half. *)
Lemma WarmDistortion_nan_example : WarmDistortion S754_nan (dec 5 1) = fone.
Proof.
  apply WarmDistortion_nan. left. split; [reflexivity | vm_compute; reflexivity].
Defined.

(** The STRETCH mode leaves the parameters alone. *)
Lemma ProcessGranular_parameters_example :
  parameters_ (exec (ProcessGranular [] [] 0) Example.stretch_selected)
  = parameters_ Example.stretch_selected.
Proof.
  apply ProcessGranular_parameters; vm_compute; discriminate.
Defined.

(** The sentinel mode falls through the switch. *)
Lemma ProcessGranular_unlisted_mode_example :
  fst (ProcessGranular [] [FloatFrame.mk fone fone] 0 Example.sentinel_selected)
  = [FloatFrame.mk fone fone].
Proof.
  refine (proj1 (ProcessGranular_unlisted_mode [] [FloatFrame.mk fone fone] 0
                   Example.sentinel_selected _ _ _ _ _ _ _ _));
    vm_compute; discriminate.
Defined.

(** The spectral meta-parameters of the example: the quantization is
    the texture. *)
Lemma spectral_meta_parameters_example :
  Parameters.spectral_quantization
    (parameters_ (exec (ProcessGranular [] [] 0) Example.spectral_prepared))
  = Parameters.texture (parameters_ Example.spectral_prepared).
Proof.
  refine (proj1 (proj2 (proj2
            (spectral_meta_parameters [] [] 0 Example.spectral_prepared _ _ _ _)))).
  - vm_compute. reflexivity.
  - vm_compute. discriminate.
  - vm_compute. discriminate.
  - vm_compute. discriminate.
Defined.

(** The SPECTRAL mode makes no call on a ring buffer. *)
Lemma Process_ring_buffers_by_mode_example :
  exists d,
    calls (exec (Process [ShortFrame.mk 1 2] [ShortFrame.mk 0 0] 1) Example.spectral_prepared)
    = calls Example.spectral_prepared ++ d
    /\ Forall not_ring_buffer d.
Proof.
  apply Process_ring_buffers_by_mode. left. vm_compute. reflexivity.
Defined.

Lemma bytes_ok_check (region : list Z) :
  forallb (fun b => (0 <=? b) && (b <? 256)) region = true -> bytes_ok region.
Proof.
  intros H. apply Forall_forall. intros x Hx.
  pose proof (proj1 (forallb_forall _ _) H x Hx) as Hb.
  apply andb_true_iff in Hb. destruct Hb as [L U].
  apply Z.leb_le in L. apply Z.ltb_lt in U. lia.
Qed.

(** The processor that has recorded a block, saved, and loaded into the
    freshly prepared processor: the first byte of the sample memory is
    the recorded one, not the one the loading processor had. *)
Lemma persistence_restores_samples_example :
  nth (Z.to_nat 0)
      (at2 0 (buffer_ (snd (LoadPersistentData
                              (save_stream (PreparePersistentData Example.recorded))
                              Example.prepared)))) 0
  = nth (Z.to_nat 0) (at2 0 (buffer_ Example.recorded)) 0
  /\ nth (Z.to_nat 0) (at2 0 (buffer_ Example.recorded)) 0 = 255
  /\ nth (Z.to_nat 0) (at2 0 (buffer_ Example.prepared)) 0 = 0.
Proof.
  assert (Sv : saveable Example.recorded)
    by (split; vm_compute; [discriminate | reflexivity]).
  assert (Qd : quality_decodes Example.recorded) by (split; vm_compute; reflexivity).
  assert (Hs : buffer_size_ Example.prepared = buffer_size_ Example.recorded)
    by (vm_compute; reflexivity).
  assert (Hn : num_channels_ Example.recorded = 1 \/ num_channels_ Example.recorded = 2)
    by (right; vm_compute; reflexivity).
  assert (B0 : bytes_ok (fst (buffer_ Example.recorded)))
    by (apply bytes_ok_check; vm_compute; reflexivity).
  assert (B1 : bytes_ok (snd (buffer_ Example.recorded)))
    by (apply bytes_ok_check; vm_compute; reflexivity).
  assert (Hi : In 0 (channels Example.recorded)) by (vm_compute; left; reflexivity).
  assert (Hj : 0 <= 0 < at2 (num_channels_ Example.recorded - 1)
                           (buffer_size_ Example.recorded))
    by (vm_compute; split; [discriminate | reflexivity]).
  split; [| split; vm_compute; reflexivity].
  exact (proj2 (persistence_restores_samples Example.recorded Example.prepared
                  Sv Qd Hs Hn B0 B1) 0 Hi 0 Hj).
Defined.

(** The prepared processor is not frozen and its coefficient is at
    zero: a block leaves it there. *)
Lemma Process_settled_freeze_example :
  freeze_lp_ (exec (Process [ShortFrame.mk 1 2] [ShortFrame.mk 0 0] 1) Example.prepared)
  = fzero.
Proof.
  refine (proj2 (Process_settled_freeze false [ShortFrame.mk 1 2] [ShortFrame.mk 0 0] 1
                   Example.prepared _ _)).
  - vm_compute. reflexivity.
  - vm_compute. reflexivity.
Defined.
